(** * Mi 2025 en Musica: the metrics calculator and the metadata enricher

    A shallow embedding of [scripts/generate_data.py] and of the aggregation
    and batch-fetch functions of [scripts/fetch_spotify_metadata.py].

    Conventions of the embedding.
    - Python [int] is [Z]; [len] is [Z.of_nat (length _)].
    - A Python [float] is the rational it denotes ([Q]), and [round] rounds
      half to even.  The skip rate of [calculate_skipped_tracks], which is
      compared, stored and sorted by, is computed as the code computes it:
      every float operation rounds its exact result to the nearest binary64
      value ([Py.binary64], ties to the even significand; overflow and
      subnormal values, which no ratio of two list lengths reaches, are left
      out).  The minutes, hours and percentages of the other functions are
      taken at the exact quotient: for [round(n / c)] with [|n| < 2^53] that
      is the float's value, and for the percentage of the first ranked entry,
      [round(m / m * 100)], it is 100 either way; the one-decimal
      [round(x, 1)] can differ from the float at decimal ties that are no
      binary fractions, and the statements about hours below hold of the
      exact quotient.
    - A [dict] (and a [defaultdict]) is an association list in insertion
      order, which is the order Python iterates it in; a [set] is a duplicate
      free list, of which the code only takes [len].
    - An exception is a [Raise] result. *)

From Stdlib Require Import List String Ascii ZArith QArith Qround Qpower.
From Stdlib Require Import Bool Lia Lqa.
From Stdlib Require Import Permutation Sorted Arith DecimalString.
Import ListNotations.

Set Implicit Arguments.
Open Scope Z_scope.

(** ** Python values *)

Module Py.

Inductive exn : Type :=
| TypeError
| ValueError
| ZeroDivisionError
| FileNotFoundError.

Inductive res (A : Type) : Type :=
| Ok (a : A)
| Raise (e : exn).

Arguments Ok {A} a.
Arguments Raise {A} e.

Definition bind {A B : Type} (m : res A) (k : A -> res B) : res B :=
  match m with
  | Ok a => k a
  | Raise e => Raise e
  end.

(** A list comprehension whose element expression can raise: the elements are
    evaluated left to right and the first exception escapes. *)
Fixpoint comprehension {A B : Type} (f : A -> res B) (l : list A) : res (list B) :=
  match l with
  | [] => Ok []
  | x :: l' =>
      bind (f x) (fun y => bind (comprehension f l') (fun ys => Ok (y :: ys)))
  end.

(** [a / b] on two ints. *)
Definition truediv (a b : Z) : res Q :=
  if b =? 0 then Raise ZeroDivisionError else Ok (inject_Z a / inject_Z b)%Q.

(** [round(q)]: the nearest integer, a tie going to the even neighbour. *)
Definition round (q : Q) : Z :=
  let f := Qfloor q in
  match Qcompare (q - inject_Z f) (1 # 2) with
  | Lt => f
  | Gt => f + 1
  | Eq => if Z.even f then f else f + 1
  end.

(** [round(q, ndigits)] for [ndigits >= 0]. *)
Definition round_to (ndigits : nat) (q : Q) : Q :=
  (inject_Z (round (q * inject_Z (10 ^ Z.of_nat ndigits)))
   / inject_Z (10 ^ Z.of_nat ndigits))%Q.

(** [2 ** e] as a float, for an exponent of either sign. *)
Definition pow2 (e : Z) : Q := (2 ^ e)%Q.

(** The exponent [k] of the binade of a positive [q]:
    [2^k <= q < 2^(k+1)]. *)
Definition ilog2 (q : Q) : Z :=
  let k := Z.log2 (Qnum q) - Z.log2 (Zpos (Qden q)) in
  if Qle_bool (pow2 k) q then k else k - 1.

(** The binary64 float nearest to a positive [q]: the quotient by the unit in
    the last place is rounded to an integer significand of 53 bits, a tie
    going to the even one. *)
Definition binary64_pos (q : Q) : Q :=
  let e := ilog2 q - 52 in
  (inject_Z (round (q / pow2 e)) * pow2 e)%Q.

(** The value of a float operation whose exact result is [q]: IEEE 754
    round-to-nearest, ties to even, on the normal range. *)
Definition binary64 (q : Q) : Q :=
  let r := Qred q in
  match Qnum r with
  | 0 => 0%Q
  | Zpos _ => Qred (binary64_pos r)
  | Zneg _ => Qred (- binary64_pos (- r))
  end.

Definition len {A : Type} (l : list A) : Z := Z.of_nat (List.length l).

(** [x or d] on an int. *)
Definition or_int (x d : Z) : Z := if x =? 0 then d else x.

(** Keys of dicts and members of sets: types with a decidable equality. *)
Class Key (K : Type) : Type := keyb : K -> K -> bool.

Class KeyOk (K : Type) {key : Key K} : Prop :=
  keyb_spec : forall a b : K, keyb a b = true <-> a = b.

Arguments KeyOk K {key}.

#[export] Instance Key_string : Key string := String.eqb.

#[export] Instance Key_Z : Key Z := Z.eqb.

#[export] Instance Key_pair {A B : Type} `{Key A} `{Key B} : Key (A * B) :=
  fun p q => keyb (fst p) (fst q) && keyb (snd p) (snd q).

(** [d[k] = f(d[k])] on a [defaultdict] whose factory returns [d0]: an
    existing key keeps its position, a new key goes last. *)
Fixpoint dict_update {K V : Type} `{Key K} (k : K) (d0 : V) (f : V -> V)
    (d : list (K * V)) : list (K * V) :=
  match d with
  | [] => [(k, f d0)]
  | (k', v) :: d' =>
      if keyb k k' then (k', f v) :: d' else (k', v) :: dict_update k d0 f d'
  end.

Fixpoint dict_get {K V : Type} `{Key K} (k : K) (d : list (K * V)) : option V :=
  match d with
  | [] => None
  | (k', v) :: d' => if keyb k k' then Some v else dict_get k d'
  end.

(** The value that [d[k] = f(d[k])] starts from. *)
Definition current {K V : Type} `{Key K} (d0 : V) (k : K) (d : list (K * V))
    : V :=
  match dict_get k d with
  | Some v => v
  | None => d0
  end.

(** The value under a key that may be missing from a [defaultdict] whose
    factory returns [d0]. *)
Definition value {V : Type} (d0 : V) (o : option V) : V :=
  match o with
  | Some v => v
  | None => d0
  end.

(** What one more item makes of the value under its key. *)
Definition grow {A V : Type} (d0 : V) (step : A -> V -> V) (o : option V)
    (item : A) : option V :=
  Some (step item (value d0 o)).

(** Whether the loop files [item] under the key [k]. *)
Definition has_key {A K : Type} `{Key K} (keyf : A -> option K) (k : K)
    (item : A) : bool :=
  match keyf item with
  | Some k' => keyb k k'
  | None => false
  end.

(** Whether the loop files [item] at all. *)
Definition filed {A K : Type} (keyf : A -> option K) (item : A) : bool :=
  match keyf item with
  | Some _ => true
  | None => false
  end.

(** The keys under which the loop files the items of [data], one per filed
    item, in the order of the items. *)
Definition filed_keys {A K : Type} (keyf : A -> option K) (data : list A)
    : list K :=
  flat_map (fun item => match keyf item with
                        | Some k => [k]
                        | None => []
                        end) data.

(** [sum(l)]. *)
Definition sum (l : list Z) : Z := fold_left Z.add l 0.

Fixpoint mem {K : Type} `{Key K} (k : K) (s : list K) : bool :=
  match s with
  | [] => false
  | k' :: s' => keyb k k' || mem k s'
  end.

(** [s.add(k)]. *)
Definition set_add {K : Type} `{Key K} (k : K) (s : list K) : list K :=
  if mem k s then s else s ++ [k].

(** The distinct members of [l] in the order of their first appearance. *)
Fixpoint first_seen {K : Type} `{Key K} (l : list K) : list K :=
  match l with
  | [] => []
  | x :: l' => x :: filter (fun y => negb (keyb y x)) (first_seen l')
  end.

(** [sorted] is stable: among equal keys the input order is kept, also with
    [reverse=True].  [insert_by before x l] puts [x], which came earlier in
    the input than all of [l], behind the elements that go strictly before
    it. *)
Fixpoint insert_by {A : Type} (before : A -> A -> bool) (x : A) (l : list A)
    : list A :=
  match l with
  | [] => [x]
  | y :: l' => if before y x then y :: insert_by before x l' else x :: y :: l'
  end.

(** [sorted(l, key=key, reverse=True)]. *)
Definition sorted_desc {A : Type} (key : A -> Z) (l : list A) : list A :=
  fold_right (insert_by (fun y x => key x <? key y)) [] l.

(** [l] is in descending order of [key], ties allowed. *)
Definition descending {A : Type} (key : A -> Z) (l : list A) : Prop :=
  StronglySorted (fun a b => key b <= key a) l.

(** [l] is in strictly descending order of [key]. *)
Definition strictly_descending {A : Type} (key : A -> Z) (l : list A) : Prop :=
  StronglySorted (fun a b => key b < key a) l.

(** [sorted(l, key=key)]. *)
Definition sorted_asc {A : Type} (key : A -> Z) (l : list A) : list A :=
  fold_right (insert_by (fun y x => key y <? key x)) [] l.

(** [a < b] on two floats. *)
Definition ltb (a b : Q) : bool :=
  match Qcompare a b with
  | Lt => true
  | _ => false
  end.

(** [max(l, key=key)] on a non-empty list [x :: l]: the first maximal
    element. *)
Definition max_by {A : Type} (key : A -> Q) (x : A) (l : list A) : A :=
  fold_left (fun best y => if ltb (key best) (key y) then y else best)
            l x.

(** [min(l)] and [max(l)] of a list of ints raise [ValueError] on []. *)
Definition min_list (l : list Z) : res Z :=
  match l with
  | [] => Raise ValueError
  | x :: l' => Ok (fold_left Z.min l' x)
  end.

Definition max_list (l : list Z) : res Z :=
  match l with
  | [] => Raise ValueError
  | x :: l' => Ok (fold_left Z.max l' x)
  end.

End Py.

Import Py.

Notation "x <- m ;; k" := (bind m (fun x => k))
  (at level 61, m at next level, right associativity).

(** ** Play events *)

(** A key of a JSON object: absent, [null], or a value. *)
Inductive jfield (A : Type) : Type :=
| Absent
| Null
| Val (a : A).

Arguments Absent {A}.
Arguments Null {A}.
Arguments Val {A} a.

(** [item.get(k)]: [None] for an absent key and for [null]. *)
Definition get {A : Type} (f : jfield A) : option A :=
  match f with
  | Val a => Some a
  | _ => None
  end.

(** [item.get(k, d)]: the default stands in for an absent key only. *)
Definition get_default {A : Type} (f : jfield A) (d : A) : option A :=
  match f with
  | Absent => Some d
  | Null => None
  | Val a => Some a
  end.

(** One row of the streaming history.  [ms_played] is an integer whenever the
    key is there (section 3 of the specification); the other keys are
    nullable. *)
Record event : Type := {
  ts : jfield string;
  ms_played : option Z;
  spotify_track_uri : jfield string;
  master_metadata_track_name : jfield string;
  master_metadata_album_artist_name : jfield string;
  master_metadata_album_album_name : jfield string;
  skipped : jfield bool;
  reason_end : jfield string
}.

(** [item.get("ms_played", 0)]. *)
Definition ms_of (item : event) : Z :=
  match ms_played item with
  | Some n => n
  | None => 0
  end.

(** The truth test [if s:] on a string that may be [None]: [None] and the
    empty string fail it. *)
Definition truthy (o : option string) : option string :=
  match o with
  | Some s => if (s =? "")%string then None else Some s
  | None => None
  end.

(** Whether an event passes the guard [if ts:] of the metrics that read the
    time: its timestamp is neither absent, nor [null], nor empty. *)
Definition has_timestamp (item : event) : bool :=
  match truthy (get (ts item)) with
  | Some _ => true
  | None => false
  end.


(** The fields of an aware [datetime] that the metrics read; [weekday] is
    [datetime.weekday()], 0 for Monday to 6 for Sunday. *)
Record datetime : Type := {
  year : Z;
  month : Z;
  day : Z;
  hour : Z;
  weekday : Z
}.

(** [dt.date()]. *)
Definition date (dt : datetime) : Z * Z * Z := (year dt, month dt, day dt).

(** [str(n)] on an int. *)
Definition str (n : Z) : string := NilZero.string_of_int (Z.to_int n).

(** ** The metrics calculator: [scripts/generate_data.py] *)

Definition BIRTHDAY : Z * Z := (4, 6).

Definition MEXICAN_HOLIDAYS : list ((Z * Z) * string) :=
  [ ((1, 1), "Año Nuevo");
    ((2, 5), "Día de la Constitución");
    ((3, 21), "Natalicio de Benito Juárez");
    ((5, 1), "Día del Trabajo");
    ((5, 5), "Cinco de Mayo");
    ((9, 16), "Día de la Independencia");
    ((11, 2), "Día de los Muertos");
    ((11, 20), "Revolución Mexicana");
    ((12, 25), "Navidad") ]%string.

Record overview : Type := {
  ov_total_plays : Z;
  ov_total_minutes : Z;
  ov_total_hours : Q;
  ov_total_days : Q;
  ov_unique_artists : Z;
  ov_unique_tracks : Z
}.

(** [sum(item.get("ms_played", 0) for item in data)]. *)
Definition total_ms (data : list event) : Z :=
  fold_left (fun acc item => acc + ms_of item) data 0.

(** The two sets that the loop of [calculate_overview] fills. *)
Definition overview_sets (data : list event) : list string * list string :=
  fold_left
    (fun (st : list string * list string) item =>
       let artists :=
         match truthy (get (master_metadata_album_artist_name item)) with
         | Some a => set_add a (fst st)
         | None => fst st
         end in
       let tracks :=
         match truthy (get (spotify_track_uri item)) with
         | Some u => set_add u (snd st)
         | None => snd st
         end in
       (artists, tracks))
    data ([], []).

Definition calculate_overview (data : list event) : overview :=
  let ms := total_ms data in
  let sets := overview_sets data in
  {| ov_total_plays := len data;
     ov_total_minutes := round (inject_Z ms / 60000);
     ov_total_hours := round_to 1 (inject_Z ms / 3600000);
     ov_total_days := round_to 1 (inject_Z ms / 86400000);
     ov_unique_artists := len (fst sets);
     ov_unique_tracks := len (snd sets) |}.

(** The values of a key that pass the truth test [if item.get(k):]. *)
Definition truthy_values (fields : list (jfield string)) : list string :=
  flat_map (fun f => match truthy (get f) with
                     | Some s => [s]
                     | None => []
                     end) fields.

(** The values of a key that are there and not [null]. *)
Definition non_null_values (fields : list (jfield string)) : list string :=
  flat_map (fun f => match get f with
                     | Some s => [s]
                     | None => []
                     end) fields.

(** The number of distinct strings of a list. *)
Definition distinct (l : list string) : Z := len (nodup string_dec l).

(** The value of [artist_time[artist]]. *)
Record time_stats : Type := {
  ms : Z;
  plays : Z
}.

Record artist_entry : Type := {
  ta_artist : string;
  ta_minutes : Z;
  ta_hours : Q;
  ta_plays : Z;
  ta_pct : Z
}.

Definition time_default : time_stats := {| ms := 0; plays := 0 |}.

(** The two additions to an entry of a dict of [{"ms": 0, "plays": 0}]. *)
Definition time_step (item : event) (s : time_stats) : time_stats :=
  {| ms := ms s + ms_of item; plays := plays s + 1 |}.

(** The guard [if artist:]. *)
Definition artist_of (item : event) : option string :=
  truthy (get (master_metadata_album_artist_name item)).

(** The dict [artist_time] after the loop of [calculate_top_artists]. *)
Definition artist_time (data : list event) : list (string * time_stats) :=
  fold_left
    (fun d item =>
       match artist_of item with
       | Some artist => dict_update artist time_default (time_step item) d
       | None => d
       end)
    data [].

(** The milliseconds that a list of events adds up to. *)
Definition listened (group : list event) : Z := sum (map ms_of group).

(** The events of [data] filed under [artist]. *)
Definition plays_by (artist : string) (data : list event) : list event :=
  filter (has_key artist_of artist) data.

(** The local [top] of [calculate_top_artists]. *)
Definition top_artists_ranked (data : list event) (limit : nat)
    : list (string * time_stats) :=
  firstn limit (sorted_desc (fun x => ms (snd x)) (artist_time data)).

(** [round(stats["ms"] / max_ms * 100)]. *)
Definition pct_of (ms_ max_ms : Z) : res Z :=
  q <- truediv ms_ max_ms ;; Ok (round (q * 100)).

Definition calculate_top_artists (data : list event) (limit : nat)
    : res (list artist_entry) :=
  let top := top_artists_ranked data limit in
  let max_ms := match top with
                | x :: _ => ms (snd x)
                | [] => 1
                end in
  comprehension
    (fun x : string * time_stats =>
       let (artist, stats) := x in
       pct <- pct_of (ms stats) max_ms ;;
       Ok {| ta_artist := artist;
             ta_minutes := round (inject_Z (ms stats) / 60000);
             ta_hours := round_to 1 (inject_Z (ms stats) / 3600000);
             ta_plays := plays stats;
             ta_pct := pct |})
    top.

(** The value of [track_time[key]]. *)
Record track_stats : Type := {
  tk_ms : Z;
  tk_plays : Z;
  tk_artist : string;
  tk_name : string
}.

Record track_entry : Type := {
  tt_track : string;
  tt_artist : string;
  tt_minutes : Z;
  tt_hours : Q;
  tt_plays : Z;
  tt_pct : Z
}.

(** [f"{track}|||{artist}"]. *)
Definition track_key (track artist : string) : string :=
  (track ++ "|||" ++ artist)%string.

(** The guard [if track and artist:], with the two names it lets through. *)
Definition pair_names (item : event) : option (string * string) :=
  match truthy (get (master_metadata_track_name item)),
        truthy (get (master_metadata_album_artist_name item)) with
  | Some track, Some artist => Some (track, artist)
  | _, _ => None
  end.

(** The key under which an event is filed, if it is. *)
Definition pair_key (item : event) : option string :=
  match pair_names item with
  | Some (track, artist) => Some (track_key track artist)
  | None => None
  end.

(** The events of [data] filed under the key of the pair [(track, artist)]. *)
Definition plays_of (track artist : string) (data : list event) : list event :=
  filter (has_key pair_key (track_key track artist)) data.

Definition track_time_default : track_stats :=
  {| tk_ms := 0; tk_plays := 0; tk_artist := ""; tk_name := "" |}.

(** The four assignments to [track_time[key]]. *)
Definition track_time_step (item : event) (s : track_stats) : track_stats :=
  match pair_names item with
  | Some (track, artist) =>
      {| tk_ms := tk_ms s + ms_of item;
         tk_plays := tk_plays s + 1;
         tk_artist := artist;
         tk_name := track |}
  | None => s
  end.

(** The dict [track_time] after the loop of [calculate_top_tracks]. *)
Definition track_time (data : list event) : list (string * track_stats) :=
  fold_left
    (fun d item =>
       match pair_key item with
       | Some key => dict_update key track_time_default (track_time_step item) d
       | None => d
       end)
    data [].

(** The local [top] of [calculate_top_tracks]. *)
Definition top_tracks_ranked (data : list event) (limit : nat)
    : list (string * track_stats) :=
  firstn limit (sorted_desc (fun x => tk_ms (snd x)) (track_time data)).

Definition calculate_top_tracks (data : list event) (limit : nat)
    : res (list track_entry) :=
  let top := top_tracks_ranked data limit in
  let max_ms := match top with
                | x :: _ => tk_ms (snd x)
                | [] => 1
                end in
  comprehension
    (fun x : string * track_stats =>
       let stats := snd x in
       pct <- pct_of (tk_ms stats) max_ms ;;
       Ok {| tt_track := tk_name stats;
             tt_artist := tk_artist stats;
             tt_minutes := round (inject_Z (tk_ms stats) / 60000);
             tt_hours := round_to 1 (inject_Z (tk_ms stats) / 3600000);
             tt_plays := tk_plays stats;
             tt_pct := pct |})
    top.

Record heat_cell : Type := {
  hc_month : Z;
  hc_hour : Z;
  hc_plays : Z
}.

Record weekday_cell : Type := {
  wc_month : Z;
  wc_weekday : Z;
  wc_hour : Z;
  wc_plays : Z
}.

Record day_cell : Type := {
  dc_month : Z;
  dc_day : Z;
  dc_hour : Z;
  dc_plays : Z
}.

Record hour_row : Type := {
  hr_hour : Z;
  hr_plays : Z;
  hr_minutes : Z
}.

(** One of the two accumulators of [calculate_weekday_vs_weekend]. *)
Record bucket : Type := {
  b_plays : Z;
  b_ms : Z;
  b_artists : list string;
  b_days : list (Z * Z * Z)
}.

Record artist_minutes : Type := {
  am_artist : string;
  am_minutes : Z
}.

Record bucket_report : Type := {
  br_total_hours : Q;
  br_total_plays : Z;
  br_days_count : Z;
  br_avg_hours_per_day : Q;
  br_avg_plays_per_day : Q;
  br_unique_artists : Z;
  br_top_artists : list artist_minutes
}.

Record week_report : Type := {
  wr_weekday : bucket_report;
  wr_weekend : bucket_report
}.

(** The four accumulators that the loop of [calculate_weekday_vs_weekend]
    threads. *)
Record week_state : Type := {
  ws_weekday : bucket;
  ws_weekend : bucket;
  ws_weekday_artists : list (string * Z);
  ws_weekend_artists : list (string * Z)
}.

(** The value of [track_stats[key]] in [calculate_skipped_tracks]. *)
Record skip_stats : Type := {
  sk_total_plays : Z;
  sk_skipped : Z;
  sk_name : string;
  sk_artist : string
}.

Record skip_entry : Type := {
  se_track : string;
  se_artist : string;
  se_total_plays : Z;
  se_skipped : Z;
  se_skip_rate : Z
}.

(** A row of [result] in [calculate_monthly_trend] before the deltas. *)
Record month_row : Type := {
  mr_month : Z;
  mr_month_name : string;
  mr_plays : Z;
  mr_hours : Q
}.

(** A row once the second loop has set [delta] and [delta_pct]. *)
Record delta_row : Type := {
  dr_row : month_row;
  dr_delta : Q;
  dr_delta_pct : Z
}.

Record trend_entry : Type := {
  mt_month : Z;
  mt_month_name : string;
  mt_plays : Z;
  mt_hours : Q;
  mt_delta : Q;
  mt_delta_pct : Z;
  mt_is_peak : bool;
  mt_is_inflection : bool
}.

Record special_entry : Type := {
  sp_date : string;
  sp_plays : Z;
  sp_minutes : Z
}.

Record peak_info : Type := {
  peak_hour : Z;
  top_hours : list Z;
  description : string
}.

Definition month_names : list string :=
  [ ""; "Ene"; "Feb"; "Mar"; "Abr"; "May"; "Jun";
    "Jul"; "Ago"; "Sep"; "Oct"; "Nov"; "Dic" ]%string.

(** [truthy_bool] is the truth test on [item.get("skipped", False)]. *)
Definition truthy_bool (o : option bool) : bool :=
  match o with
  | Some b => b
  | None => false
  end.

(** [reason_end in ["fwdbtn", "backbtn"]]. *)
Definition is_button (o : option string) : bool :=
  match o with
  | Some s => (s =? "fwdbtn")%string || (s =? "backbtn")%string
  | None => false
  end.

(** The test that makes an event count as skipped. *)
Definition counts_as_skip (item : event) : bool :=
  truthy_bool (get_default (skipped item) false)
  || is_button (get_default (reason_end item) ""%string).

Definition skip_default : skip_stats :=
  {| sk_total_plays := 0; sk_skipped := 0; sk_name := ""; sk_artist := "" |}.

(** The assignments to [track_stats[key]] in the body of the loop. *)
Definition skip_step (item : event) (s : skip_stats) : skip_stats :=
  match pair_names item with
  | Some (track, artist) =>
      {| sk_total_plays := sk_total_plays s + 1;
         sk_skipped := if counts_as_skip item
                       then sk_skipped s + 1
                       else sk_skipped s;
         sk_name := track;
         sk_artist := artist |}
  | None => s
  end.

(** The dict [track_stats] after the loop of [calculate_skipped_tracks]. *)
Definition skip_table (data : list event) : list (string * skip_stats) :=
  fold_left
    (fun d item =>
       match pair_key item with
       | Some key => dict_update key skip_default (skip_step item) d
       | None => d
       end)
    data [].

(** [stats["skipped"] / stats["total_plays"]], the float nearest to the
    quotient of the two ints; every entry of the table has at least one play
    (lemma [skip_table_entry]), so the division never raises. *)
Definition skip_rate_of (stats : skip_stats) : Q :=
  binary64 (inject_Z (sk_skipped stats) / inject_Z (sk_total_plays stats)).

(** The list [candidates] of [calculate_skipped_tracks]: the literal [0.3] is
    the float nearest to three tenths, and [skip_rate * 100] is a float
    product. *)
Definition skip_candidates (min_plays : Z) (table : list (string * skip_stats))
    : list skip_entry :=
  fold_left
    (fun candidates kv =>
       let stats := snd kv in
       if min_plays <=? sk_total_plays stats then
         let skip_rate := skip_rate_of stats in
         if ltb (binary64 (3 # 10)) skip_rate then
           candidates ++
           [ {| se_track := sk_name stats;
                se_artist := sk_artist stats;
                se_total_plays := sk_total_plays stats;
                se_skipped := sk_skipped stats;
                se_skip_rate := round (binary64 (skip_rate * 100)) |} ]
         else candidates
       else candidates)
    table [].

Definition calculate_skipped_tracks (data : list event) (min_plays : Z)
    (limit : nat) : list skip_entry :=
  firstn limit
    (sorted_desc se_skip_rate (skip_candidates min_plays (skip_table data))).

Section TimeMetrics.

(** [utc_to_pacific] is [datetime.fromisoformat] followed by [astimezone] of
    the standard library; the metrics are embedded over any such conversion
    of an ISO-8601 string. *)
Variable utc_to_pacific : string -> datetime.

(** The guard [ts = item.get("ts"); if ts:] followed by the conversion. *)
Definition pacific_of (item : event) : option datetime :=
  match truthy (get (ts item)) with
  | Some s => Some (utc_to_pacific s)
  | None => None
  end.

(** The key of its local time under which a loop files an event. *)
Definition local_key {K : Type} (by_ : datetime -> K) (item : event)
    : option K :=
  option_map by_ (pacific_of item).

(** The events of [data] whose local time has the key [k]. *)
Definition filed_at {K : Type} `{Key K} (by_ : datetime -> K) (k : K)
    (data : list event) : list event :=
  filter (has_key (local_key by_) k) data.

(** A [defaultdict(int)] counting the events by a key of their local time. *)
Definition count_by {K : Type} `{Key K} (key : datetime -> K)
    (data : list event) : list (K * Z) :=
  fold_left
    (fun d item =>
       match pacific_of item with
       | Some dt => dict_update (key dt) 0 (fun n => n + 1) d
       | None => d
       end)
    data [].

Definition calculate_hourly_heatmap (data : list event) : list heat_cell :=
  map (fun kv : Z * Z * Z =>
         {| hc_month := fst (fst kv); hc_hour := snd (fst kv);
            hc_plays := snd kv |})
      (count_by (fun dt => (month dt, hour dt)) data).

Definition calculate_weekday_hour_heatmap (data : list event)
    : list weekday_cell :=
  map (fun kv : Z * Z * Z * Z =>
         {| wc_month := fst (fst (fst kv)); wc_weekday := snd (fst (fst kv));
            wc_hour := snd (fst kv); wc_plays := snd kv |})
      (count_by (fun dt => (month dt, weekday dt, hour dt)) data).

Definition calculate_day_hour_heatmap (data : list event) : list day_cell :=
  map (fun kv : Z * Z * Z * Z =>
         {| dc_month := fst (fst (fst kv)); dc_day := snd (fst (fst kv));
            dc_hour := snd (fst kv); dc_plays := snd kv |})
      (count_by (fun dt => (month dt, day dt, hour dt)) data).

(** A [defaultdict] of [{"plays": 0, "ms": 0}] filled by a key of the local
    time: the loops of [calculate_hourly_distribution],
    [calculate_monthly_trend] and [calculate_special_days]. *)
Definition stats_by {K : Type} `{Key K} (key : datetime -> K)
    (data : list event) : list (K * time_stats) :=
  fold_left
    (fun d item =>
       match pacific_of item with
       | Some dt => dict_update (key dt) time_default (time_step item) d
       | None => d
       end)
    data [].

(** In [calculate_hourly_distribution] and [calculate_monthly_trend] the loop
    adds to ["plays"] before ["ms"]; both are sums, so the record is the
    same. [sorted(d.items())] orders by the key, the keys of a dict being
    distinct. *)
Definition calculate_hourly_distribution (data : list event) : list hour_row :=
  map (fun kv : Z * time_stats =>
         {| hr_hour := fst kv; hr_plays := plays (snd kv);
            hr_minutes := round (inject_Z (ms (snd kv)) / 60000) |})
      (sorted_asc fst (stats_by hour data)).

Definition week_step (st : week_state) (item : event) : week_state :=
  match pacific_of item with
  | Some dt =>
      let artist := truthy (get (master_metadata_album_artist_name item)) in
      let date_key := date dt in
      let is_weekend := 5 <=? weekday dt in
      let fill (b : bucket) : bucket :=
        {| b_plays := b_plays b + 1;
           b_ms := b_ms b + ms_of item;
           b_artists := match artist with
                        | Some a => set_add a (b_artists b)
                        | None => b_artists b
                        end;
           b_days := set_add date_key (b_days b) |} in
      let tally (d : list (string * Z)) : list (string * Z) :=
        match artist with
        | Some a => dict_update a 0 (fun n => n + ms_of item) d
        | None => d
        end in
      if is_weekend then
        {| ws_weekday := ws_weekday st;
           ws_weekend := fill (ws_weekend st);
           ws_weekday_artists := ws_weekday_artists st;
           ws_weekend_artists := tally (ws_weekend_artists st) |}
      else
        {| ws_weekday := fill (ws_weekday st);
           ws_weekend := ws_weekend st;
           ws_weekday_artists := tally (ws_weekday_artists st);
           ws_weekend_artists := ws_weekend_artists st |}
  | None => st
  end.

(** Whether the loop of [calculate_weekday_vs_weekend] puts an event in the
    weekend bucket, and whether it puts it in the weekday bucket. *)
Definition in_weekend (item : event) : bool :=
  match pacific_of item with
  | Some dt => 5 <=? weekday dt
  | None => false
  end.

Definition in_week (item : event) : bool :=
  match pacific_of item with
  | Some dt => negb (5 <=? weekday dt)
  | None => false
  end.

(** What the body of the loop makes of the bucket that it picks. *)
Definition fill_bucket (b : bucket) (item : event) : bucket :=
  match pacific_of item with
  | Some dt =>
      {| b_plays := b_plays b + 1;
         b_ms := b_ms b + ms_of item;
         b_artists := match artist_of item with
                      | Some a => set_add a (b_artists b)
                      | None => b_artists b
                      end;
         b_days := set_add (date dt) (b_days b) |}
  | None => b
  end.

(** The local dates of the events that have a timestamp. *)
Definition local_dates (data : list event) : list (Z * Z * Z) :=
  flat_map (fun item => match pacific_of item with
                        | Some dt => [date dt]
                        | None => []
                        end) data.

Definition empty_bucket : bucket :=
  {| b_plays := 0; b_ms := 0; b_artists := []; b_days := [] |}.

Definition week_loop (data : list event) : week_state :=
  fold_left week_step data
    {| ws_weekday := empty_bucket; ws_weekend := empty_bucket;
       ws_weekday_artists := []; ws_weekend_artists := [] |}.

Definition report_bucket (b : bucket) (artists : list (string * Z))
    : bucket_report :=
  let days := or_int (len (b_days b)) 1 in
  let top := firstn 3 (sorted_desc snd artists) in
  {| br_total_hours := round_to 1 (inject_Z (b_ms b) / 3600000);
     br_total_plays := b_plays b;
     br_days_count := days;
     br_avg_hours_per_day :=
       round_to 2 (inject_Z (b_ms b) / 3600000 / inject_Z days);
     br_avg_plays_per_day := round_to 1 (inject_Z (b_plays b) / inject_Z days);
     br_unique_artists := len (b_artists b);
     br_top_artists :=
       map (fun am : string * Z =>
              {| am_artist := fst am;
                 am_minutes := round (inject_Z (snd am) / 60000) |})
           top |}.

Definition calculate_weekday_vs_weekend (data : list event) : week_report :=
  let st := week_loop data in
  {| wr_weekday := report_bucket (ws_weekday st) (ws_weekday_artists st);
     wr_weekend := report_bucket (ws_weekend st) (ws_weekend_artists st) |}.

(** The comprehension that builds [result] in [calculate_monthly_trend].
    [month_names[m]] is in range, a month being 1 to 12. *)
Definition month_rows (data : list event) : list month_row :=
  map (fun kv : Z * time_stats =>
         {| mr_month := fst kv;
            mr_month_name := nth (Z.to_nat (fst kv)) month_names ""%string;
            mr_plays := plays (snd kv);
            mr_hours := round_to 1 (inject_Z (ms (snd kv)) / 3600000) |})
      (sorted_asc fst (stats_by month data)).

(** The loop [for i, r in enumerate(result)]: [prev] is
    [result[i - 1]["hours"]], absent at [i = 0]. *)
Fixpoint with_deltas (prev : option Q) (rows : list month_row)
    : list delta_row :=
  match rows with
  | [] => []
  | r :: rows' =>
      match prev with
      | None => {| dr_row := r; dr_delta := 0; dr_delta_pct := 0 |}
      | Some prev_hours =>
          {| dr_row := r;
             dr_delta := round_to 1 (mr_hours r - prev_hours);
             dr_delta_pct :=
               if ltb 0 prev_hours
               then round ((mr_hours r - prev_hours) / prev_hours * 100)
               else 0 |}
      end :: with_deltas (Some (mr_hours r)) rows'
  end.

(** The block [if result:], which marks the peak and the inflection month. *)
Definition mark_months (rows : list delta_row) : list trend_entry :=
  match rows with
  | [] => []
  | r0 :: rest =>
      let max_month := max_by (fun r => mr_hours (dr_row r)) r0 rest in
      let max_delta_month := max_by dr_delta r0 rest in
      map (fun r =>
             {| mt_month := mr_month (dr_row r);
                mt_month_name := mr_month_name (dr_row r);
                mt_plays := mr_plays (dr_row r);
                mt_hours := mr_hours (dr_row r);
                mt_delta := dr_delta r;
                mt_delta_pct := dr_delta_pct r;
                mt_is_peak :=
                  mr_month (dr_row r) =? mr_month (dr_row max_month);
                mt_is_inflection :=
                  mr_month (dr_row r) =? mr_month (dr_row max_delta_month) |})
          rows
  end.

Definition calculate_monthly_trend (data : list event) : list trend_entry :=
  mark_months (with_deltas None (month_rows data)).

Definition special_of (date : string) (stats : time_stats) : special_entry :=
  {| sp_date := date;
     sp_plays := plays stats;
     sp_minutes := round (inject_Z (ms stats) / 60000) |}.

(** The result dict of [calculate_special_days], in insertion order; the
    keys it inserts are distinct, so each insertion appends. *)
Definition calculate_special_days (data : list event)
    : list (string * special_entry) :=
  let daily_stats := stats_by (fun dt => (month dt, day dt)) data in
  let special :=
    match dict_get BIRTHDAY daily_stats with
    | Some stats => [("birthday"%string, special_of "6 de abril" stats)]
    | None => []
    end in
  fold_left
    (fun special (holiday : (Z * Z) * string) =>
       let (date, name) := holiday in
       match dict_get date daily_stats with
       | Some stats =>
           special ++
           [(("mx_" ++ str (fst date) ++ "_" ++ str (snd date))%string,
             special_of name stats)]
       | None => special
       end)
    MEXICAN_HOLIDAYS special.

Definition find_peak_hours (data : list event) : res peak_info :=
  let hours := count_by hour data in
  let sorted_hours := sorted_desc snd hours in
  let peak_hour := match sorted_hours with
                   | x :: _ => fst x
                   | [] => 0
                   end in
  let top_hours := map fst (firstn 5 sorted_hours) in
  lo <- min_list top_hours ;;
  hi <- max_list top_hours ;;
  Ok {| peak_hour := peak_hour;
        top_hours := sorted_asc (fun h => h) top_hours;
        description :=
          ("Más activo entre las " ++ str lo ++ ":00 y " ++ str hi ++ ":00")
            %string |}.

Record metadata : Type := {
  md_timezone : string;
  md_data_source : string;
  md_skip_definition : string;
  md_min_plays_for_skip_rate : Z
}.

Record dashboard : Type := {
  d_overview : overview;
  d_top_artists : list artist_entry;
  d_top_tracks : list track_entry;
  d_hourly_heatmap : list heat_cell;
  d_weekday_hour_heatmap : list weekday_cell;
  d_day_hour_heatmap : list day_cell;
  d_hourly_distribution : list hour_row;
  d_weekday_vs_weekend : week_report;
  d_skipped_tracks : list skip_entry;
  d_monthly_trend : list trend_entry;
  d_special_days : list (string * special_entry);
  d_peak_hours : peak_info;
  d_metadata : metadata
}.

(** The dict literal [dashboard_data] of [main]: [find_peak_hours] runs
    first, then the entries in the order written. *)
Definition dashboard_data (data : list event) : res dashboard :=
  peak_info <- find_peak_hours data ;;
  top_artists <- calculate_top_artists data 5 ;;
  top_tracks <- calculate_top_tracks data 5 ;;
  Ok {| d_overview := calculate_overview data;
        d_top_artists := top_artists;
        d_top_tracks := top_tracks;
        d_hourly_heatmap := calculate_hourly_heatmap data;
        d_weekday_hour_heatmap := calculate_weekday_hour_heatmap data;
        d_day_hour_heatmap := calculate_day_hour_heatmap data;
        d_hourly_distribution := calculate_hourly_distribution data;
        d_weekday_vs_weekend := calculate_weekday_vs_weekend data;
        d_skipped_tracks := calculate_skipped_tracks data 10 10;
        d_monthly_trend := calculate_monthly_trend data;
        d_special_days := calculate_special_days data;
        d_peak_hours := peak_info;
        d_metadata :=
          {| md_timezone := "America/Los_Angeles (Pacific Time)";
             md_data_source := "Spotify Extended Streaming History";
             md_skip_definition :=
               "Canción marcada como 'skipped' o terminada con 'fwdbtn'/'backbtn'";
             md_min_plays_for_skip_rate := 10 |} |}.

(** What a path of the file system holds: the parsed history, or a report
    written by [json.dump]. *)
Inductive file : Type :=
| History (data : list event)
| Report (d : dashboard).

Definition filesystem : Type := string -> option file.

Definition DATA_FILE : string := "data/streaming_history_2025.json".
Definition OUTPUT_FILE : string := "data/spotify-2025.json".

(** [open(path, "w")] followed by [json.dump]. *)
Definition write (path : string) (f : file) (fs : filesystem) : filesystem :=
  fun p => if (p =? path)%string then Some f else fs p.

(** [load_data]: a missing file raises; a file that holds no history is no
    input of the job and is taken as a decoding error. *)
Definition load_data (fs : filesystem) : res (list event) :=
  match fs DATA_FILE with
  | Some (History data) => Ok data
  | Some (Report _) => Raise ValueError
  | None => Raise FileNotFoundError
  end.

(** [main], without its progress lines on standard output. *)
Definition main (fs : filesystem) : res filesystem :=
  data <- load_data fs ;;
  d <- dashboard_data data ;;
  Ok (write OUTPUT_FILE (Report d) fs).

End TimeMetrics.

(** ** The metadata enricher: [scripts/fetch_spotify_metadata.py] *)

Module Fetch.

(** The value of [tracks[track_id]]; a name is [None] when the history has
    [null] for it. *)
Record track_stat : Type := {
  st_ms_played : Z;
  st_play_count : Z;
  st_track_name : option string;
  st_artist_name : option string;
  st_album_name : option string
}.

(** [s.split(sep)] for a one-character separator. *)
Fixpoint split (sep : ascii) (s : string) : list string :=
  match s with
  | EmptyString => [EmptyString]
  | String c s' =>
      if Ascii.eqb c sep then EmptyString :: split sep s'
      else match split sep s' with
           | w :: ws => String c w :: ws
           | [] => [String c EmptyString]
           end
  end.

(** The identifier under which an event is tallied: [None] when the loop
    skips the event, else [uri.split(":")[-1]]. *)
Definition track_id_of (item : event) : option string :=
  match truthy (get (spotify_track_uri item)) with
  | Some uri =>
      if prefix "spotify:track:" uri
      then Some (last (split ":" uri) EmptyString)
      else None
  | None => None
  end.

Definition stat_default : track_stat :=
  {| st_ms_played := 0; st_play_count := 0;
     st_track_name := Some ""%string;
     st_artist_name := Some ""%string;
     st_album_name := Some ""%string |}.

(** The five assignments to [tracks[track_id]]. *)
Definition stat_step (item : event) (s : track_stat) : track_stat :=
  {| st_ms_played := st_ms_played s + ms_of item;
     st_play_count := st_play_count s + 1;
     st_track_name := get_default (master_metadata_track_name item) ""%string;
     st_artist_name :=
       get_default (master_metadata_album_artist_name item) ""%string;
     st_album_name :=
       get_default (master_metadata_album_album_name item) ""%string |}.

Definition extract_unique_tracks (history : list event)
    : list (string * track_stat) :=
  fold_left
    (fun tracks item =>
       match track_id_of item with
       | Some track_id => dict_update track_id stat_default (stat_step item) tracks
       | None => tracks
       end)
    history [].

(** The two sums of an aggregated track stat. *)
Definition tally (s : track_stat) : Z * Z := (st_ms_played s, st_play_count s).

(** [",".join(l)]. *)
Fixpoint join (sep : string) (l : list string) : string :=
  match l with
  | [] => EmptyString
  | [x] => x
  | x :: l' => (x ++ sep ++ join sep l')%string
  end.

Section Catalog.

(** A record object of the catalog service. *)
Variable record : Type.

(** The decoded body of a response. A key holds a list whose entries are
    records or [null]. *)
Record json_body : Type := {
  body_tracks : option (list (option record));
  body_artists : option (list (option record))
}.

Record response : Type := {
  status_code : Z;
  json : res json_body
}.

(** A [requests.get] call: [ids] is the list that the ["ids"] parameter
    joins with commas. *)
Record request : Type := {
  url : string;
  ids : list string;
  headers : list (string * string)
}.

Definition ids_param (r : request) : string := join "," (ids r).

(** The request that [fetch_tracks_batch] sends for [track_ids]. *)
Definition tracks_request (track_ids : list string)
    (headers_ : list (string * string)) : request :=
  {| url := "https://api.spotify.com/v1/tracks";
     ids := firstn 50 track_ids;
     headers := headers_ |}.

(** The request that [fetch_artists_batch] sends for [artist_ids]. *)
Definition artists_request (artist_ids : list string)
    (headers_ : list (string * string)) : request :=
  {| url := "https://api.spotify.com/v1/artists";
     ids := firstn 50 artist_ids;
     headers := headers_ |}.

(** What a run leaves behind: the requests issued, oldest first, and the
    lines printed. *)
Record world : Type := {
  requests : list request;
  stdout : list string
}.

(** The catalog service answers a request knowing the requests before it. *)
Variable service : list request -> request -> response.

Definition io (A : Type) : Type := world -> res A * world.

Definition ret {A : Type} (a : A) : io A := fun w => (Ok a, w).

Definition io_bind {A B : Type} (m : io A) (k : A -> io B) : io B :=
  fun w =>
    match m w with
    | (Ok a, w') => k a w'
    | (Raise e, w') => (Raise e, w')
    end.

Definition lift {A : Type} (r : res A) : io A := fun w => (r, w).

Definition print (line : string) : io unit :=
  fun w => (Ok tt, {| requests := requests w; stdout := stdout w ++ [line] |}).

Definition requests_get (url_ : string) (ids_ : list string)
    (headers_ : list (string * string)) : io response :=
  fun w =>
    let r := {| url := url_; ids := ids_; headers := headers_ |} in
    (Ok (service (requests w) r),
     {| requests := requests w ++ [r]; stdout := stdout w |}).

Notation "x <~ m ;; k" := (io_bind m (fun x => k))
  (at level 61, m at next level, right associativity).

Definition fetch_tracks_batch (track_ids : list string)
    (headers_ : list (string * string)) : io (list (option record)) :=
  match track_ids with
  | [] => ret []
  | _ =>
      response <~ requests_get "https://api.spotify.com/v1/tracks"
                    (firstn 50 track_ids) headers_ ;;
      if negb (status_code response =? 200) then
        _ <~ print ("  Error fetching tracks: " ++ str (status_code response)) ;;
        ret []
      else
        body <~ lift (json response) ;;
        ret (match body_tracks body with
             | Some l => l
             | None => []
             end)
  end.

Definition fetch_artists_batch (artist_ids : list string)
    (headers_ : list (string * string)) : io (list (option record)) :=
  match artist_ids with
  | [] => ret []
  | _ =>
      response <~ requests_get "https://api.spotify.com/v1/artists"
                    (firstn 50 artist_ids) headers_ ;;
      if negb (status_code response =? 200) then
        _ <~ print ("  Error fetching artists: " ++ str (status_code response)) ;;
        ret []
      else
        body <~ lift (json response) ;;
        ret (match body_artists body with
             | Some l => l
             | None => []
             end)
  end.

(** [range(0, n, 50)]. *)
Definition batch_starts (n : nat) : list nat :=
  map (fun j => (50 * j)%nat) (seq 0 ((n + 49) / 50)).

(** [track_ids[i:i+50]]. *)
Definition batch_at {A : Type} (l : list A) (i : nat) : list A :=
  firstn 50 (skipn i l).

(** The loop of [main] that fills [all_track_data], one batch per start
    index; the pause [time.sleep(0.1)] between two batches leaves no trace
    in the world. *)
Fixpoint track_batches (starts : list nat) (track_ids : list string)
    (headers_ : list (string * string))
    (all_track_data : list (option record)) : io (list (option record)) :=
  match starts with
  | [] => ret all_track_data
  | i :: starts' =>
      let batch := batch_at track_ids i in
      _ <~ print ("  Batch " ++ str (Z.of_nat i / 50 + 1) ++ "/"
                  ++ str ((len track_ids - 1) / 50 + 1)
                  ++ " (" ++ str (len batch) ++ " tracks)") ;;
      tracks_data <~ fetch_tracks_batch batch headers_ ;;
      track_batches starts' track_ids headers_ (all_track_data ++ tracks_data)
  end.

Definition fetch_all_tracks (track_ids : list string)
    (headers_ : list (string * string)) : io (list (option record)) :=
  track_batches (batch_starts (List.length track_ids)) track_ids headers_ [].

End Catalog.

End Fetch.

(** ** A conversion to run the metrics with

    [pacific_time] reads a timestamp of the shape [YYYY-MM-DDTHH:MM:SSZ], as
    the streaming history writes it, and moves it to the civil time of
    America/Los_Angeles under the rule in force since 2007: daylight time
    from the second Sunday of March, 10:00 UTC, to the first Sunday of
    November, 09:00 UTC. *)

Module Pacific.

(** The number that the [n] characters of [s] from position [pos] spell. *)
Definition field (pos n : nat) (s : string) : Z :=
  fold_left
    (fun acc c => 10 * acc + (Z.of_nat (nat_of_ascii c) - 48))
    (list_ascii_of_string (substring pos n s)) 0.

(** Days from 1970-01-01 to the civil date [y-m-d]. *)
Definition days_from_civil (y m d : Z) : Z :=
  let y' := if m <=? 2 then y - 1 else y in
  let era := y' / 400 in
  let yoe := y' - era * 400 in
  let doy := (153 * (if 2 <? m then m - 3 else m + 9) + 2) / 5 + d - 1 in
  let doe := yoe * 365 + yoe / 4 - yoe / 100 + doy in
  era * 146097 + doe - 719468.

(** The civil date [days] after 1970-01-01. *)
Definition civil_from_days (days : Z) : Z * Z * Z :=
  let z := days + 719468 in
  let era := z / 146097 in
  let doe := z - era * 146097 in
  let yoe := (doe - doe / 1460 + doe / 36524 - doe / 146096) / 365 in
  let doy := doe - (365 * yoe + yoe / 4 - yoe / 100) in
  let mp := (5 * doy + 2) / 153 in
  let d := doy - (153 * mp + 2) / 5 + 1 in
  let m := if mp <? 10 then mp + 3 else mp - 9 in
  (if m <=? 2 then yoe + era * 400 + 1 else yoe + era * 400, m, d).

(** 0 for Monday to 6 for Sunday; 1970-01-01 was a Thursday. *)
Definition weekday_of_days (days : Z) : Z := (days + 3) mod 7.

(** The first Sunday on or after [y-m-d]. *)
Definition sunday_from (y m d : Z) : Z :=
  let days := days_from_civil y m d in
  days + (6 - weekday_of_days days).

(** The offset from UTC, in hours, at the hour [h] of the UTC day [days] of
    year [y]. *)
Definition offset (y days h : Z) : Z :=
  let t := days * 24 + h in
  if (sunday_from y 3 8 * 24 + 10 <=? t) && (t <? sunday_from y 11 1 * 24 + 9)
  then -7 else -8.

Definition pacific_time (s : string) : datetime :=
  let y := field 0 4 s in
  let days := days_from_civil y (field 5 2 s) (field 8 2 s) in
  let h := field 11 2 s in
  let t := days * 24 + h + offset y days h in
  let local := civil_from_days (t / 24) in
  {| year := fst (fst local);
     month := snd (fst local);
     day := snd local;
     hour := t mod 24;
     weekday := weekday_of_days (t / 24) |}.

End Pacific.

(** ** Sample histories *)

Module Sample.

Open Scope string_scope.

(** An event of a named track by a named artist. *)
Definition play (t : jfield string) (ms_ : Z) (track artist : string) : event :=
  {| ts := t;
     ms_played := Some ms_;
     spotify_track_uri := Val ("spotify:track:" ++ track);
     master_metadata_track_name := Val track;
     master_metadata_album_artist_name := Val artist;
     master_metadata_album_album_name := Null;
     skipped := Absent;
     reason_end := Val "trackdone" |}.

(** The same, ended with the forward button. *)
Definition skip (t : jfield string) (ms_ : Z) (track artist : string) : event :=
  {| ts := t;
     ms_played := Some ms_;
     spotify_track_uri := Val ("spotify:track:" ++ track);
     master_metadata_track_name := Val track;
     master_metadata_album_artist_name := Val artist;
     master_metadata_album_album_name := Null;
     skipped := Val true;
     reason_end := Val "fwdbtn" |}.

(** An event that carries nothing but an artist name. *)
Definition bare (artist : jfield string) : event :=
  {| ts := Absent;
     ms_played := None;
     spotify_track_uri := Absent;
     master_metadata_track_name := Absent;
     master_metadata_album_artist_name := artist;
     master_metadata_album_album_name := Absent;
     skipped := Absent;
     reason_end := Absent |}.

(** Twenty-three plays of one track, seven of them skipped. *)
Definition skipped_7_of_23 : list event :=
  repeat (skip Absent 1000 "Intro" "Banda") 7
  ++ repeat (play Absent 200000 "Intro" "Banda") 16.

(** Two artists with the same listening time. *)
Definition tie : list event :=
  [ play Absent 1000 "Uno" "Ana"; play Absent 1000 "Dos" "Beto" ].

(** Two pairs of names that spell the same key. *)
Definition colliding : list event :=
  [ play Absent 1000 "a|||b" "c"; play Absent 2000 "a" "b|||c" ].

(** Three months of listening, and an event without a timestamp. *)
Definition three_months : list event :=
  [ play (Val "2025-01-01T10:00:00Z") 3600000 "Uno" "Ana";
    play (Val "2025-03-01T10:00:00Z") 7200000 "Dos" "Beto";
    play (Val "2025-02-01T10:00:00Z") 0 "Dos" "Beto";
    play Null 5000 "Uno" "Ana" ].


(** A catalog service that refuses every request. *)
Definition refusing (hist : list Fetch.request) (r : Fetch.request)
    : Fetch.response string :=
  {| Fetch.status_code := 429; Fetch.json := Raise ValueError |}.

(** A catalog service that refuses every second request and answers the
    others with one record per identifier asked for. *)
Definition every_other (hist : list Fetch.request) (r : Fetch.request)
    : Fetch.response string :=
  if Nat.even (List.length hist) then
    {| Fetch.status_code := 200;
       Fetch.json := Ok {| Fetch.body_tracks := Some (map Some (Fetch.ids r));
                           Fetch.body_artists := Some (map Some (Fetch.ids r)) |} |}
  else
    {| Fetch.status_code := 429; Fetch.json := Raise ValueError |}.

(** One hundred and twenty identifiers. *)
Definition many_ids : list string :=
  map (fun n => str (Z.of_nat n)) (seq 0 120).

End Sample.

(** * Properties *)

(** ** Rounding *)

Section Rounding.

Lemma round_comp (q q' : Q) : (q == q')%Q -> round q = round q'.
Proof.
  intros E. unfold round.
  rewrite (Qfloor_comp _ _ E).
  assert (E' : (q - inject_Z (Qfloor q') == q' - inject_Z (Qfloor q'))%Q)
    by (rewrite E; reflexivity).
  rewrite (Qcompare_comp _ _ E' _ _ (Qeq_refl (1 # 2))).
  reflexivity.
Qed.

Lemma round_inject_Z (z : Z) : round (inject_Z z) = z.
Proof.
  unfold round. rewrite Qfloor_Z.
  destruct (Qcompare_spec (inject_Z z - inject_Z z) (1 # 2)) as [E | L | G].
  - lra.
  - reflexivity.
  - lra.
Qed.

(** [round q] is within a half of [q]. *)
Lemma round_near (q : Q) :
  (inject_Z (round q) - (1 # 2) <= q <= inject_Z (round q) + (1 # 2))%Q.
Proof.
  unfold round.
  pose proof (Qfloor_le q) as Lo.
  pose proof (Qlt_floor q) as Hi.
  rewrite inject_Z_plus in Hi. change (inject_Z 1) with 1%Q in Hi.
  destruct (Qcompare_spec (q - inject_Z (Qfloor q)) (1 # 2)) as [E | L | G].
  - destruct (Z.even (Qfloor q));
      [| rewrite inject_Z_plus; change (inject_Z 1) with 1%Q]; lra.
  - lra.
  - rewrite inject_Z_plus. change (inject_Z 1) with 1%Q. lra.
Qed.

(** An integer strictly below [q] is at most [round q]. *)
Lemma round_above (z : Z) (q : Q) : (inject_Z z < q)%Q -> z <= round q.
Proof.
  intros L. unfold round.
  assert (F : z <= Qfloor q).
  { apply Qlt_le_weak, Qfloor_resp_le in L. rewrite Qfloor_Z in L. exact L. }
  destruct (Qcompare (q - inject_Z (Qfloor q)) (1 # 2));
    [destruct (Z.even (Qfloor q)) | |]; lia.
Qed.

(** [round] is monotone. *)
Lemma round_mono (q q' : Q) : (q <= q')%Q -> round q <= round q'.
Proof.
  intros L. unfold round.
  pose proof (Qfloor_resp_le _ _ L) as F.
  pose proof (Qfloor_le q) as Lo. pose proof (Qlt_floor q) as Hi.
  pose proof (Qfloor_le q') as Lo'. pose proof (Qlt_floor q') as Hi'.
  rewrite inject_Z_plus in Hi, Hi'. change (inject_Z 1) with 1%Q in Hi, Hi'.
  destruct (Z.eq_dec (Qfloor q) (Qfloor q')) as [E | N].
  - rewrite <- E in *. clear E F.
    destruct (Qcompare_spec (q - inject_Z (Qfloor q)) (1 # 2));
      destruct (Qcompare_spec (q' - inject_Z (Qfloor q)) (1 # 2));
      destruct (Z.even (Qfloor q)); try lia; lra.
  - assert (F' : Qfloor q + 1 <= Qfloor q') by lia.
    destruct (Qcompare (q - inject_Z (Qfloor q)) (1 # 2));
      destruct (Qcompare (q' - inject_Z (Qfloor q')) (1 # 2));
      destruct (Z.even (Qfloor q)); destruct (Z.even (Qfloor q')); lia.
Qed.

End Rounding.

(** ** Binary64 rounding *)

Section Binary64.

Lemma pow2_pos (e : Z) : (0 < pow2 e)%Q.
Proof. apply Qpower_0_lt. reflexivity. Qed.

Lemma pow2_plus (a b : Z) : (pow2 (a + b) == pow2 a * pow2 b)%Q.
Proof. apply Qpower_plus. discriminate. Qed.

Lemma pow2_le (a b : Z) : a <= b -> (pow2 a <= pow2 b)%Q.
Proof. intros L. apply Qpower_le_compat_l; [exact L | discriminate]. Qed.

Lemma pow2_lt_inv (a b : Z) : (pow2 a < pow2 b)%Q -> a < b.
Proof.
  intros L. destruct (Z_lt_le_dec a b) as [| G]; [assumption |].
  apply pow2_le in G. lra.
Qed.

Lemma pow2_Z (n : Z) : 0 <= n -> (pow2 n == inject_Z (2 ^ n))%Q.
Proof. intros N. symmetry. apply (Zpower_Qpower 2 n N). Qed.

(** A quotient by a power of two is a product by the opposite power. *)
Lemma div_pow2 (q : Q) (e : Z) : (q / pow2 e == q * pow2 (- e))%Q.
Proof.
  unfold Qdiv. apply Qmult_comp; [reflexivity |].
  unfold pow2. symmetry. apply Qpower_opp.
Qed.

(** [ilog2 q] is the exponent of the binade of a positive [q]. *)
Lemma ilog2_spec (q : Q) :
  (0 < q)%Q -> (pow2 (ilog2 q) <= q < pow2 (ilog2 q + 1))%Q.
Proof.
  intros P. destruct q as [n d].
  assert (N : 0 < n) by (unfold Qlt in P; simpl in P; lia).
  unfold ilog2. cbn [Qnum Qden].
  set (a := Z.log2 n). set (b := Z.log2 (Zpos d)).
  destruct (Z.log2_spec n N) as [La Ha]. fold a in La, Ha.
  destruct (Z.log2_spec (Zpos d) (Pos2Z.is_pos d)) as [Lb Hb].
  fold b in Lb, Hb.
  assert (A0 : 0 <= a) by apply Z.log2_nonneg.
  assert (B0 : 0 <= b) by apply Z.log2_nonneg.
  assert (Lo : (pow2 (a - b - 1) < n # d)%Q).
  { replace (a - b - 1) with (a + - (b + 1)) by lia.
    rewrite pow2_plus, <- div_pow2, (pow2_Z A0), pow2_Z by lia.
    apply Qlt_shift_div_r.
    - apply (Qlt_le_trans _ (inject_Z 1)); [reflexivity |].
      rewrite <- Zle_Qle. lia.
    - unfold Qlt, Qmult, inject_Z. cbn [Qnum Qden].
      unfold Z.succ in Hb. nia. }
  assert (Hi : (n # d < pow2 (a - b + 1))%Q).
  { replace (a - b + 1) with (a + 1 + - b) by lia.
    rewrite pow2_plus, <- div_pow2, (pow2_Z B0), pow2_Z by lia.
    apply Qlt_shift_div_l.
    - apply (Qlt_le_trans _ (inject_Z 1)); [reflexivity |].
      rewrite <- Zle_Qle. lia.
    - unfold Qlt, Qmult, inject_Z. cbn [Qnum Qden].
      unfold Z.succ in Ha. nia. }
  destruct (Qle_bool (pow2 (a - b)) (n # d)) eqn:T.
  - apply Qle_bool_iff in T. split; assumption.
  - assert (T' : (n # d < pow2 (a - b))%Q).
    { apply Qnot_le_lt. intros C. apply Qle_bool_iff in C. congruence. }
    replace (a - b - 1 + 1) with (a - b) by lia.
    split; [apply Qlt_le_weak |]; assumption.
Qed.

Lemma ilog2_mono (q q' : Q) : (0 < q)%Q -> (q <= q')%Q -> ilog2 q <= ilog2 q'.
Proof.
  intros P L.
  destruct (ilog2_spec P) as [Lo _].
  destruct (@ilog2_spec q') as [_ Hi]; [lra |].
  assert (ilog2 q < ilog2 q' + 1); [| lia].
  apply pow2_lt_inv. lra.
Qed.

(** The significand of a positive [q] lies between [2^52] and [2^53]. *)
Lemma significand_bounds (q : Q) :
  (0 < q)%Q ->
  2 ^ 52 <= round (q / pow2 (ilog2 q - 52)) <= 2 ^ 53.
Proof.
  intros P. destruct (ilog2_spec P) as [Lo Hi].
  set (k := ilog2 q) in *.
  pose proof (pow2_pos (k - 52)) as E.
  split.
  - rewrite <- (round_inject_Z (2 ^ 52)). apply round_mono.
    apply Qle_shift_div_l; [exact E |].
    rewrite <- pow2_Z, <- pow2_plus by lia.
    replace (52 + (k - 52)) with k by lia. exact Lo.
  - rewrite <- (round_inject_Z (2 ^ 53)). apply round_mono.
    apply Qle_shift_div_r; [exact E |].
    rewrite <- pow2_Z, <- pow2_plus by lia.
    replace (53 + (k - 52)) with (k + 1) by lia.
    apply Qlt_le_weak. exact Hi.
Qed.

Lemma binary64_pos_bounds (q : Q) :
  (0 < q)%Q ->
  (pow2 (ilog2 q) <= binary64_pos q <= pow2 (ilog2 q + 1))%Q.
Proof.
  intros P. destruct (significand_bounds P) as [Lo Hi].
  unfold binary64_pos. cbv zeta.
  set (m := round (q / pow2 (ilog2 q - 52))) in *.
  pose proof (pow2_pos (ilog2 q - 52)) as E.
  replace (ilog2 q) with (52 + (ilog2 q - 52)) at 1 by lia.
  replace (ilog2 q + 1) with (53 + (ilog2 q - 52)) by lia.
  rewrite !pow2_plus, (@pow2_Z 52), (@pow2_Z 53) by lia.
  split; (apply Qmult_le_compat_r; [| apply Qlt_le_weak; exact E]).
  - rewrite <- Zle_Qle. exact Lo.
  - rewrite <- Zle_Qle. exact Hi.
Qed.

Lemma binary64_pos_mono (q q' : Q) :
  (0 < q)%Q -> (q <= q')%Q -> (binary64_pos q <= binary64_pos q')%Q.
Proof.
  intros P L.
  assert (P' : (0 < q')%Q) by lra.
  pose proof (ilog2_mono P L) as K.
  destruct (Z.eq_dec (ilog2 q) (ilog2 q')) as [E | N].
  - unfold binary64_pos. cbv zeta. rewrite <- E.
    pose proof (pow2_pos (ilog2 q - 52)) as E2.
    apply Qmult_le_compat_r; [| apply Qlt_le_weak; exact E2].
    rewrite <- Zle_Qle. apply round_mono.
    unfold Qdiv. apply Qmult_le_compat_r; [exact L |].
    apply Qlt_le_weak, Qinv_lt_0_compat. exact E2.
  - destruct (binary64_pos_bounds P) as [_ Hi].
    destruct (binary64_pos_bounds P') as [Lo _].
    assert (M : (pow2 (ilog2 q + 1) <= pow2 (ilog2 q'))%Q)
      by (apply pow2_le; lia).
    lra.
Qed.

Lemma Qnum_pos (q : Q) : (0 < q)%Q <-> 0 < Qnum q.
Proof. unfold Qlt. simpl. lia. Qed.

Lemma Qnum_neg (q : Q) : (q < 0)%Q <-> Qnum q < 0.
Proof. unfold Qlt. simpl. lia. Qed.

Lemma binary64_of_pos (q : Q) :
  (0 < q)%Q -> (binary64 q == binary64_pos (Qred q))%Q.
Proof.
  intros P. rewrite <- (Qred_correct q) in P. apply Qnum_pos in P.
  unfold binary64. cbv zeta. destruct (Qnum (Qred q)); try lia.
  apply Qred_correct.
Qed.

Lemma binary64_of_neg (q : Q) :
  (q < 0)%Q -> (binary64 q == - binary64_pos (- Qred q))%Q.
Proof.
  intros P. rewrite <- (Qred_correct q) in P. apply Qnum_neg in P.
  unfold binary64. cbv zeta.
  destruct (Qnum (Qred q)); try lia.
  apply Qred_correct.
Qed.

Lemma binary64_of_0 (q : Q) : (q == 0)%Q -> binary64 q = 0%Q.
Proof.
  intros E. rewrite <- (Qred_correct q) in E.
  unfold binary64. cbv zeta.
  assert (Z0 : Qnum (Qred q) = 0) by (unfold Qeq in E; simpl in E; lia).
  rewrite Z0. reflexivity.
Qed.

Lemma binary64_pos_pos (q : Q) : (0 < q)%Q -> (0 < binary64_pos q)%Q.
Proof.
  intros P. destruct (binary64_pos_bounds P) as [Lo _].
  pose proof (pow2_pos (ilog2 q)). lra.
Qed.

(** Rounding to binary64 keeps the order. *)
Lemma binary64_mono (q q' : Q) : (q <= q')%Q -> (binary64 q <= binary64 q')%Q.
Proof.
  intros L.
  assert (R : forall x, (0 < x)%Q -> (0 < Qred x)%Q)
    by (intros x X; rewrite Qred_correct; exact X).
  assert (Pq : forall x, (0 < x)%Q -> (0 < binary64 x)%Q).
  { intros x X. rewrite (binary64_of_pos X).
    apply binary64_pos_pos, R, X. }
  assert (Nq : forall x, (x < 0)%Q -> (binary64 x < 0)%Q).
  { intros x X. rewrite (binary64_of_neg X).
    assert (0 < binary64_pos (- Qred x))%Q; [| lra].
    apply binary64_pos_pos. rewrite Qred_correct. lra. }
  destruct (Q_dec q 0) as [[Nn | Pp] | Z0].
  - destruct (Q_dec q' 0) as [[Nn' | Pp'] | Z0'].
    + rewrite (binary64_of_neg Nn), (binary64_of_neg Nn').
      apply Qopp_le_compat, binary64_pos_mono; rewrite !Qred_correct; lra.
    + apply Nq in Nn. apply Pq in Pp'. lra.
    + apply Nq in Nn. rewrite (binary64_of_0 Z0'). lra.
  - assert (Pp' : (0 < q')%Q) by lra.
    rewrite (binary64_of_pos Pp), (binary64_of_pos Pp').
    apply binary64_pos_mono; [apply R, Pp | rewrite !Qred_correct; exact L].
  - rewrite (binary64_of_0 Z0).
    destruct (Q_dec q' 0) as [[Nn' | Pp'] | Z0'].
    + lra.
    + apply Pq in Pp'. lra.
    + rewrite (binary64_of_0 Z0'). lra.
Qed.

(** Equal rationals round to the same binary64 value. *)
Lemma binary64_comp (q q' : Q) : (q == q')%Q -> binary64 q = binary64 q'.
Proof.
  intros E. unfold binary64. rewrite (Qred_complete _ _ E). reflexivity.
Qed.

Lemma ilog2_unique (q : Q) (k : Z) :
  (pow2 k <= q < pow2 (k + 1))%Q -> ilog2 q = k.
Proof.
  intros [Lo Hi].
  assert (P : (0 < q)%Q) by (pose proof (pow2_pos k); lra).
  destruct (ilog2_spec P) as [Lo' Hi'].
  assert (A : ilog2 q < k + 1) by (apply pow2_lt_inv; lra).
  assert (B : k < ilog2 q + 1) by (apply pow2_lt_inv; lra).
  lia.
Qed.

(** The result is within half a unit in the last place of [q]. *)
Lemma binary64_pos_near (q : Q) :
  (0 < q)%Q ->
  (binary64_pos q - pow2 (ilog2 q - 53) <= q
   <= binary64_pos q + pow2 (ilog2 q - 53))%Q.
Proof.
  intros P. unfold binary64_pos. cbv zeta.
  set (e := ilog2 q - 52).
  replace (ilog2 q - 53) with (-1 + e) by (unfold e; lia).
  rewrite pow2_plus. change (pow2 (-1)) with (1 # 2)%Q.
  pose proof (pow2_pos e) as E.
  pose proof (round_near (q / pow2 e)) as [Lo Hi].
  assert (Q0 : (q == q / pow2 e * pow2 e)%Q).
  { unfold Qdiv. rewrite <- Qmult_assoc, (Qmult_comm (/ _)), Qmult_inv_r.
    - rewrite Qmult_1_r. reflexivity.
    - intros Z0. rewrite Z0 in E. discriminate. }
  set (x := (q / pow2 e)%Q) in *.
  set (m := inject_Z (round x)) in *.
  split.
  - rewrite Q0.
    setoid_replace (m * pow2 e - (1 # 2) * pow2 e)%Q
      with ((m - (1 # 2)) * pow2 e)%Q by ring.
    apply Qmult_le_compat_r; [exact Lo | apply Qlt_le_weak, E].
  - rewrite Q0.
    setoid_replace (m * pow2 e + (1 # 2) * pow2 e)%Q
      with ((m + (1 # 2)) * pow2 e)%Q by ring.
    apply Qmult_le_compat_r; [exact Hi | apply Qlt_le_weak, E].
Qed.

(** A float is its own rounding. *)
Lemma binary64_pos_exact (m e : Z) :
  2 ^ 52 <= m < 2 ^ 53 ->
  (binary64_pos (inject_Z m * pow2 e) == inject_Z m * pow2 e)%Q.
Proof.
  intros [Lo Hi].
  pose proof (pow2_pos e) as E.
  assert (K : ilog2 (inject_Z m * pow2 e) = 52 + e).
  { apply ilog2_unique. split.
    - rewrite pow2_plus, (@pow2_Z 52) by lia.
      apply Qmult_le_compat_r; [| apply Qlt_le_weak, E].
      rewrite <- Zle_Qle. exact Lo.
    - replace (52 + e + 1) with (53 + e) by lia.
      rewrite pow2_plus, (@pow2_Z 53) by lia.
      apply Qmult_lt_compat_r; [exact E |].
      rewrite <- Zlt_Qlt. exact Hi. }
  unfold binary64_pos. cbv zeta. rewrite K.
  replace (52 + e - 52) with e by lia.
  rewrite (@round_comp (inject_Z m * pow2 e / pow2 e) (inject_Z m)).
  - rewrite round_inject_Z. reflexivity.
  - unfold Qdiv. rewrite <- Qmult_assoc, Qmult_inv_r.
    + apply Qmult_1_r.
    + intros Z0. rewrite Z0 in E. discriminate.
Qed.

End Binary64.

(** ** Keys, dicts and sets *)

#[export] Instance KeyOk_string : KeyOk string.
Proof. intros a b. apply String.eqb_eq. Qed.

#[export] Instance KeyOk_Z : KeyOk Z.
Proof. intros a b. apply Z.eqb_eq. Qed.

#[export] Instance KeyOk_pair {A B : Type} `{KeyOk A} `{KeyOk B} : KeyOk (A * B).
Proof.
  intros [a b] [a' b']. unfold keyb, Key_pair. simpl.
  rewrite andb_true_iff.
  rewrite (keyb_spec a a'), (keyb_spec b b').
  split.
  - intros [-> ->]. reflexivity.
  - intros E. inversion E. split; reflexivity.
Qed.

Section Dicts.

Context {K V : Type} `{KeyOk K}.

Lemma keyb_refl (k : K) : keyb k k = true.
Proof. apply keyb_spec. reflexivity. Qed.

Lemma keyb_neq (a b : K) : a <> b -> keyb a b = false.
Proof.
  intros N. destruct (keyb a b) eqn:E; [| reflexivity].
  apply keyb_spec in E. contradiction.
Qed.

Lemma keyb_sym (a b : K) : keyb a b = keyb b a.
Proof.
  destruct (keyb b a) eqn:E.
  - apply keyb_spec in E. subst. apply keyb_refl.
  - apply keyb_neq. intros ->. rewrite keyb_refl in E. discriminate.
Qed.

Lemma dict_get_update (k k' : K) (d0 : V) (f : V -> V) (d : list (K * V)) :
  dict_get k (dict_update k' d0 f d)
  = if keyb k k' then Some (f (current d0 k' d)) else dict_get k d.
Proof.
  unfold current.
  induction d as [| [k0 v0] d IH]; simpl.
  - destruct (keyb k k'); reflexivity.
  - destruct (keyb k' k0) eqn:E0; simpl.
    + apply keyb_spec in E0. subst k0.
      destruct (keyb k k'); reflexivity.
    + rewrite IH.
      destruct (keyb k k') eqn:E1; [| reflexivity].
      apply keyb_spec in E1. subst k'. rewrite E0. reflexivity.
Qed.

Lemma dict_get_In (k : K) (v : V) (d : list (K * V)) :
  dict_get k d = Some v -> In (k, v) d.
Proof.
  induction d as [| [k0 v0] d IH]; simpl; [discriminate |].
  destruct (keyb k k0) eqn:E.
  - apply keyb_spec in E. subst. intros [= ->]. left. reflexivity.
  - intros G. right. apply IH. exact G.
Qed.

Lemma In_dict_get (k : K) (v : V) (d : list (K * V)) :
  NoDup (map fst d) -> In (k, v) d -> dict_get k d = Some v.
Proof.
  induction d as [| [k0 v0] d IH]; simpl; [contradiction |].
  intros N [E | I].
  - inversion E. subst. rewrite keyb_refl. reflexivity.
  - inversion N as [| ? ? N0 N1]. subst.
    rewrite keyb_neq.
    + apply IH; assumption.
    + intros ->. apply N0. apply (in_map fst) in I. exact I.
Qed.

Lemma dict_update_keys (k : K) (d0 : V) (f : V -> V) (d : list (K * V)) :
  map fst (dict_update k d0 f d)
  = if mem k (map fst d) then map fst d else map fst d ++ [k].
Proof.
  induction d as [| [k0 v0] d IH]; simpl; [reflexivity |].
  destruct (keyb k k0); simpl; [reflexivity |].
  rewrite IH. destruct (mem k (map fst d)); reflexivity.
Qed.

Lemma mem_In (k : K) (s : list K) : mem k s = true <-> In k s.
Proof.
  induction s as [| k0 s IH]; simpl.
  - split; [discriminate | contradiction].
  - rewrite orb_true_iff, IH, keyb_spec. split; intros [E | I]; auto.
Qed.

Lemma set_add_NoDup (k : K) (s : list K) : NoDup s -> NoDup (set_add k s).
Proof.
  intros N. unfold set_add. destruct (mem k s) eqn:M; [exact N |].
  apply NoDup_app; [exact N | repeat constructor; intros [] |].
  intros x Ix [<- | []].
  apply mem_In in Ix. congruence.
Qed.

Lemma set_add_In (k x : K) (s : list K) :
  In x (set_add k s) <-> x = k \/ In x s.
Proof.
  unfold set_add. destruct (mem k s) eqn:M.
  - apply mem_In in M. split; [auto | intros [-> | I]; assumption].
  - rewrite in_app_iff. simpl. intuition.
Qed.

Lemma dict_update_NoDup (k : K) (d0 : V) (f : V -> V) (d : list (K * V)) :
  NoDup (map fst d) -> NoDup (map fst (dict_update k d0 f d)).
Proof.
  intros N. rewrite dict_update_keys.
  exact (set_add_NoDup k N).
Qed.

End Dicts.

(** ** Sums *)

Lemma fold_add_from (l : list Z) (a : Z) : fold_left Z.add l a = a + sum l.
Proof.
  unfold sum. revert a.
  induction l as [| x l IH]; intros a; simpl.
  - lia.
  - rewrite IH, (IH x). lia.
Qed.

Lemma sum_cons (x : Z) (l : list Z) : sum (x :: l) = x + sum l.
Proof. unfold sum at 1. simpl. apply fold_add_from. Qed.

Lemma sum_app (l l' : list Z) : sum (l ++ l') = sum l + sum l'.
Proof.
  induction l as [| x l IH]; simpl.
  - reflexivity.
  - rewrite !sum_cons, IH. lia.
Qed.

Lemma sum_perm (l l' : list Z) : Permutation l l' -> sum l = sum l'.
Proof.
  induction 1; rewrite ?sum_cons in *; lia.
Qed.

(** ** Grouping: a loop that files every item under a key of a dict *)

Section GroupBy.

Context {A K V : Type} `{KeyOk K}.

Variable d0 : V.
Variable keyf : A -> option K.
Variable step : A -> V -> V.
Variable f : list (K * V) -> A -> list (K * V).

Hypothesis f_step : forall d item,
  f d item = match keyf item with
             | Some k => dict_update k d0 (step item) d
             | None => d
             end.

Lemma group_get_from (data : list A) (d : list (K * V)) (k : K) :
  dict_get k (fold_left f data d)
  = fold_left (grow d0 step) (filter (has_key keyf k) data) (dict_get k d).
Proof.
  revert d. induction data as [| x data IH]; intros d; simpl.
  - reflexivity.
  - rewrite IH, f_step. unfold has_key.
    destruct (keyf x) as [k' |]; [| reflexivity].
    rewrite dict_get_update.
    destruct (keyb k k') eqn:E; [| reflexivity].
    apply keyb_spec in E. subst k'. reflexivity.
Qed.

Lemma group_get (data : list A) (k : K) :
  dict_get k (fold_left f data [])
  = fold_left (grow d0 step) (filter (has_key keyf k) data) None.
Proof. apply group_get_from. Qed.

Lemma group_NoDup_from (data : list A) (d : list (K * V)) :
  NoDup (map fst d) -> NoDup (map fst (fold_left f data d)).
Proof.
  revert d. induction data as [| x data IH]; intros d N; simpl.
  - exact N.
  - apply IH. rewrite f_step.
    destruct (keyf x); [apply dict_update_NoDup |]; exact N.
Qed.

Lemma group_NoDup (data : list A) : NoDup (map fst (fold_left f data [])).
Proof. apply group_NoDup_from. constructor. Qed.

(** An entry of the dict is what its group folds to. *)
Lemma group_In (data : list A) (k : K) (v : V) :
  In (k, v) (fold_left f data [])
  <-> fold_left (grow d0 step) (filter (has_key keyf k) data) None = Some v.
Proof.
  rewrite <- group_get. split.
  - apply In_dict_get, group_NoDup.
  - apply dict_get_In.
Qed.

(** A measure that every step raises by one sums, over the dict, to the
    number of items filed. *)
Variable measure : V -> Z.
Hypothesis measure_d0 : measure d0 = 0.
Hypothesis measure_step : forall item v, measure (step item v) = measure v + 1.

Let total (d : list (K * V)) : Z := sum (map (fun kv => measure (snd kv)) d).

Lemma update_total (k : K) (item : A) (d : list (K * V)) :
  total (dict_update k d0 (step item) d) = total d + 1.
Proof.
  unfold total. induction d as [| [k0 v0] d IH]; simpl.
  - rewrite sum_cons, measure_step, measure_d0. reflexivity.
  - destruct (keyb k k0); simpl; rewrite !sum_cons.
    + rewrite measure_step. lia.
    + rewrite IH. lia.
Qed.

Lemma group_total_from (data : list A) (d : list (K * V)) :
  total (fold_left f data d)
  = total d + len (filter (filed keyf) data).
Proof.
  unfold len. revert d. induction data as [| x data IH]; intros d; simpl.
  - lia.
  - rewrite IH, f_step. unfold filed. destruct (keyf x); simpl List.length.
    + rewrite update_total. lia.
    + reflexivity.
Qed.

End GroupBy.

(** ** Sorting *)

Section Sorting.

Context {A : Type}.

Lemma insert_by_perm (before : A -> A -> bool) (x : A) (l : list A) :
  Permutation (insert_by before x l) (x :: l).
Proof.
  induction l as [| y l IH]; simpl.
  - reflexivity.
  - destruct (before y x).
    + rewrite IH. apply perm_swap.
    + reflexivity.
Qed.

Lemma sorted_desc_perm (key : A -> Z) (l : list A) :
  Permutation (sorted_desc key l) l.
Proof.
  unfold sorted_desc. induction l as [| x l IH]; simpl.
  - reflexivity.
  - rewrite insert_by_perm, IH. reflexivity.
Qed.

Lemma sorted_asc_perm (key : A -> Z) (l : list A) :
  Permutation (sorted_asc key l) l.
Proof.
  unfold sorted_asc. induction l as [| x l IH]; simpl.
  - reflexivity.
  - rewrite insert_by_perm, IH. reflexivity.
Qed.

Lemma insert_desc (key : A -> Z) (x : A) (l : list A) :
  descending key l ->
  descending key (insert_by (fun y x => key x <? key y) x l).
Proof.
  unfold descending. induction 1 as [| y l S IH F]; simpl.
  - repeat constructor.
  - destruct (key x <? key y) eqn:E.
    + apply Z.ltb_lt in E. constructor; [exact IH |].
      apply (Permutation_Forall (Permutation_sym (insert_by_perm _ x l))).
      constructor; [lia | exact F].
    + apply Z.ltb_ge in E. constructor.
      * constructor; assumption.
      * constructor; [exact E |].
        eapply Forall_impl; [| exact F]. simpl. intros; lia.
Qed.

Lemma sorted_desc_descending (key : A -> Z) (l : list A) :
  descending key (sorted_desc key l).
Proof.
  unfold sorted_desc. induction l as [| x l IH]; simpl.
  - constructor.
  - apply insert_desc, IH.
Qed.

Lemma descending_firstn (key : A -> Z) (n : nat) (l : list A) :
  descending key l -> descending key (firstn n l).
Proof.
  unfold descending. intros S. revert n.
  induction S as [| y l S IH F]; intros [| n]; simpl; try constructor.
  - apply IH.
  - rewrite Forall_forall in *. intros z Iz. apply F.
    rewrite <- (firstn_skipn n l). apply in_or_app. left. exact Iz.
Qed.

Lemma firstn_le_length (n : nat) (l : list A) : (List.length (firstn n l) <= n)%nat.
Proof. rewrite length_firstn. lia. Qed.

End Sorting.

(** ** Peak hours *)

Section PeakHours.

Variable utc_to_pacific : string -> datetime.

Lemma pacific_of_without_ts (item : event) :
  truthy (get (ts item)) = None -> pacific_of utc_to_pacific item = None.
Proof. unfold pacific_of. intros ->. reflexivity. Qed.

Lemma count_by_without_ts {K : Type} `{Key K} (key : datetime -> K)
    (data : list event) :
  (forall item, In item data -> truthy (get (ts item)) = None) ->
  count_by utc_to_pacific key data = [].
Proof.
  unfold count_by. generalize (@nil (K * Z)).
  induction data as [| x data IH]; intros d N; simpl.
  - reflexivity.
  - rewrite (pacific_of_without_ts x (N x (or_introl eq_refl))).
    apply IH. intros item I. apply N. right. exact I.
Qed.

(** C1, on the code: when no event carries a timestamp (the empty history
    included) [find_peak_hours] does not return a result with [peak_hour = 0]:
    the description takes [min] of the empty list of top hours, which raises
    [ValueError]. *)
Theorem find_peak_hours_raises_without_timestamps (data : list event) :
  (forall item, In item data -> truthy (get (ts item)) = None) ->
  find_peak_hours utc_to_pacific data = Raise ValueError.
Proof.
  intros N. unfold find_peak_hours.
  rewrite (count_by_without_ts hour data N). reflexivity.
Qed.

End PeakHours.

Lemma find_peak_hours_raises_without_timestamps_witness :
  find_peak_hours Pacific.pacific_time [Sample.bare (Val "Ana"%string)]
  = Raise ValueError.
Proof.
  apply (find_peak_hours_raises_without_timestamps Pacific.pacific_time).
  intros item [<- | []]. reflexivity.
Defined.

(** An absent [ms_played] counts as 0, and a top artist with 0 ms makes the
    percentage divide by zero. *)
Lemma top_artists_raises_on_absent_ms :
  calculate_top_artists [Sample.bare (Val "Ana"%string)] 5
  = Raise ZeroDivisionError.
Proof. reflexivity. Qed.

(** ** The composite key *)

(** C9, on the code: the events of [Sample.colliding] differ in track name
    and in artist name, yet their keys are one string, so that
    [calculate_top_tracks] and the table of [calculate_skipped_tracks] hold
    a single entry with both plays, under the names of the later event. *)
Theorem colliding_names_share_one_entry :
  map (fun item => (get (master_metadata_track_name item),
                    get (master_metadata_album_artist_name item)))
      Sample.colliding
  = [ (Some "a|||b", Some "c"); (Some "a", Some "b|||c") ]%string
  /\ (exists out,
        calculate_top_tracks Sample.colliding 5 = Ok out
        /\ map (fun e => (tt_track e, tt_artist e, tt_plays e)) out
           = [ ("a", "b|||c", 2) ]%string)
  /\ map (fun kv => (sk_name (snd kv), sk_artist (snd kv),
                     sk_total_plays (snd kv)))
         (skip_table Sample.colliding)
     = [ ("a", "b|||c", 2) ]%string.
Proof.
  split; [reflexivity | split].
  - eexists. split; reflexivity.
  - reflexivity.
Qed.

(** ** What a group folds to *)

Section Grow.

Context {A V : Type}.

Variable d0 : V.
Variable step : A -> V -> V.

Lemma grow_snoc (l : list A) (x : A) (o : option V) :
  fold_left (grow d0 step) (l ++ [x]) o
  = Some (step x (value d0 (fold_left (grow d0 step) l o))).
Proof. rewrite fold_left_app. reflexivity. Qed.

(** A group that folds to a value is not empty, and its last item made the
    value. *)
Lemma grow_last (l : list A) (v : V) :
  fold_left (grow d0 step) l None = Some v ->
  exists l' x, l = l' ++ [x]
               /\ v = step x (value d0 (fold_left (grow d0 step) l' None)).
Proof.
  induction l as [| y l0 _] using rev_ind; simpl.
  - discriminate.
  - rewrite grow_snoc. intros [= <-]. exists l0, y. split; reflexivity.
Qed.

(** A measure to which the step of [x] adds [w x] sums [w] over the
    group. *)
Lemma grow_measure (m : V -> Z) (w : A -> Z) (l : list A) :
  Forall (fun x => forall v, m (step x v) = m v + w x) l ->
  forall o : option V,
    m (value d0 (fold_left (grow d0 step) l o))
    = m (value d0 o) + sum (map w l).
Proof.
  induction 1 as [| x l M _ IH]; intros o; simpl.
  - unfold sum. simpl. lia.
  - rewrite IH, sum_cons. simpl. rewrite M. lia.
Qed.

End Grow.

Lemma sum_ones {A : Type} (l : list A) : sum (map (fun _ => 1) l) = len l.
Proof.
  unfold len. induction l as [| x l IH].
  - reflexivity.
  - simpl map. rewrite sum_cons, IH. simpl List.length. lia.
Qed.

Lemma sum_indicator {A : Type} (p : A -> bool) (l : list A) :
  sum (map (fun x => if p x then 1 else 0) l) = len (filter p l).
Proof.
  unfold len. induction l as [| x l IH].
  - reflexivity.
  - simpl map. rewrite sum_cons, IH. simpl filter.
    destruct (p x); simpl List.length; lia.
Qed.

(** ** Skipped tracks *)

Section SkippedTracks.

Lemma pair_key_names (item : event) (k : string) :
  pair_key item = Some k ->
  exists track artist,
    pair_names item = Some (track, artist) /\ k = track_key track artist.
Proof.
  unfold pair_key. destruct (pair_names item) as [[track artist] |].
  - intros [= <-]. exists track, artist. split; reflexivity.
  - discriminate.
Qed.

Lemma skip_step_total (x : event) (k : string) :
  has_key pair_key k x = true ->
  forall v, sk_total_plays (skip_step x v) = sk_total_plays v + 1.
Proof.
  unfold has_key, pair_key, skip_step.
  destruct (pair_names x) as [[track artist] |]; [reflexivity | discriminate].
Qed.

Lemma skip_step_skipped (x : event) (k : string) :
  has_key pair_key k x = true ->
  forall v, sk_skipped (skip_step x v)
            = sk_skipped v + (if counts_as_skip x then 1 else 0).
Proof.
  unfold has_key, pair_key, skip_step.
  destruct (pair_names x) as [[track artist] |]; [| discriminate].
  intros _ v. simpl. destruct (counts_as_skip x); lia.
Qed.

Lemma skip_step_key (x : event) (k : string) :
  has_key pair_key k x = true ->
  forall v, k = track_key (sk_name (skip_step x v)) (sk_artist (skip_step x v)).
Proof.
  unfold has_key, pair_key, skip_step.
  destruct (pair_names x) as [[track artist] |]; [| discriminate].
  intros E v. apply String.eqb_eq in E. exact E.
Qed.

(** Every entry of the table counts the plays and the skips of the events
    under its key, and carries names that spell the key. *)
Lemma skip_table_entry (data : list event) (k : string) (s : skip_stats) :
  In (k, s) (skip_table data) ->
  k = track_key (sk_name s) (sk_artist s)
  /\ sk_total_plays s = len (filter (has_key pair_key k) data)
  /\ sk_skipped s
     = len (filter counts_as_skip (filter (has_key pair_key k) data))
  /\ 1 <= sk_total_plays s.
Proof.
  intros I.
  apply (group_In skip_default pair_key skip_step _ (fun _ _ => eq_refl))
    in I.
  set (group := filter (has_key pair_key k) data) in *.
  assert (G : Forall (fun x => has_key pair_key k x = true) group).
  { apply Forall_forall. intros x Ix. apply filter_In in Ix. apply Ix. }
  assert (T : sk_total_plays (value skip_default (Some s)) = len group).
  { rewrite <- I, grow_measure with (w := fun _ => 1).
    - rewrite sum_ones. reflexivity.
    - eapply Forall_impl; [| exact G]. intros x. apply skip_step_total. }
  assert (S : sk_skipped (value skip_default (Some s))
              = len (filter counts_as_skip group)).
  { rewrite <- I,
      grow_measure with (w := fun x => if counts_as_skip x then 1 else 0).
    - rewrite sum_indicator. reflexivity.
    - eapply Forall_impl; [| exact G]. intros x. apply skip_step_skipped. }
  simpl in T, S.
  destruct (grow_last _ _ _ I) as (l' & x & E & ->).
  assert (Gx : has_key pair_key k x = true).
  { rewrite Forall_forall in G. apply G. rewrite E.
    apply in_or_app. right. left. reflexivity. }
  repeat split; try assumption.
  - apply skip_step_key. exact Gx.
  - rewrite T, E. unfold len. rewrite length_app. simpl. lia.
Qed.

End SkippedTracks.

Lemma ltb_lt (a b : Q) : ltb a b = true -> (a < b)%Q.
Proof.
  unfold ltb. destruct (Qcompare_spec a b); try discriminate. trivial.
Qed.

Lemma ltb_false_0 (q : Q) : (q == 0)%Q -> ltb 0 q = false.
Proof.
  intros E. unfold ltb.
  destruct (Qcompare_spec 0 q) as [| L |]; try reflexivity.
  rewrite E in L. discriminate.
Qed.

(** A float rate above the float [0.3] is a ratio above three tenths: the
    rounding of the quotient never carries a ratio of at most three tenths
    over the threshold. *)
Lemma rate_above (s t : Z) :
  1 <= t ->
  (binary64 (3 # 10) < binary64 (inject_Z s / inject_Z t))%Q ->
  3 * t < 10 * s.
Proof.
  intros T L.
  destruct (Z_lt_le_dec (3 * t) (10 * s)) as [| G]; [assumption |].
  assert (B : (binary64 (inject_Z s / inject_Z t) <= binary64 (3 # 10))%Q).
  { apply binary64_mono, Qle_shift_div_r.
    - unfold Qlt. simpl. lia.
    - unfold Qle, Qmult, inject_Z. cbn [Qnum Qden]. lia. }
  lra.
Qed.

(** The percentage of a float rate above the float [0.3] is at least 30. *)
Lemma rate_pct_above (r : Q) :
  (binary64 (3 # 10) < r)%Q -> 30 <= round (binary64 (r * 100)).
Proof.
  intros L.
  apply (Z.le_trans _ (round (binary64 (binary64 (3 # 10) * 100)))).
  - vm_compute. discriminate.
  - apply round_mono, binary64_mono, Qmult_le_compat_r;
      [apply Qlt_le_weak; exact L | discriminate].
Qed.

(** The percentage is the one of the floats: 23 skips in 40 plays are a
    float product of 57.49999999999999, stored as 57, where the exact 57.5
    would round to 58. *)
Lemma skip_rate_below_a_tie :
  round (binary64 (binary64 (inject_Z 23 / inject_Z 40) * 100)) = 57
  /\ round (inject_Z 23 / inject_Z 40 * 100) = 58.
Proof. split; vm_compute; reflexivity. Qed.

(** What [candidates] holds: the entries of the table with enough plays and
    a rate above the threshold. *)
Lemma skip_candidates_In (min_plays : Z) (table : list (string * skip_stats))
    (e : skip_entry) :
  In e (skip_candidates min_plays table) ->
  exists k s,
    In (k, s) table
    /\ min_plays <= sk_total_plays s
    /\ (binary64 (3 # 10) < skip_rate_of s)%Q
    /\ e = {| se_track := sk_name s;
              se_artist := sk_artist s;
              se_total_plays := sk_total_plays s;
              se_skipped := sk_skipped s;
              se_skip_rate := round (binary64 (skip_rate_of s * 100)) |}.
Proof.
  unfold skip_candidates.
  assert (G : forall acc,
    In e (fold_left
            (fun candidates kv =>
               let stats := snd kv in
               if min_plays <=? sk_total_plays stats then
                 let skip_rate := skip_rate_of stats in
                 if ltb (binary64 (3 # 10)) skip_rate then
                   candidates ++
                   [ {| se_track := sk_name stats;
                        se_artist := sk_artist stats;
                        se_total_plays := sk_total_plays stats;
                        se_skipped := sk_skipped stats;
                        se_skip_rate := round (binary64 (skip_rate * 100)) |} ]
                 else candidates
               else candidates)
            table acc) ->
    In e acc \/
    exists k s,
      In (k, s) table
      /\ min_plays <= sk_total_plays s
      /\ (binary64 (3 # 10) < skip_rate_of s)%Q
      /\ e = {| se_track := sk_name s;
                se_artist := sk_artist s;
                se_total_plays := sk_total_plays s;
                se_skipped := sk_skipped s;
                se_skip_rate := round (binary64 (skip_rate_of s * 100)) |}).
  { induction table as [| [k s] table IH]; intros acc I; simpl in I.
    - left. exact I.
    - apply IH in I. destruct I as [I | (k' & s' & I & R)].
      + destruct (min_plays <=? sk_total_plays s) eqn:M;
          [| left; exact I].
        destruct (ltb (binary64 (3 # 10)) (skip_rate_of s)) eqn:L;
          [| left; exact I].
        apply in_app_or in I. destruct I as [I | [<- | []]];
          [left; exact I |].
        right. exists k, s. repeat split.
        * left. reflexivity.
        * apply Z.leb_le. exact M.
        * apply ltb_lt. exact L.
      + right. exists k', s'. split; [right; exact I | exact R]. }
  intros I. destruct (G [] I) as [[] | R]. exact R.
Qed.

(** C2, as the code has it: every entry of the skipped-tracks output counts
    the plays and the skips of the events under its key, has at least 10
    plays and skips in more than 30% of them, and its [skip_rate] field, the
    float product of the float rate and 100 rounded to an integer, is at
    least 30 (30 itself is reached); the output is in descending order of
    that field and has at most 10 entries. *)
Theorem skipped_tracks_filtered (data : list event) :
  (List.length (calculate_skipped_tracks data 10 10) <= 10)%nat
  /\ descending se_skip_rate (calculate_skipped_tracks data 10 10)
  /\ forall e, In e (calculate_skipped_tracks data 10 10) ->
       se_total_plays e = len (plays_of (se_track e) (se_artist e) data)
       /\ se_skipped e
          = len (filter counts_as_skip
                   (plays_of (se_track e) (se_artist e) data))
       /\ 10 <= se_total_plays e
       /\ 3 * se_total_plays e < 10 * se_skipped e
       /\ se_skip_rate e
          = round (binary64
                     (binary64 (inject_Z (se_skipped e)
                                / inject_Z (se_total_plays e)) * 100))
       /\ 30 <= se_skip_rate e.
Proof.
  unfold calculate_skipped_tracks. split; [apply firstn_le_length | split].
  - apply descending_firstn, sorted_desc_descending.
  - intros e I.
    assert (I' : In e (skip_candidates 10 (skip_table data))).
    { apply (Permutation_in e (sorted_desc_perm se_skip_rate _)).
      rewrite <- (firstn_skipn 10 (sorted_desc _ _)).
      apply in_or_app. left. exact I. }
    destruct (skip_candidates_In _ _ _ I') as (k & s & Is & M & R & ->).
    destruct (skip_table_entry _ _ _ Is) as (Ek & T & S & P).
    unfold plays_of. simpl. rewrite <- Ek.
    repeat split; try assumption.
    + apply rate_above; assumption.
    + apply rate_pct_above. exact R.
Qed.

Lemma skipped_tracks_filtered_witness :
  exists e, In e (calculate_skipped_tracks Sample.skipped_7_of_23 10 10)
            /\ 10 <= se_total_plays e /\ 30 <= se_skip_rate e.
Proof.
  pose proof (skipped_tracks_filtered Sample.skipped_7_of_23) as (_ & _ & H).
  remember (calculate_skipped_tracks Sample.skipped_7_of_23 10 10) as out
    eqn:E in *.
  vm_compute in E. subst out.
  eexists. split; [left; reflexivity |].
  split; apply H; left; reflexivity.
Defined.

(** C2 as stated fails: 7 skips in 23 plays are a rate of 30.4%, which the
    filter keeps and the output rounds to a [skip_rate] of 30. *)
Lemma skip_rate_of_30_is_kept :
  exists e, In e (calculate_skipped_tracks Sample.skipped_7_of_23 10 10)
            /\ se_total_plays e = 23 /\ se_skipped e = 7
            /\ ~ 30 < se_skip_rate e.
Proof.
  remember (calculate_skipped_tracks Sample.skipped_7_of_23 10 10) as out
    eqn:E.
  vm_compute in E. subst out.
  eexists. split; [left; reflexivity |].
  repeat split. vm_compute. discriminate.
Qed.

(** ** Top artists and top tracks *)

Lemma comprehension_ext {A B : Type} (f g : A -> res B) (l : list A) :
  (forall x, f x = g x) -> comprehension f l = comprehension g l.
Proof.
  intros E. induction l as [| x l IH]; simpl.
  - reflexivity.
  - rewrite E, IH. reflexivity.
Qed.

Lemma comprehension_Ok {A B : Type} (f : A -> res B) (l : list A)
    (out : list B) :
  comprehension f l = Ok out -> Forall2 (fun x y => f x = Ok y) l out.
Proof.
  revert out. induction l as [| x l IH]; simpl; intros out.
  - intros [= <-]. constructor.
  - destruct (f x) as [y |] eqn:Fx; simpl; [| discriminate].
    destruct (comprehension f l) as [ys |]; simpl; [| discriminate].
    intros [= <-]. constructor; [exact Fx | apply IH; reflexivity].
Qed.

Lemma comprehension_total {A B : Type} (f : A -> res B) (l : list A) :
  (forall x, In x l -> exists y, f x = Ok y) ->
  exists out, comprehension f l = Ok out.
Proof.
  induction l as [| x l IH]; simpl; intros T.
  - eexists. reflexivity.
  - destruct (T x (or_introl eq_refl)) as [y ->].
    destruct IH as [ys ->]; [intros z Iz; apply T; right; exact Iz |].
    eexists. reflexivity.
Qed.

Lemma pct_of_top (m : Z) : m <> 0 -> pct_of m m = Ok 100.
Proof.
  intros N. unfold pct_of, truediv.
  rewrite (proj2 (Z.eqb_neq m 0) N). simpl. f_equal.
  transitivity (round (inject_Z 100)); [| apply round_inject_Z].
  apply round_comp. change (inject_Z 100) with 100%Q. field.
  unfold Qeq. simpl. lia.
Qed.

Lemma pct_of_Ok (m max_ms : Z) : max_ms <> 0 -> exists p, pct_of m max_ms = Ok p.
Proof.
  intros N. unfold pct_of, truediv.
  rewrite (proj2 (Z.eqb_neq max_ms 0) N). simpl. eexists. reflexivity.
Qed.

Section Ranking.

(** A ranked list [top] of items with their summed milliseconds, turned into
    output entries that carry a percentage of the first one. *)
Context {X E : Type}.
Variable ms_of_rank : X -> Z.
Variable entry : X -> Z -> E.
Variable pct : E -> Z.
Hypothesis pct_entry : forall x p, pct (entry x p) = p.

Let max_ms (top : list X) : Z :=
  match top with
  | x :: _ => ms_of_rank x
  | [] => 1
  end.

Let render (top : list X) : res (list E) :=
  comprehension
    (fun x => p <- pct_of (ms_of_rank x) (max_ms top) ;; Ok (entry x p)) top.

Lemma render_returns (top : list X) :
  (forall x, hd_error top = Some x -> ms_of_rank x <> 0) ->
  exists out, render top = Ok out.
Proof.
  intros N. apply comprehension_total. intros x _.
  destruct (@pct_of_Ok (ms_of_rank x) (max_ms top)) as [p ->].
  - destruct top as [| x0 top]; simpl; [lia | apply N; reflexivity].
  - eexists. reflexivity.
Qed.

Lemma render_entries (top : list X) (out : list E) :
  render top = Ok out ->
  Forall2 (fun x e => exists p, e = entry x p) top out
  /\ forall e, hd_error out = Some e -> pct e = 100.
Proof.
  intros R. pose proof (comprehension_Ok _ _ R) as F. split.
  - eapply Forall2_impl; [| exact F]. simpl. intros x e.
    destruct (pct_of _ _) as [p |]; simpl; [| discriminate].
    intros [= <-]. exists p. reflexivity.
  - destruct top as [| x top'].
    + inversion F. discriminate.
    + inversion F as [| ? e ? out' Fx F']. subst. simpl.
      intros e' [= <-]. simpl in Fx.
      destruct (Z.eq_dec (ms_of_rank x) 0) as [Z0 | N].
      * rewrite Z0 in Fx. discriminate.
      * rewrite (pct_of_top N) in Fx. simpl in Fx.
        injection Fx as <-. apply pct_entry.
Qed.

End Ranking.

Lemma artist_time_entry (data : list event) (a : string) (s : time_stats) :
  In (a, s) (artist_time data) ->
  ms s = listened (plays_by a data) /\ plays s = len (plays_by a data).
Proof.
  intros I.
  apply (group_In time_default artist_of time_step _ (fun _ _ => eq_refl))
    in I.
  change s with (value time_default (Some s)). rewrite <- I.
  unfold listened, plays_by. split.
  - rewrite grow_measure with (w := ms_of); [reflexivity |].
    apply Forall_forall. reflexivity.
  - rewrite grow_measure with (w := fun _ => 1); [apply sum_ones |].
    apply Forall_forall. reflexivity.
Qed.

Lemma track_time_step_ms (x : event) (k : string) :
  has_key pair_key k x = true ->
  forall v, tk_ms (track_time_step x v) = tk_ms v + ms_of x.
Proof.
  unfold has_key, pair_key, track_time_step.
  destruct (pair_names x) as [[track artist] |]; [reflexivity | discriminate].
Qed.

Lemma track_time_step_plays (x : event) (k : string) :
  has_key pair_key k x = true ->
  forall v, tk_plays (track_time_step x v) = tk_plays v + 1.
Proof.
  unfold has_key, pair_key, track_time_step.
  destruct (pair_names x) as [[track artist] |]; [reflexivity | discriminate].
Qed.

Lemma track_time_step_key (x : event) (k : string) :
  has_key pair_key k x = true ->
  forall v, k = track_key (tk_name (track_time_step x v))
                          (tk_artist (track_time_step x v)).
Proof.
  unfold has_key, pair_key, track_time_step.
  destruct (pair_names x) as [[track artist] |]; [| discriminate].
  intros E v. apply String.eqb_eq in E. exact E.
Qed.

Lemma track_time_entry (data : list event) (k : string) (s : track_stats) :
  In (k, s) (track_time data) ->
  k = track_key (tk_name s) (tk_artist s)
  /\ tk_ms s = listened (plays_of (tk_name s) (tk_artist s) data)
  /\ tk_plays s = len (plays_of (tk_name s) (tk_artist s) data).
Proof.
  intros I.
  apply (group_In track_time_default pair_key track_time_step _
           (fun _ _ => eq_refl)) in I.
  set (group := filter (has_key pair_key k) data) in *.
  assert (G : Forall (fun x => has_key pair_key k x = true) group).
  { apply Forall_forall. intros x Ix. apply filter_In in Ix. apply Ix. }
  assert (M : tk_ms (value track_time_default (Some s)) = listened group).
  { rewrite <- I, grow_measure with (w := ms_of); [reflexivity |].
    eapply Forall_impl; [| exact G]. intros x. apply track_time_step_ms. }
  assert (P : tk_plays (value track_time_default (Some s)) = len group).
  { rewrite <- I, grow_measure with (w := fun _ => 1); [apply sum_ones |].
    eapply Forall_impl; [| exact G]. intros x. apply track_time_step_plays. }
  simpl in M, P.
  destruct (grow_last _ _ _ I) as (l' & x & E & Es).
  assert (Gx : has_key pair_key k x = true).
  { rewrite Forall_forall in G. apply G. rewrite E.
    apply in_or_app. right. left. reflexivity. }
  assert (Ek : k = track_key (tk_name s) (tk_artist s)).
  { rewrite Es. apply track_time_step_key. exact Gx. }
  unfold plays_of. rewrite <- Ek. auto.
Qed.

Lemma ranked_In {A : Type} (key : A -> Z) (n : nat) (l : list A) (x : A) :
  In x (firstn n (sorted_desc key l)) -> In x l.
Proof.
  intros I. apply (Permutation_in x (sorted_desc_perm key l)).
  rewrite <- (firstn_skipn n (sorted_desc key l)).
  apply in_or_app. left. exact I.
Qed.

Lemma Forall2_length_le {A B : Type} (R : A -> B -> Prop) (l : list A)
    (l' : list B) (n : nat) :
  Forall2 R l l' -> (List.length l <= n)%nat -> (List.length l' <= n)%nat.
Proof. intros F. rewrite (Forall2_length F). trivial. Qed.

(** ** Order of first appearance *)

Lemma filter_filter {A : Type} (p q : A -> bool) (l : list A) :
  filter p (filter q l) = filter (fun x => q x && p x) l.
Proof.
  induction l as [| x l IH]; simpl; [reflexivity |].
  destruct (q x); simpl; [destruct (p x) |]; rewrite ?IH; reflexivity.
Qed.

Section FirstSeen.

Context {K : Type} `{KeyOk K}.

Lemma filter_ext_in' {X : Type} (p q : X -> bool) (l : list X) :
  (forall x, In x l -> p x = q x) -> filter p l = filter q l.
Proof.
  induction l as [| x l IH]; simpl; intros E; [reflexivity |].
  rewrite (E x (or_introl eq_refl)), IH; [reflexivity |].
  intros y Iy. apply E. right. exact Iy.
Qed.

Lemma mem_app (k : K) (s s' : list K) : mem k (s ++ s') = mem k s || mem k s'.
Proof.
  induction s as [| x s IH]; simpl; [reflexivity |].
  rewrite IH. apply orb_assoc.
Qed.

(** A set grown by [add] over a list holds, after what it held before, the
    new members in the order of their first appearance. *)
Lemma set_fold_first_seen (l : list K) (acc : list K) :
  fold_left (fun s k => set_add k s) l acc
  = acc ++ filter (fun y => negb (mem y acc)) (first_seen l).
Proof.
  revert acc. induction l as [| x l IH]; intros acc; simpl.
  - rewrite app_nil_r. reflexivity.
  - rewrite IH. unfold set_add. destruct (mem x acc) eqn:M; simpl.
    + f_equal. rewrite filter_filter. apply filter_ext_in'. intros y _.
      destruct (keyb y x) eqn:E; simpl; [| reflexivity].
      apply keyb_spec in E. subst y. rewrite M. reflexivity.
    + rewrite <- app_assoc. simpl. do 2 f_equal.
      rewrite filter_filter. apply filter_ext_in'. intros y _.
      rewrite mem_app. simpl. rewrite orb_false_r, negb_orb.
      apply andb_comm.
Qed.

End FirstSeen.

Section GroupKeys.

Context {A K V : Type} `{KeyOk K}.

Variable d0 : V.
Variable keyf : A -> option K.
Variable step : A -> V -> V.
Variable f : list (K * V) -> A -> list (K * V).

Hypothesis f_step : forall d item,
  f d item = match keyf item with
             | Some k => dict_update k d0 (step item) d
             | None => d
             end.

Lemma group_keys_from (data : list A) (d : list (K * V)) :
  map fst (fold_left f data d)
  = fold_left (fun s k => set_add k s) (filed_keys keyf data) (map fst d).
Proof.
  revert d. induction data as [| x data IH]; intros d; simpl.
  - reflexivity.
  - rewrite IH, f_step. unfold filed_keys. simpl.
    destruct (keyf x) as [k |]; simpl; [| reflexivity].
    rewrite dict_update_keys. reflexivity.
Qed.

(** The keys of the dict are in the order in which they were first filed. *)
Lemma group_keys (data : list A) :
  map fst (fold_left f data []) = first_seen (filed_keys keyf data).
Proof.
  rewrite group_keys_from, set_fold_first_seen. simpl.
  induction (first_seen (filed_keys keyf data)) as [| x l IH]; simpl;
    [| rewrite IH]; reflexivity.
Qed.

End GroupKeys.

Section Stability.

Context {A : Type}.
Variable key : A -> Z.

Lemma insert_by_ties (m : Z) (x : A) (l : list A) :
  filter (fun y => key y =? m) (insert_by (fun y x => key x <? key y) x l)
  = filter (fun y => key y =? m) (x :: l).
Proof.
  induction l as [| y l IH]; simpl; [reflexivity |].
  destruct (key x <? key y) eqn:L; simpl; [| reflexivity].
  apply Z.ltb_lt in L. rewrite IH. simpl.
  destruct (key x =? m) eqn:Ex; destruct (key y =? m) eqn:Ey;
    try reflexivity.
  apply Z.eqb_eq in Ex, Ey. lia.
Qed.

(** [sorted] is stable: the items with one value of the key come out in the
    order they went in. *)
Lemma sorted_desc_stable (m : Z) (l : list A) :
  filter (fun y => key y =? m) (sorted_desc key l)
  = filter (fun y => key y =? m) l.
Proof.
  unfold sorted_desc. induction l as [| x l IH]; simpl; [reflexivity |].
  rewrite insert_by_ties. simpl. rewrite IH. reflexivity.
Qed.

End Stability.

Lemma filter_map_fst {K V : Type} (p : K * V -> bool) (q : K -> bool)
    (l : list (K * V)) :
  (forall x, In x l -> p x = q (fst x)) ->
  map fst (filter p l) = filter q (map fst l).
Proof.
  induction l as [| x l IH]; simpl; intros E; [reflexivity |].
  rewrite <- (E x (or_introl eq_refl)).
  destruct (p x); simpl; rewrite IH; try reflexivity;
    intros y Iy; apply E; right; exact Iy.
Qed.

(** Among the groups with one total, the ranked ones are the first in the
    order of the dict, in that order. *)
Lemma ranked_ties {K V : Type} (key : K * V -> Z) (total : K -> Z)
    (n : nat) (table : list (K * V)) (m : Z) :
  (forall x, In x table -> key x = total (fst x)) ->
  exists rest,
    filter (fun k => total k =? m) (map fst table)
    = map fst (filter (fun x => key x =? m)
                      (firstn n (sorted_desc key table))) ++ rest.
Proof.
  intros E.
  exists (map fst (filter (fun x => key x =? m)
                          (skipn n (sorted_desc key table)))).
  rewrite <- map_app, <- filter_app, firstn_skipn, sorted_desc_stable.
  symmetry. apply filter_map_fst. intros x Ix. rewrite (E x Ix). reflexivity.
Qed.

Lemma top_artists_ties (data : list event) (limit : nat) (m : Z) :
  exists rest,
    filter (fun a => listened (plays_by a data) =? m)
           (first_seen (filed_keys artist_of data))
    = map fst (filter (fun x => ms (snd x) =? m)
                      (top_artists_ranked data limit)) ++ rest.
Proof.
  unfold top_artists_ranked.
  rewrite <- (group_keys time_default artist_of time_step _
                (fun _ _ => eq_refl)).
  apply (ranked_ties (fun x => ms (snd x))
                     (fun a => listened (plays_by a data))).
  intros [a s] I. apply artist_time_entry in I. apply I.
Qed.

Lemma top_tracks_ties (data : list event) (limit : nat) (m : Z) :
  exists rest,
    filter (fun k => listened (filter (has_key pair_key k) data) =? m)
           (first_seen (filed_keys pair_key data))
    = map (fun x => track_key (tk_name (snd x)) (tk_artist (snd x)))
          (filter (fun x => tk_ms (snd x) =? m)
                  (top_tracks_ranked data limit)) ++ rest.
Proof.
  unfold top_tracks_ranked.
  rewrite <- (group_keys track_time_default pair_key track_time_step _
                (fun _ _ => eq_refl)).
  destruct (@ranked_ties _ _ (fun x => tk_ms (snd x))
              (fun k => listened (filter (has_key pair_key k) data))
              limit (track_time data) m) as [rest R].
  - intros [k s] I. apply track_time_entry in I.
    destruct I as (-> & M & _). exact M.
  - exists rest. etransitivity; [exact R |]. f_equal. apply map_ext_in.
    intros [k s] I. apply filter_In in I. destruct I as [I _].
    apply ranked_In, track_time_entry in I. apply I.
Qed.

Lemma top_artists_ranking (data : list event) (limit : nat) :
  descending (fun x => ms (snd x)) (top_artists_ranked data limit)
  /\ Forall (fun x => ms (snd x) = listened (plays_by (fst x) data))
            (top_artists_ranked data limit)
  /\ ((forall x, hd_error (top_artists_ranked data limit) = Some x ->
                 ms (snd x) <> 0) ->
      exists out, calculate_top_artists data limit = Ok out)
  /\ forall out, calculate_top_artists data limit = Ok out ->
       (List.length out <= limit)%nat
       /\ Forall2 (fun x e => ta_artist e = fst x /\ ta_plays e = plays (snd x))
                  (top_artists_ranked data limit) out
       /\ forall e, hd_error out = Some e -> ta_pct e = 100.
Proof.
  set (entry := fun (x : string * time_stats) (p : Z) =>
         {| ta_artist := fst x;
            ta_minutes := round (inject_Z (ms (snd x)) / 60000);
            ta_hours := round_to 1 (inject_Z (ms (snd x)) / 3600000);
            ta_plays := plays (snd x);
            ta_pct := p |}).
  assert (C : calculate_top_artists data limit
              = comprehension
                  (fun x => p <- pct_of (ms (snd x))
                                  match top_artists_ranked data limit with
                                  | [] => 1
                                  | x0 :: _ => ms (snd x0)
                                  end ;;
                            Ok (entry x p))
                  (top_artists_ranked data limit)).
  { unfold calculate_top_artists. apply comprehension_ext.
    intros [a s]. reflexivity. }
  rewrite C. clear C. split; [| split; [| split]].
  - apply descending_firstn, sorted_desc_descending.
  - apply Forall_forall. intros [a s] I. apply ranked_In in I.
    apply artist_time_entry in I. apply I.
  - apply (render_returns (fun x => ms (snd x)) entry).
  - intros out R.
    apply (render_entries (fun x => ms (snd x)) entry ta_pct) in R;
      [| reflexivity].
    destruct R as [F P]. split; [| split].
    + eapply Forall2_length_le; [exact F | apply firstn_le_length].
    + eapply Forall2_impl; [| exact F]. simpl.
      intros x e [p ->]. split; reflexivity.
    + exact P.
Qed.

Lemma top_tracks_ranking (data : list event) (limit : nat) :
  descending (fun x => tk_ms (snd x)) (top_tracks_ranked data limit)
  /\ Forall (fun x => tk_ms (snd x)
                      = listened (plays_of (tk_name (snd x))
                                           (tk_artist (snd x)) data))
            (top_tracks_ranked data limit)
  /\ ((forall x, hd_error (top_tracks_ranked data limit) = Some x ->
                 tk_ms (snd x) <> 0) ->
      exists out, calculate_top_tracks data limit = Ok out)
  /\ forall out, calculate_top_tracks data limit = Ok out ->
       (List.length out <= limit)%nat
       /\ Forall2 (fun x e => tt_track e = tk_name (snd x)
                              /\ tt_artist e = tk_artist (snd x)
                              /\ tt_plays e = tk_plays (snd x))
                  (top_tracks_ranked data limit) out
       /\ forall e, hd_error out = Some e -> tt_pct e = 100.
Proof.
  set (entry := fun (x : string * track_stats) (p : Z) =>
         {| tt_track := tk_name (snd x);
            tt_artist := tk_artist (snd x);
            tt_minutes := round (inject_Z (tk_ms (snd x)) / 60000);
            tt_hours := round_to 1 (inject_Z (tk_ms (snd x)) / 3600000);
            tt_plays := tk_plays (snd x);
            tt_pct := p |}).
  change (calculate_top_tracks data limit)
    with (comprehension
            (fun x => p <- pct_of (tk_ms (snd x))
                            match top_tracks_ranked data limit with
                            | [] => 1
                            | x0 :: _ => tk_ms (snd x0)
                            end ;;
                      Ok (entry x p))
            (top_tracks_ranked data limit)).
  split; [| split; [| split]].
  - apply descending_firstn, sorted_desc_descending.
  - apply Forall_forall. intros [k s] I. apply ranked_In in I.
    apply track_time_entry in I. apply I.
  - apply (render_returns (fun x => tk_ms (snd x)) entry).
  - intros out R.
    apply (render_entries (fun x => tk_ms (snd x)) entry tt_pct) in R;
      [| reflexivity].
    destruct R as [F P]. split; [| split].
    + eapply Forall2_length_le; [exact F | apply firstn_le_length].
    + eapply Forall2_impl; [| exact F]. simpl.
      intros x e [p ->]. repeat split; reflexivity.
    + exact P.
Qed.

(** C3, as the code has it: [top] of [calculate_top_artists] and of
    [calculate_top_tracks] is in descending order of the summed milliseconds
    of its groups, ties allowed, and equal sums keep the order of first
    appearance: for every sum [m], the ranked groups with the sum [m] are, in
    their order, the first of the groups with that sum in the order in which
    the groups first appear in the history.  The function returns whenever
    the first sum is not 0 (and on no entries at all, where the denominator
    is 1); and whatever it returns has at most 5 entries, one per ranked
    group in that order, the first with [pct = 100]. *)
Theorem top_lists_ranked (data : list event) :
  (descending (fun x => ms (snd x)) (top_artists_ranked data 5)
   /\ Forall (fun x => ms (snd x) = listened (plays_by (fst x) data))
             (top_artists_ranked data 5)
   /\ (forall m, exists rest,
         filter (fun a => listened (plays_by a data) =? m)
                (first_seen (filed_keys artist_of data))
         = map fst (filter (fun x => ms (snd x) =? m)
                           (top_artists_ranked data 5)) ++ rest)
   /\ ((forall x, hd_error (top_artists_ranked data 5) = Some x ->
                  ms (snd x) <> 0) ->
       exists out, calculate_top_artists data 5 = Ok out)
   /\ forall out, calculate_top_artists data 5 = Ok out ->
        (List.length out <= 5)%nat
        /\ Forall2 (fun x e => ta_artist e = fst x
                               /\ ta_plays e = plays (snd x))
                   (top_artists_ranked data 5) out
        /\ forall e, hd_error out = Some e -> ta_pct e = 100)
  /\ (descending (fun x => tk_ms (snd x)) (top_tracks_ranked data 5)
      /\ Forall (fun x => tk_ms (snd x)
                          = listened (plays_of (tk_name (snd x))
                                               (tk_artist (snd x)) data))
                (top_tracks_ranked data 5)
      /\ (forall m, exists rest,
            filter (fun k => listened (filter (has_key pair_key k) data) =? m)
                   (first_seen (filed_keys pair_key data))
            = map (fun x => track_key (tk_name (snd x)) (tk_artist (snd x)))
                  (filter (fun x => tk_ms (snd x) =? m)
                          (top_tracks_ranked data 5)) ++ rest)
      /\ ((forall x, hd_error (top_tracks_ranked data 5) = Some x ->
                     tk_ms (snd x) <> 0) ->
          exists out, calculate_top_tracks data 5 = Ok out)
      /\ forall out, calculate_top_tracks data 5 = Ok out ->
           (List.length out <= 5)%nat
           /\ Forall2 (fun x e => tt_track e = tk_name (snd x)
                                  /\ tt_artist e = tk_artist (snd x)
                                  /\ tt_plays e = tk_plays (snd x))
                      (top_tracks_ranked data 5) out
           /\ forall e, hd_error out = Some e -> tt_pct e = 100).
Proof.
  destruct (top_artists_ranking data 5) as (A1 & A2 & A3 & A4).
  destruct (top_tracks_ranking data 5) as (B1 & B2 & B3 & B4).
  split; (split; [assumption | split; [assumption | split]]).
  - intros m. apply top_artists_ties.
  - split; assumption.
  - intros m. apply top_tracks_ties.
  - split; assumption.
Qed.

Lemma top_lists_ranked_witness :
  exists out e,
    calculate_top_artists Sample.three_months 5 = Ok out
    /\ hd_error out = Some e /\ ta_pct e = 100.
Proof.
  destruct (top_lists_ranked Sample.three_months) as [(_ & _ & _ & _ & H) _].
  eexists. eexists. split; [reflexivity |]. split; [reflexivity |].
  apply (proj2 (proj2 (H _ eq_refl))). reflexivity.
Defined.

(** C3 as stated fails: two artists with the same summed milliseconds are
    both listed, so the order is not strict. *)
Lemma tied_artists_are_not_strictly_descending :
  (exists out, calculate_top_artists Sample.tie 5 = Ok out
               /\ map ta_artist out = [ "Ana"; "Beto" ]%string)
  /\ map (fun x => ms (snd x)) (top_artists_ranked Sample.tie 5)
     = [ 1000; 1000 ]
  /\ ~ strictly_descending (fun x => ms (snd x))
         (top_artists_ranked Sample.tie 5).
Proof.
  split; [eexists; split; reflexivity | split; [reflexivity |]].
  intros S. unfold strictly_descending in S. vm_compute in S.
  inversion S as [| x l _ F]. subst.
  inversion F as [| y l' L _]. discriminate L.
Qed.

(** ** Monthly trend *)

Lemma sorted_asc_ascending {A : Type} (key : A -> Z) (l : list A) :
  StronglySorted (fun a b => key a <= key b) (sorted_asc key l).
Proof.
  unfold sorted_asc. induction l as [| x l IH]; simpl.
  - constructor.
  - revert IH. generalize (fold_right (insert_by (fun y x => key y <? key x)) [] l).
    intros s S. induction S as [| y s S IH F]; simpl.
    + repeat constructor.
    + destruct (key y <? key x) eqn:E.
      * apply Z.ltb_lt in E. constructor; [exact IH |].
        apply (Permutation_Forall (Permutation_sym (insert_by_perm _ x s))).
        constructor; [lia | exact F].
      * apply Z.ltb_ge in E. constructor.
        -- constructor; assumption.
        -- constructor; [exact E |].
           eapply Forall_impl; [| exact F]. simpl. intros; lia.
Qed.

(** Sorted keys without a duplicate are strictly sorted. *)
Lemma ascending_NoDup_strict (l : list Z) :
  StronglySorted Z.le l -> NoDup l -> StronglySorted Z.lt l.
Proof.
  induction 1 as [| x l S IH F]; intros N.
  - constructor.
  - inversion N as [| ? ? Nx N']. subst. constructor; [apply IH, N' |].
    rewrite Forall_forall in *. intros y Iy.
    specialize (F y Iy). assert (x <> y) by (intros ->; contradiction). lia.
Qed.

Lemma StronglySorted_map {A B : Type} (R : B -> B -> Prop) (f : A -> B)
    (l : list A) :
  StronglySorted (fun a b => R (f a) (f b)) l -> StronglySorted R (map f l).
Proof.
  induction 1 as [| x l S IH F]; simpl; constructor.
  - exact IH.
  - apply Forall_map. exact F.
Qed.

Lemma with_deltas_rows (prev : option Q) (rows : list month_row) :
  map dr_row (with_deltas prev rows) = rows.
Proof.
  revert prev. induction rows as [| r rows IH]; intros prev; simpl.
  - reflexivity.
  - rewrite IH. destruct prev; reflexivity.
Qed.

Lemma with_deltas_next (prev : option Q) (rows : list month_row) (i : nat)
    (p c : delta_row) :
  nth_error (with_deltas prev rows) i = Some p ->
  nth_error (with_deltas prev rows) (S i) = Some c ->
  dr_delta c = round_to 1 (mr_hours (dr_row c) - mr_hours (dr_row p))
  /\ ((mr_hours (dr_row p) == 0)%Q -> dr_delta_pct c = 0).
Proof.
  revert prev i. induction rows as [| r rows IH]; intros prev i; simpl.
  - destruct i; discriminate.
  - destruct i as [| i]; simpl.
    + intros [= <-]. destruct rows as [| r' rows]; simpl; [discriminate |].
      intros [= <-]. simpl.
      assert (H : mr_hours (dr_row match prev with
                                    | Some prev_hours =>
                                        {| dr_row := r;
                                           dr_delta := round_to 1 (mr_hours r - prev_hours);
                                           dr_delta_pct :=
                                             if ltb 0 prev_hours
                                             then round ((mr_hours r - prev_hours)
                                                         / prev_hours * 100)
                                             else 0 |}
                                    | None => {| dr_row := r; dr_delta := 0;
                                                 dr_delta_pct := 0 |}
                                    end) = mr_hours r)
        by (destruct prev; reflexivity).
      rewrite H. split; [reflexivity |].
      intros Z0. rewrite (ltb_false_0 Z0). reflexivity.
    + apply IH.
Qed.

Lemma mark_months_map (rows : list delta_row) :
  exists peak inflection : delta_row -> bool,
    mark_months rows
    = map (fun r => {| mt_month := mr_month (dr_row r);
                       mt_month_name := mr_month_name (dr_row r);
                       mt_plays := mr_plays (dr_row r);
                       mt_hours := mr_hours (dr_row r);
                       mt_delta := dr_delta r;
                       mt_delta_pct := dr_delta_pct r;
                       mt_is_peak := peak r;
                       mt_is_inflection := inflection r |}) rows.
Proof.
  destruct rows as [| r0 rest].
  - exists (fun _ => false), (fun _ => false). reflexivity.
  - eexists. eexists. unfold mark_months. reflexivity.
Qed.

Section TimeProperties.

Variable utc_to_pacific : string -> datetime.

(** The loops that file the events by a key of their local time are
    groupings under [option_map by_ (pacific_of item)]. *)
Lemma stats_by_step {K : Type} `{Key K} (by_ : datetime -> K)
    (d : list (K * time_stats)) (item : event) :
  match pacific_of utc_to_pacific item with
  | Some dt => dict_update (by_ dt) time_default (time_step item) d
  | None => d
  end
  = match option_map by_ (pacific_of utc_to_pacific item) with
    | Some k => dict_update k time_default (time_step item) d
    | None => d
    end.
Proof. destruct (pacific_of utc_to_pacific item); reflexivity. Qed.

Lemma filed_pacific {K : Type} (by_ : datetime -> K) (data : list event) :
  filter (filed (fun item => option_map by_ (pacific_of utc_to_pacific item)))
         data
  = filter has_timestamp data.
Proof.
  apply filter_ext. intros item.
  unfold filed, has_timestamp, pacific_of.
  destruct (truthy (get (ts item))); reflexivity.
Qed.

Lemma stats_by_plays {K : Type} `{KeyOk K} (by_ : datetime -> K)
    (data : list event) :
  sum (map (fun kv => plays (snd kv)) (stats_by utc_to_pacific by_ data))
  = len (filter has_timestamp data).
Proof.
  unfold stats_by.
  rewrite (group_total_from time_default
             (fun item => option_map by_ (pacific_of utc_to_pacific item))
             time_step _ (stats_by_step by_) plays eq_refl
             (fun _ _ => eq_refl) data []).
  rewrite filed_pacific. reflexivity.
Qed.

Lemma stats_by_NoDup {K : Type} `{KeyOk K} (by_ : datetime -> K)
    (data : list event) :
  NoDup (map fst (stats_by utc_to_pacific by_ data)).
Proof.
  unfold stats_by.
  apply (group_NoDup time_default
           (fun item => option_map by_ (pacific_of utc_to_pacific item))
           time_step _ (stats_by_step by_)).
Qed.

Lemma monthly_trend_map (data : list event) :
  exists peak inflection : delta_row -> bool,
    calculate_monthly_trend utc_to_pacific data
    = map (fun r => {| mt_month := mr_month (dr_row r);
                       mt_month_name := mr_month_name (dr_row r);
                       mt_plays := mr_plays (dr_row r);
                       mt_hours := mr_hours (dr_row r);
                       mt_delta := dr_delta r;
                       mt_delta_pct := dr_delta_pct r;
                       mt_is_peak := peak r;
                       mt_is_inflection := inflection r |})
          (with_deltas None (month_rows utc_to_pacific data)).
Proof. apply mark_months_map. Qed.

Lemma monthly_trend_months (data : list event) :
  map mt_month (calculate_monthly_trend utc_to_pacific data)
  = map fst (sorted_asc fst (stats_by utc_to_pacific month data)).
Proof.
  destruct (monthly_trend_map data) as (peak & inflection & ->).
  rewrite map_map. simpl.
  rewrite <- (map_map dr_row mr_month), with_deltas_rows.
  unfold month_rows. rewrite map_map. reflexivity.
Qed.


(** C4: the monthly trend has one entry per month, in month order; its first
    entry has [delta = 0] and [delta_pct = 0]; every later entry's [delta]
    is [round(hours - previous hours, 1)] against the entry just before it,
    and its [delta_pct] is 0 when those previous hours are 0. *)
Theorem monthly_trend_deltas (data : list event) :
  StronglySorted Z.lt
    (map mt_month (calculate_monthly_trend utc_to_pacific data))
  /\ (forall e, hd_error (calculate_monthly_trend utc_to_pacific data) = Some e ->
        mt_delta e = 0%Q /\ mt_delta_pct e = 0)
  /\ (forall i p c,
        nth_error (calculate_monthly_trend utc_to_pacific data) i = Some p ->
        nth_error (calculate_monthly_trend utc_to_pacific data) (S i) = Some c ->
        mt_delta c = round_to 1 (mt_hours c - mt_hours p)
        /\ ((mt_hours p == 0)%Q -> mt_delta_pct c = 0)).
Proof.
  split; [| split].
  - rewrite monthly_trend_months.
    apply ascending_NoDup_strict.
    + apply StronglySorted_map, sorted_asc_ascending.
    + apply (Permutation_NoDup
               (Permutation_map fst
                  (Permutation_sym (sorted_asc_perm fst _)))).
      apply stats_by_NoDup.
  - destruct (monthly_trend_map data) as (peak & inflection & ->).
    destruct (month_rows utc_to_pacific data) as [| r rows]; simpl.
    + discriminate.
    + intros e [= <-]. split; reflexivity.
  - destruct (monthly_trend_map data) as (peak & inflection & ->).
    intros i p c Hp Hc. rewrite nth_error_map in Hp, Hc.
    destruct (nth_error (with_deltas None (month_rows utc_to_pacific data)) i)
      as [p' |] eqn:Ep; [| discriminate].
    destruct (nth_error (with_deltas None (month_rows utc_to_pacific data))
                (S i)) as [c' |] eqn:Ec; [| discriminate].
    injection Hp as <-. injection Hc as <-. simpl.
    exact (with_deltas_next _ _ _ Ep Ec).
Qed.

End TimeProperties.

Lemma monthly_trend_deltas_witness :
  exists p c,
    nth_error (calculate_monthly_trend Pacific.pacific_time Sample.three_months) 1
    = Some p
    /\ nth_error (calculate_monthly_trend Pacific.pacific_time Sample.three_months) 2
       = Some c
    /\ mt_delta c = round_to 1 (mt_hours c - mt_hours p).
Proof.
  destruct (monthly_trend_deltas Pacific.pacific_time Sample.three_months)
    as (_ & _ & H).
  destruct (nth_error (calculate_monthly_trend Pacific.pacific_time
                         Sample.three_months) 1) as [p |] eqn:Ep;
    [| vm_compute in Ep; discriminate].
  destruct (nth_error (calculate_monthly_trend Pacific.pacific_time
                         Sample.three_months) 2) as [c |] eqn:Ec;
    [| vm_compute in Ec; discriminate].
  exists p, c. split; [reflexivity |]. split; [reflexivity |].
  apply (H 1%nat p c Ep Ec).
Defined.

(** ** Events without a timestamp *)



Lemma fold_left_map {A B C : Type} (f : C -> B -> C) (g : A -> B)
    (l : list A) (c : C) :
  fold_left f (map g l) c = fold_left (fun c x => f c (g x)) l c.
Proof.
  revert c. induction l as [| x l IH]; intros c; simpl.
  - reflexivity.
  - apply IH.
Qed.



Section Timestamps.

Variable utc_to_pacific : string -> datetime.




End Timestamps.


(** ** Overview *)

Lemma total_ms_sum (data : list event) : total_ms data = listened data.
Proof.
  unfold total_ms, listened, sum. rewrite fold_left_map. reflexivity.
Qed.

Lemma set_fold {K : Type} `{KeyOk K} (l s0 : list K) :
  NoDup s0 ->
  NoDup (fold_left (fun s x => set_add x s) l s0)
  /\ forall x, In x (fold_left (fun s x => set_add x s) l s0)
               <-> In x s0 \/ In x l.
Proof.
  revert s0. induction l as [| y l IH]; intros s0 N; simpl.
  - split; [exact N | intuition].
  - destruct (IH (set_add y s0) (set_add_NoDup y N)) as [N' I'].
    split; [exact N' |].
    intros x. rewrite I', set_add_In. intuition.
Qed.

Lemma set_fold_distinct (l : list string) :
  len (fold_left (fun s x => set_add x s) l []) = distinct l.
Proof.
  unfold distinct, len. f_equal.
  destruct (set_fold l (NoDup_nil string)) as [N I].
  apply Permutation_length, NoDup_Permutation.
  - exact N.
  - apply NoDup_nodup.
  - intros x. rewrite I, nodup_In. simpl. intuition.
Qed.

Lemma overview_sets_from (data : list event) (a t : list string) :
  fold_left
    (fun (st : list string * list string) item =>
       (match truthy (get (master_metadata_album_artist_name item)) with
        | Some x => set_add x (fst st)
        | None => fst st
        end,
        match truthy (get (spotify_track_uri item)) with
        | Some u => set_add u (snd st)
        | None => snd st
        end))
    data (a, t)
  = (fold_left (fun s x => set_add x s)
       (truthy_values (map master_metadata_album_artist_name data)) a,
     fold_left (fun s x => set_add x s)
       (truthy_values (map spotify_track_uri data)) t).
Proof.
  revert a t. induction data as [| item data IH]; intros a t; simpl.
  - reflexivity.
  - rewrite IH. unfold truthy_values. simpl. rewrite !fold_left_app.
    destruct (truthy (get (master_metadata_album_artist_name item)));
      destruct (truthy (get (spotify_track_uri item))); reflexivity.
Qed.

(** [round(n / 60000)] is within half a minute of [n]. *)
Lemma minutes_near (n : Z) :
  -30000 <= n - round (inject_Z n / 60000) * 60000 <= 30000.
Proof.
  pose proof (round_near (inject_Z n / 60000)) as [Lo Hi].
  set (m := round (inject_Z n / 60000)) in *.
  assert (E : (inject_Z n / 60000 * 60000 == inject_Z n)%Q) by field.
  set (q := (inject_Z n / 60000)%Q) in *.
  assert (Lo' : (inject_Z (m * 60000 - 30000) <= inject_Z n)%Q).
  { unfold Z.sub. rewrite inject_Z_plus, inject_Z_mult, inject_Z_opp.
    change (inject_Z 60000) with 60000%Q.
    change (inject_Z 30000) with 30000%Q. lra. }
  assert (Hi' : (inject_Z n <= inject_Z (m * 60000 + 30000))%Q).
  { rewrite inject_Z_plus, inject_Z_mult.
    change (inject_Z 60000) with 60000%Q.
    change (inject_Z 30000) with 30000%Q. lra. }
  rewrite <- Zle_Qle in Lo', Hi'. lia.
Qed.

(** C5, as the code has it: [total_minutes] is the sum of [ms_played] over
    all events divided by 60000 and rounded, so that the sum is within
    30000 ms of [total_minutes * 60000]; [total_plays] is the number of
    events; [unique_artists] and [unique_tracks] count the distinct artist
    names and track URIs that are neither [null] nor empty; and the empty
    history gives zeros. *)
Theorem overview_totals (data : list event) :
  ov_total_minutes (calculate_overview data)
  = round (inject_Z (listened data) / 60000)
  /\ -30000 <= listened data - ov_total_minutes (calculate_overview data) * 60000
     <= 30000
  /\ ov_total_plays (calculate_overview data) = len data
  /\ ov_unique_artists (calculate_overview data)
     = distinct (truthy_values (map master_metadata_album_artist_name data))
  /\ ov_unique_tracks (calculate_overview data)
     = distinct (truthy_values (map spotify_track_uri data))
  /\ (ov_total_plays (calculate_overview []) = 0
      /\ ov_total_minutes (calculate_overview []) = 0
      /\ (ov_total_hours (calculate_overview []) == 0)%Q
      /\ (ov_total_days (calculate_overview []) == 0)%Q
      /\ ov_unique_artists (calculate_overview []) = 0
      /\ ov_unique_tracks (calculate_overview []) = 0).
Proof.
  unfold calculate_overview. simpl. rewrite total_ms_sum.
  unfold overview_sets. rewrite overview_sets_from. simpl.
  rewrite !set_fold_distinct.
  split; [reflexivity |]. split; [apply minutes_near |].
  repeat split; reflexivity.
Qed.

(** C5 as stated fails: an artist name that is the empty string is not
    [null], yet the guard [if item.get(...):] leaves it uncounted. *)
Lemma empty_artist_name_is_not_counted :
  distinct (non_null_values
              (map master_metadata_album_artist_name
                   [Sample.bare (Val ""%string)])) = 1
  /\ ov_unique_artists (calculate_overview [Sample.bare (Val ""%string)]) = 0.
Proof. split; reflexivity. Qed.

(** ** The listening-history aggregator *)

Lemma Permutation_filter' {A : Type} (p : A -> bool) (l l' : list A) :
  Permutation l l' -> Permutation (filter p l) (filter p l').
Proof.
  induction 1 as [| x l l' P IH | x y l | l l' l'' P1 IH1 P2 IH2]; simpl.
  - constructor.
  - destruct (p x); [constructor |]; exact IH.
  - destruct (p x), (p y); try reflexivity. apply perm_swap.
  - etransitivity; eassumption.
Qed.

Lemma listened_perm (l l' : list event) :
  Permutation l l' -> listened l = listened l'.
Proof. intros P. apply sum_perm, Permutation_map, P. Qed.

Lemma grow_from_some {A V : Type} (d0 : V) (step : A -> V -> V) (l : list A)
    (v : V) :
  fold_left (grow d0 step) l (Some v)
  = Some (value d0 (fold_left (grow d0 step) l (Some v))).
Proof.
  revert v. induction l as [| x l IH]; intros v; simpl.
  - reflexivity.
  - apply IH.
Qed.

(** What the aggregation holds for a group of events: nothing for no event,
    else the sum of their milliseconds and their number. *)
Lemma tally_group (l : list event) :
  option_map Fetch.tally
    (fold_left (grow Fetch.stat_default Fetch.stat_step) l None)
  = match l with
    | [] => None
    | _ => Some (listened l, len l)
    end.
Proof.
  destruct l as [| x l]; [reflexivity |].
  change (fold_left (grow Fetch.stat_default Fetch.stat_step) (x :: l) None)
    with (fold_left (grow Fetch.stat_default Fetch.stat_step) l
            (Some (Fetch.stat_step x Fetch.stat_default))).
  rewrite grow_from_some. simpl option_map. unfold Fetch.tally. f_equal.
  f_equal.
  - rewrite grow_measure with (w := ms_of);
      [| apply Forall_forall; reflexivity].
    unfold listened. simpl map. rewrite sum_cons. simpl. lia.
  - rewrite grow_measure with (w := fun _ => 1);
      [| apply Forall_forall; reflexivity].
    rewrite sum_ones. unfold len. simpl List.length. simpl value.
    simpl Fetch.st_play_count. lia.
Qed.

Lemma extract_tally (history : list event) (tid : string) :
  option_map Fetch.tally (dict_get tid (Fetch.extract_unique_tracks history))
  = match filter (has_key Fetch.track_id_of tid) history with
    | [] => None
    | group => Some (listened group, len group)
    end.
Proof.
  unfold Fetch.extract_unique_tracks.
  rewrite (group_get Fetch.stat_default Fetch.track_id_of Fetch.stat_step _
             (fun _ _ => eq_refl)).
  rewrite tally_group.
  destruct (filter (has_key Fetch.track_id_of tid) history); reflexivity.
Qed.

Lemma track_id_of_skipped (item : event) :
  get (spotify_track_uri item) = None
  \/ (exists uri, get (spotify_track_uri item) = Some uri
                  /\ prefix "spotify:track:" uri = false) ->
  Fetch.track_id_of item = None.
Proof.
  unfold Fetch.track_id_of.
  intros [-> | (uri & -> & P)]; [reflexivity |]. simpl.
  destruct (uri =? "")%string; [reflexivity |]. rewrite P. reflexivity.
Qed.

(** C6: on two histories that are permutations of each other the
    aggregation holds the same identifiers, with the same [ms_played] and
    [play_count]; and an event without a track URI, or with one that does
    not start with [spotify:track:], changes nothing wherever it stands. *)
Theorem aggregation_order_independent (h1 h2 : list event) :
  Permutation h1 h2 ->
  (forall tid,
     option_map Fetch.tally (dict_get tid (Fetch.extract_unique_tracks h1))
     = option_map Fetch.tally (dict_get tid (Fetch.extract_unique_tracks h2)))
  /\ (forall item before after,
        get (spotify_track_uri item) = None
        \/ (exists uri, get (spotify_track_uri item) = Some uri
                        /\ prefix "spotify:track:" uri = false) ->
        Fetch.extract_unique_tracks (before ++ item :: after)
        = Fetch.extract_unique_tracks (before ++ after)).
Proof.
  intros P. split.
  - intros tid. rewrite !extract_tally.
    pose proof (Permutation_filter' (has_key Fetch.track_id_of tid) P) as PF.
    destruct (filter (has_key Fetch.track_id_of tid) h1) as [| x g1] eqn:E1.
    + apply Permutation_nil in PF. rewrite PF. reflexivity.
    + destruct (filter (has_key Fetch.track_id_of tid) h2) as [| y g2] eqn:E2.
      * apply Permutation_sym, Permutation_nil in PF. discriminate.
      * cbv zeta. f_equal. f_equal.
        -- apply listened_perm, PF.
        -- unfold len. f_equal. apply Permutation_length, PF.
  - intros item before after S. apply track_id_of_skipped in S.
    unfold Fetch.extract_unique_tracks. rewrite !fold_left_app. simpl.
    rewrite S. reflexivity.
Qed.

Lemma aggregation_order_independent_witness :
  option_map Fetch.tally
    (dict_get "Uno"%string (Fetch.extract_unique_tracks Sample.three_months))
  = option_map Fetch.tally
      (dict_get "Uno"%string
         (Fetch.extract_unique_tracks (rev Sample.three_months))).
Proof.
  apply (aggregation_order_independent (Permutation_rev Sample.three_months)).
Defined.

(** ** Batches of the catalog service *)

Lemma firstn_50_length {A : Type} (l : list A) :
  (List.length (firstn 50 l) <= 50)%nat.
Proof. apply firstn_le_length. Qed.

Lemma batch_start_in_range (n i : nat) :
  In i (Fetch.batch_starts n) -> (i < n)%nat.
Proof.
  unfold Fetch.batch_starts. rewrite in_map_iff.
  intros (j & <- & Ij). apply in_seq in Ij.
  assert (D : (50 * ((n + 49) / 50) <= n + 49)%nat)
    by (apply Nat.Div0.mul_div_le).
  lia.
Qed.

Lemma batch_at_nonempty {A : Type} (l : list A) (i : nat) :
  (i < List.length l)%nat -> Fetch.batch_at l i <> [].
Proof.
  unfold Fetch.batch_at. intros L E.
  apply (f_equal (@List.length A)) in E.
  rewrite length_firstn, length_skipn in E.
  change (List.length (@nil A)) with 0%nat in E. lia.
Qed.

Lemma firstn_batch_at {A : Type} (l : list A) (i : nat) :
  firstn 50 (Fetch.batch_at l i) = Fetch.batch_at l i.
Proof.
  unfold Fetch.batch_at. rewrite firstn_firstn. reflexivity.
Qed.

Section Batches.

Variable record : Type.
Variable service : list (Fetch.request) -> Fetch.request -> Fetch.response record.

(** What [fetch_tracks_batch] does with identifiers to ask for. *)
Lemma fetch_tracks_batch_eq (track_ids : list string)
    (headers_ : list (string * string)) (w : Fetch.world) :
  track_ids <> [] ->
  Fetch.fetch_tracks_batch service track_ids headers_ w
  = let r := Fetch.tracks_request track_ids headers_ in
    let response := service (Fetch.requests w) r in
    if negb (Fetch.status_code response =? 200) then
      (Ok [],
       {| Fetch.requests := Fetch.requests w ++ [r];
          Fetch.stdout :=
            Fetch.stdout w
            ++ [("  Error fetching tracks: "
                 ++ str (Fetch.status_code response))%string] |})
    else
      (match Fetch.json response with
       | Ok body => Ok match Fetch.body_tracks body with
                       | Some l => l
                       | None => []
                       end
       | Raise e => Raise e
       end,
       {| Fetch.requests := Fetch.requests w ++ [r];
          Fetch.stdout := Fetch.stdout w |}).
Proof.
  intros N. destruct track_ids as [| t ids]; [contradiction |].
  unfold Fetch.fetch_tracks_batch, Fetch.io_bind, Fetch.requests_get,
    Fetch.tracks_request.
  cbv zeta.
  generalize (service (Fetch.requests w)
                {| Fetch.url := "https://api.spotify.com/v1/tracks";
                   Fetch.ids := firstn 50 (t :: ids);
                   Fetch.headers := headers_ |}).
  intros response.
  destruct (negb (Fetch.status_code response =? 200)); [reflexivity |].
  destruct (Fetch.json response); reflexivity.
Qed.

Lemma fetch_artists_batch_eq (artist_ids : list string)
    (headers_ : list (string * string)) (w : Fetch.world) :
  artist_ids <> [] ->
  Fetch.fetch_artists_batch service artist_ids headers_ w
  = let r := Fetch.artists_request artist_ids headers_ in
    let response := service (Fetch.requests w) r in
    if negb (Fetch.status_code response =? 200) then
      (Ok [],
       {| Fetch.requests := Fetch.requests w ++ [r];
          Fetch.stdout :=
            Fetch.stdout w
            ++ [("  Error fetching artists: "
                 ++ str (Fetch.status_code response))%string] |})
    else
      (match Fetch.json response with
       | Ok body => Ok match Fetch.body_artists body with
                       | Some l => l
                       | None => []
                       end
       | Raise e => Raise e
       end,
       {| Fetch.requests := Fetch.requests w ++ [r];
          Fetch.stdout := Fetch.stdout w |}).
Proof.
  intros N. destruct artist_ids as [| t ids]; [contradiction |].
  unfold Fetch.fetch_artists_batch, Fetch.io_bind, Fetch.requests_get,
    Fetch.artists_request.
  cbv zeta.
  generalize (service (Fetch.requests w)
                {| Fetch.url := "https://api.spotify.com/v1/artists";
                   Fetch.ids := firstn 50 (t :: ids);
                   Fetch.headers := headers_ |}).
  intros response.
  destruct (negb (Fetch.status_code response =? 200)); [reflexivity |].
  destruct (Fetch.json response); reflexivity.
Qed.


(** The loop over the batches never stops at a failed batch: when every
    successful response decodes, it returns, having sent one request per
    batch. *)
Lemma track_batches_run (track_ids : list string)
    (headers_ : list (string * string)) (starts : list nat) :
  (forall hist r, Fetch.status_code (service hist r) = 200 ->
                  exists b, Fetch.json (service hist r) = Ok b) ->
  (forall i, In i starts -> (i < List.length track_ids)%nat) ->
  forall (acc : list (option record)) (w : Fetch.world),
  exists out w',
    Fetch.track_batches service starts track_ids headers_ acc w = (Ok out, w')
    /\ Fetch.requests w'
       = Fetch.requests w
         ++ map (fun i => Fetch.tracks_request (Fetch.batch_at track_ids i)
                            headers_) starts
    /\ ((forall hist r, Fetch.status_code (service hist r) <> 200) ->
        out = acc).
Proof.
  intros D. induction starts as [| i starts IH]; intros R acc w.
  - exists acc, w. simpl. rewrite app_nil_r. auto.
  - assert (N : Fetch.batch_at track_ids i <> [])
      by (apply batch_at_nonempty, R; left; reflexivity).
    assert (R' : forall j, In j starts -> (j < List.length track_ids)%nat)
      by (intros j Ij; apply R; right; exact Ij).
    simpl Fetch.track_batches. unfold Fetch.io_bind at 1. unfold Fetch.print.
    unfold Fetch.io_bind at 1.
    rewrite (fetch_tracks_batch_eq headers_ _ N). cbv zeta.
    set (w0 := {| Fetch.requests := Fetch.requests w; Fetch.stdout := _ |}).
    change (Fetch.requests w0) with (Fetch.requests w).
    set (r := Fetch.tracks_request (Fetch.batch_at track_ids i) headers_).
    destruct (Fetch.status_code (service (Fetch.requests w) r) =? 200) eqn:S;
      simpl negb; cbv iota.
    + apply Z.eqb_eq in S. destruct (D _ _ S) as [b Eb]. rewrite Eb.
      destruct (IH R' (acc ++ match Fetch.body_tracks b with
                              | Some l => l
                              | None => []
                              end)
                  {| Fetch.requests := Fetch.requests w ++ [r];
                     Fetch.stdout := Fetch.stdout w0 |})
        as (out & w' & E & Q & F).
      exists out, w'. split; [exact E |]. split.
      * rewrite Q. simpl. rewrite <- app_assoc. reflexivity.
      * intros A. exfalso. exact (A _ _ S).
    + destruct (IH R' (acc ++ [])
                  {| Fetch.requests := Fetch.requests w ++ [r];
                     Fetch.stdout :=
                       Fetch.stdout w0
                       ++ [("  Error fetching tracks: "
                            ++ str (Fetch.status_code
                                      (service (Fetch.requests w) r)))
                             %string] |})
        as (out & w' & E & Q & F).
      exists out, w'. split; [exact E |]. split.
      * rewrite Q. simpl. rewrite <- app_assoc. reflexivity.
      * intros A. rewrite (F A). apply app_nil_r.
Qed.

End Batches.

Section FailedBatch.

Variable record : Type.
Variable service : list Fetch.request -> Fetch.request -> Fetch.response record.

(** C7: with no identifier a batch function returns the empty list and
    sends nothing; on a response whose status is not 200 it returns the
    empty list, having sent one request and printed one line, and does not
    raise; no request it sends holds more than 50 identifiers; and the loop
    over the batches goes on after a failed batch: when every successful
    response decodes it returns, having sent one request per batch, and when
    every batch fails it returns no record. *)
Theorem failed_batch_contributes_nothing :
  (forall headers_ w,
     Fetch.fetch_tracks_batch service [] headers_ w = (Ok [], w)
     /\ Fetch.fetch_artists_batch service [] headers_ w = (Ok [], w))
  /\ (forall track_ids headers_ w,
        track_ids <> [] ->
        Fetch.status_code
          (service (Fetch.requests w) (Fetch.tracks_request track_ids headers_))
        <> 200 ->
        exists line,
          Fetch.fetch_tracks_batch service track_ids headers_ w
          = (Ok [],
             {| Fetch.requests :=
                  Fetch.requests w ++ [Fetch.tracks_request track_ids headers_];
                Fetch.stdout := Fetch.stdout w ++ [line] |}))
  /\ (forall artist_ids headers_ w,
        artist_ids <> [] ->
        Fetch.status_code
          (service (Fetch.requests w)
             (Fetch.artists_request artist_ids headers_))
        <> 200 ->
        exists line,
          Fetch.fetch_artists_batch service artist_ids headers_ w
          = (Ok [],
             {| Fetch.requests :=
                  Fetch.requests w
                  ++ [Fetch.artists_request artist_ids headers_];
                Fetch.stdout := Fetch.stdout w ++ [line] |}))
  /\ (forall l headers_ w,
        exists sent sent',
          Fetch.requests (snd (Fetch.fetch_tracks_batch service l headers_ w))
          = Fetch.requests w ++ sent
          /\ Fetch.requests (snd (Fetch.fetch_artists_batch service l headers_ w))
             = Fetch.requests w ++ sent'
          /\ Forall (fun r => (List.length (Fetch.ids r) <= 50)%nat)
                    (sent ++ sent'))
  /\ (forall track_ids headers_ w,
        (forall hist r, Fetch.status_code (service hist r) = 200 ->
                        exists b, Fetch.json (service hist r) = Ok b) ->
        exists out w',
          Fetch.fetch_all_tracks service track_ids headers_ w = (Ok out, w')
          /\ Fetch.requests w'
             = Fetch.requests w
               ++ map (fun i => Fetch.tracks_request
                                  (Fetch.batch_at track_ids i) headers_)
                      (Fetch.batch_starts (List.length track_ids))
          /\ ((forall hist r, Fetch.status_code (service hist r) <> 200) ->
              out = [])).
Proof.
  split; [intros; split; reflexivity |].
  split; [| split; [| split]].
  - intros track_ids headers_ w N S.
    rewrite (fetch_tracks_batch_eq service headers_ w N). cbv zeta.
    apply Z.eqb_neq in S. rewrite S. simpl negb. cbv iota.
    eexists. reflexivity.
  - intros artist_ids headers_ w N S.
    rewrite (fetch_artists_batch_eq service headers_ w N). cbv zeta.
    apply Z.eqb_neq in S. rewrite S. simpl negb. cbv iota.
    eexists. reflexivity.
  - intros l headers_ w. destruct l as [| x l].
    + exists [], []. simpl. rewrite app_nil_r. auto.
    + assert (N : x :: l <> []) by discriminate.
      exists [Fetch.tracks_request (x :: l) headers_],
             [Fetch.artists_request (x :: l) headers_].
      rewrite (fetch_tracks_batch_eq service headers_ w N),
              (fetch_artists_batch_eq service headers_ w N). cbv zeta.
      split; [| split].
      * destruct (negb _); reflexivity.
      * destruct (negb _); reflexivity.
      * constructor; [apply firstn_50_length |].
        constructor; [apply firstn_50_length | constructor].
  - intros track_ids headers_ w D. unfold Fetch.fetch_all_tracks.
    apply track_batches_run; [exact D |].
    intros i. apply batch_start_in_range.
Qed.

End FailedBatch.

Lemma failed_batch_contributes_nothing_witness :
  fst (Fetch.fetch_tracks_batch Sample.refusing Sample.many_ids []
         {| Fetch.requests := []; Fetch.stdout := [] |})
  = Ok []
  /\ fst (Fetch.fetch_all_tracks Sample.refusing Sample.many_ids []
            {| Fetch.requests := []; Fetch.stdout := [] |})
     = Ok [].
Proof.
  pose proof (@failed_batch_contributes_nothing string Sample.refusing)
    as (_ & T & _ & _ & L).
  split.
  - destruct (T Sample.many_ids [] {| Fetch.requests := []; Fetch.stdout := [] |})
      as [line ->]; [discriminate | discriminate | reflexivity].
  - destruct (L Sample.many_ids [] {| Fetch.requests := []; Fetch.stdout := [] |})
      as (out & w' & -> & _ & F); [discriminate |].
    simpl. f_equal. apply F. discriminate.
Defined.

(** ** The metrics job *)

Section MetricsJob.

Variable utc_to_pacific : string -> datetime.

(** A run of [main] that returns has read the history from the input file
    and left the report of its metrics in the output file. *)
Lemma main_report (fs out : filesystem) :
  main utc_to_pacific fs = Ok out ->
  exists data d,
    load_data fs = Ok data
    /\ dashboard_data utc_to_pacific data = Ok d
    /\ out = write OUTPUT_FILE (Report d) fs.
Proof.
  unfold main. destruct (load_data fs) as [data |]; [| discriminate].
  unfold bind at 1.
  destruct (dashboard_data utc_to_pacific data) as [d |] eqn:D;
    [| discriminate].
  intros [= <-]. exists data, d. repeat split; assumption.
Qed.

End MetricsJob.

(** * Further properties of the metrics *)

Lemma grow_nonempty {A V : Type} (d0 : V) (step : A -> V -> V) (l : list A) :
  l <> [] -> exists v, fold_left (grow d0 step) l None = Some v.
Proof.
  destruct l as [| x l]; [contradiction |]. intros _.
  exists (value d0 (fold_left (grow d0 step) l (grow d0 step None x))).
  exact (grow_from_some d0 step l _).
Qed.

Section LocalTime.

Variable utc_to_pacific : string -> datetime.

Lemma count_by_step {K : Type} `{Key K} (by_ : datetime -> K)
    (d : list (K * Z)) (item : event) :
  match pacific_of utc_to_pacific item with
  | Some dt => dict_update (by_ dt) 0 (fun n => n + 1) d
  | None => d
  end
  = match local_key utc_to_pacific by_ item with
    | Some k => dict_update k 0 (fun n => n + 1) d
    | None => d
    end.
Proof.
  unfold local_key. destruct (pacific_of utc_to_pacific item); reflexivity.
Qed.

Lemma count_by_NoDup {K : Type} `{KeyOk K} (by_ : datetime -> K)
    (data : list event) :
  NoDup (map fst (count_by utc_to_pacific by_ data)).
Proof.
  unfold count_by.
  apply (group_NoDup 0 (local_key utc_to_pacific by_) (fun _ n => n + 1) _
           (count_by_step by_)).
Qed.

(** An entry of a counting dict counts the events under its key, of which
    there is at least one. *)
Lemma count_by_entry {K : Type} `{KeyOk K} (by_ : datetime -> K)
    (data : list event) (k : K) (n : Z) :
  In (k, n) (count_by utc_to_pacific by_ data) ->
  n = len (filed_at utc_to_pacific by_ k data) /\ 1 <= n.
Proof.
  intros I. unfold count_by in I.
  apply (group_In 0 (local_key utc_to_pacific by_) (fun _ n => n + 1) _
           (count_by_step by_)) in I.
  fold (filed_at utc_to_pacific by_ k data) in I.
  assert (E : n = len (filed_at utc_to_pacific by_ k data)).
  { pose proof (@grow_measure event Z 0 (fun _ n => n + 1) (fun z => z)
                  (fun _ => 1) (filed_at utc_to_pacific by_ k data)
                  (proj2 (Forall_forall _ _) (fun _ _ _ => eq_refl)) None)
      as M.
    rewrite I, sum_ones in M. exact M. }
  split; [exact E |].
  destruct (filed_at utc_to_pacific by_ k data) as [| x l].
  - discriminate.
  - rewrite E. unfold len. simpl List.length. lia.
Qed.

(** Every event with a timestamp has its entry. *)
Lemma count_by_complete {K : Type} `{KeyOk K} (by_ : datetime -> K)
    (data : list event) (item : event) (dt : datetime) :
  In item data ->
  pacific_of utc_to_pacific item = Some dt ->
  exists n, In (by_ dt, n) (count_by utc_to_pacific by_ data).
Proof.
  intros I P.
  destruct (@grow_nonempty event Z 0 (fun _ n => n + 1)
              (filed_at utc_to_pacific by_ (by_ dt) data)) as [n G].
  - intros E. assert (F : In item (filed_at utc_to_pacific by_ (by_ dt) data)).
    { apply filter_In. split; [exact I |].
      unfold has_key, local_key. rewrite P. simpl. apply keyb_refl. }
    rewrite E in F. exact F.
  - exists n. unfold count_by.
    apply (group_In 0 (local_key utc_to_pacific by_) (fun _ n => n + 1) _
             (count_by_step by_)). exact G.
Qed.

Lemma count_by_total {K : Type} `{KeyOk K} (by_ : datetime -> K)
    (data : list event) :
  sum (map snd (count_by utc_to_pacific by_ data))
  = len (filter has_timestamp data).
Proof.
  unfold count_by.
  rewrite (group_total_from 0 (local_key utc_to_pacific by_)
             (fun _ n => n + 1) _ (count_by_step by_) (fun z => z) eq_refl
             (fun _ _ => eq_refl) data []).
  unfold local_key. rewrite filed_pacific. reflexivity.
Qed.

End LocalTime.

(** ** Heatmaps *)

Section Heatmaps.

Variable utc_to_pacific : string -> datetime.

(** A heatmap is a counting dict turned, entry by entry, into cells. *)
Lemma heatmap_of_counts {K C : Type} `{KeyOk K} (by_ : datetime -> K)
    (cell : K * Z -> C) (coordinates : C -> K) (cell_plays : C -> Z)
    (data : list event) :
  (forall kv, coordinates (cell kv) = fst kv) ->
  (forall kv, cell_plays (cell kv) = snd kv) ->
  NoDup (map coordinates (map cell (count_by utc_to_pacific by_ data)))
  /\ (forall c, In c (map cell (count_by utc_to_pacific by_ data)) ->
        cell_plays c = len (filed_at utc_to_pacific by_ (coordinates c) data)
        /\ 1 <= cell_plays c)
  /\ (forall item dt,
        In item data -> pacific_of utc_to_pacific item = Some dt ->
        exists c, In c (map cell (count_by utc_to_pacific by_ data))
                  /\ coordinates c = by_ dt)
  /\ sum (map cell_plays (map cell (count_by utc_to_pacific by_ data)))
     = len (filter has_timestamp data).
Proof.
  intros Co Pl. split; [| split; [| split]].
  - rewrite map_map. rewrite (map_ext _ fst Co). apply count_by_NoDup; exact _.
  - intros c I. apply in_map_iff in I. destruct I as ([k n] & <- & I).
    rewrite Co, Pl. simpl.
    destruct (@count_by_entry utc_to_pacific K _ _ by_ data k n I) as [E P].
    rewrite <- E. auto.
  - intros item dt I P.
    destruct (@count_by_complete utc_to_pacific K _ _ by_ data item dt I P)
      as [n In_].
    exists (cell (by_ dt, n)). split; [apply in_map; exact In_ | apply Co].
  - rewrite map_map. rewrite (map_ext _ snd Pl). apply count_by_total; exact _.
Qed.

(** X1: the three heatmaps have one cell per combination of local month, hour
    and weekday or day that occurs; a cell counts the events with a
    timestamp that fall on its combination, at least one; every such event
    falls in a cell; and the plays of the cells add up to the number of
    events with a timestamp. *)
Theorem heatmap_cells (data : list event) :
  (NoDup (map (fun c => (hc_month c, hc_hour c))
              (calculate_hourly_heatmap utc_to_pacific data))
   /\ (forall c, In c (calculate_hourly_heatmap utc_to_pacific data) ->
         hc_plays c
         = len (filed_at utc_to_pacific (fun dt => (month dt, hour dt))
                         (hc_month c, hc_hour c) data)
         /\ 1 <= hc_plays c)
   /\ (forall item dt,
         In item data -> pacific_of utc_to_pacific item = Some dt ->
         exists c, In c (calculate_hourly_heatmap utc_to_pacific data)
                   /\ (hc_month c, hc_hour c) = (month dt, hour dt))
   /\ sum (map hc_plays (calculate_hourly_heatmap utc_to_pacific data))
      = len (filter has_timestamp data))
  /\ (NoDup (map (fun c => (wc_month c, wc_weekday c, wc_hour c))
                 (calculate_weekday_hour_heatmap utc_to_pacific data))
      /\ (forall c, In c (calculate_weekday_hour_heatmap utc_to_pacific data) ->
            wc_plays c
            = len (filed_at utc_to_pacific
                            (fun dt => (month dt, weekday dt, hour dt))
                            (wc_month c, wc_weekday c, wc_hour c) data)
            /\ 1 <= wc_plays c)
      /\ (forall item dt,
            In item data -> pacific_of utc_to_pacific item = Some dt ->
            exists c, In c (calculate_weekday_hour_heatmap utc_to_pacific data)
                      /\ (wc_month c, wc_weekday c, wc_hour c)
                         = (month dt, weekday dt, hour dt))
      /\ sum (map wc_plays (calculate_weekday_hour_heatmap utc_to_pacific data))
         = len (filter has_timestamp data))
  /\ (NoDup (map (fun c => (dc_month c, dc_day c, dc_hour c))
                 (calculate_day_hour_heatmap utc_to_pacific data))
      /\ (forall c, In c (calculate_day_hour_heatmap utc_to_pacific data) ->
            dc_plays c
            = len (filed_at utc_to_pacific
                            (fun dt => (month dt, day dt, hour dt))
                            (dc_month c, dc_day c, dc_hour c) data)
            /\ 1 <= dc_plays c)
      /\ (forall item dt,
            In item data -> pacific_of utc_to_pacific item = Some dt ->
            exists c, In c (calculate_day_hour_heatmap utc_to_pacific data)
                      /\ (dc_month c, dc_day c, dc_hour c)
                         = (month dt, day dt, hour dt))
      /\ sum (map dc_plays (calculate_day_hour_heatmap utc_to_pacific data))
         = len (filter has_timestamp data)).
Proof.
  split; [| split].
  - apply (heatmap_of_counts (fun dt => (month dt, hour dt))
             (fun kv : Z * Z * Z =>
                {| hc_month := fst (fst kv); hc_hour := snd (fst kv);
                   hc_plays := snd kv |})
             (fun c => (hc_month c, hc_hour c)) hc_plays).
    + intros [[m h] n]. reflexivity.
    + intros [[m h] n]. reflexivity.
  - apply (heatmap_of_counts (fun dt => (month dt, weekday dt, hour dt))
             (fun kv : Z * Z * Z * Z =>
                {| wc_month := fst (fst (fst kv));
                   wc_weekday := snd (fst (fst kv));
                   wc_hour := snd (fst kv); wc_plays := snd kv |})
             (fun c => (wc_month c, wc_weekday c, wc_hour c)) wc_plays).
    + intros [[[m d] h] n]. reflexivity.
    + intros [[[m d] h] n]. reflexivity.
  - apply (heatmap_of_counts (fun dt => (month dt, day dt, hour dt))
             (fun kv : Z * Z * Z * Z =>
                {| dc_month := fst (fst (fst kv));
                   dc_day := snd (fst (fst kv));
                   dc_hour := snd (fst kv); dc_plays := snd kv |})
             (fun c => (dc_month c, dc_day c, dc_hour c)) dc_plays).
    + intros [[[m d] h] n]. reflexivity.
    + intros [[[m d] h] n]. reflexivity.
Qed.

End Heatmaps.

Lemma heatmap_cells_witness :
  exists c,
    In c (calculate_hourly_heatmap Pacific.pacific_time Sample.three_months)
    /\ 1 <= hc_plays c.
Proof.
  pose proof (heatmap_cells Pacific.pacific_time Sample.three_months)
    as [(_ & H & _) _].
  remember (calculate_hourly_heatmap Pacific.pacific_time Sample.three_months)
    as cells eqn:E in *.
  vm_compute in E. subst cells.
  eexists. split; [left; reflexivity |].
  apply H. left. reflexivity.
Defined.

(** ** Peak hours, continued *)

Lemma descending_head {A : Type} (key : A -> Z) (x : A) (l : list A) :
  descending key (x :: l) -> forall y, In y (x :: l) -> key y <= key x.
Proof.
  intros S y [<- | I]; [lia |].
  inversion S as [| ? ? _ F]. subst.
  rewrite Forall_forall in F. apply F, I.
Qed.

(** In a descending list what comes first is no smaller than what comes
    later. *)
Lemma descending_split {A : Type} (key : A -> Z) (n : nat) (l : list A) :
  descending key l ->
  forall x y, In x (firstn n l) -> In y (skipn n l) -> key y <= key x.
Proof.
  intros S. revert n. induction S as [| z l S IH F]; intros n x y.
  - destruct n; simpl; contradiction.
  - destruct n as [| n]; simpl; [contradiction |].
    intros [<- | Ix] Iy.
    + rewrite Forall_forall in F. apply F.
      rewrite <- (firstn_skipn n l). apply in_or_app. right. exact Iy.
    + exact (IH n x y Ix Iy).
Qed.

Lemma NoDup_firstn {A : Type} (n : nat) (l : list A) :
  NoDup l -> NoDup (firstn n l).
Proof.
  intros N. revert n. induction N as [| x l Nx N IH]; intros [| n]; simpl;
    try constructor.
  - intros I. apply Nx. rewrite <- (firstn_skipn n l).
    apply in_or_app. left. exact I.
  - apply IH.
Qed.

Lemma fold_min_spec (l : list Z) (a : Z) :
  In (fold_left Z.min l a) (a :: l)
  /\ forall x, In x (a :: l) -> fold_left Z.min l a <= x.
Proof.
  revert a. induction l as [| y l IH]; intros a; simpl.
  - split; [left; reflexivity | intros x [<- | []]; lia].
  - destruct (IH (Z.min a y)) as [I L]. split.
    + destruct I as [E | I]; [| right; right; exact I].
      rewrite <- E. destruct (Z.min_spec a y) as [[_ ->] | [_ ->]]; auto.
    + intros x [<- | [<- | Ix]].
      * specialize (L (Z.min a y) (or_introl eq_refl)). lia.
      * specialize (L (Z.min a y) (or_introl eq_refl)). lia.
      * apply L. right. exact Ix.
Qed.

Lemma fold_max_spec (l : list Z) (a : Z) :
  In (fold_left Z.max l a) (a :: l)
  /\ forall x, In x (a :: l) -> x <= fold_left Z.max l a.
Proof.
  revert a. induction l as [| y l IH]; intros a; simpl.
  - split; [left; reflexivity | intros x [<- | []]; lia].
  - destruct (IH (Z.max a y)) as [I L]. split.
    + destruct I as [E | I]; [| right; right; exact I].
      rewrite <- E. destruct (Z.max_spec a y) as [[_ ->] | [_ ->]]; auto.
    + intros x [<- | [<- | Ix]].
      * specialize (L (Z.max a y) (or_introl eq_refl)). lia.
      * specialize (L (Z.max a y) (or_introl eq_refl)). lia.
      * apply L. right. exact Ix.
Qed.

Section PeakHoursResult.

Variable utc_to_pacific : string -> datetime.

(** The number of events that fall on the local hour [h]. *)
Let busy (data : list event) (h : Z) : Z :=
  len (filed_at utc_to_pacific hour h data).

Lemma busy_entry (data : list event) (h : Z) :
  0 < busy data h ->
  In (h, busy data h) (count_by utc_to_pacific hour data).
Proof.
  unfold busy. intros P.
  destruct (filed_at utc_to_pacific hour h data) as [| item l] eqn:E.
  - unfold len in P. simpl in P. lia.
  - assert (I : In item (filed_at utc_to_pacific hour h data))
      by (rewrite E; left; reflexivity).
    apply filter_In in I. destruct I as [I Hk].
    unfold has_key, local_key in Hk.
    destruct (pacific_of utc_to_pacific item) as [dt |] eqn:Pd;
      [| discriminate].
    simpl in Hk. apply Z.eqb_eq in Hk.
    destruct (@count_by_complete utc_to_pacific Z _ _ hour data item dt I Pd)
      as [n In_].
    rewrite <- Hk in In_.
    destruct (@count_by_entry utc_to_pacific Z _ _ hour data h n In_)
      as [En _].
    rewrite <- E, <- En. exact In_.
Qed.

(** X2: when some event has a timestamp [find_peak_hours] returns: [top_hours]
    holds at most five distinct hours in ascending order, each with at least
    one play and no less busy than any hour left out; [peak_hour] is one of
    them and no hour is busier. *)
Theorem find_peak_hours_busiest (data : list event) :
  (exists item, In item data /\ has_timestamp item = true) ->
  exists p,
    find_peak_hours utc_to_pacific data = Ok p
    /\ In (peak_hour p) (top_hours p)
    /\ StronglySorted Z.lt (top_hours p)
    /\ (List.length (top_hours p) <= 5)%nat
    /\ (forall h, len (filed_at utc_to_pacific hour h data)
                  <= len (filed_at utc_to_pacific hour (peak_hour p) data))
    /\ (forall h h',
          In h (top_hours p) -> ~ In h' (top_hours p) ->
          len (filed_at utc_to_pacific hour h' data)
          <= len (filed_at utc_to_pacific hour h data))
    /\ (forall h, In h (top_hours p) ->
                  1 <= len (filed_at utc_to_pacific hour h data)).
Proof.
  intros (item & I & T).
  set (hours := count_by utc_to_pacific hour data).
  set (S := sorted_desc snd hours).
  assert (P : Permutation S hours) by apply sorted_desc_perm.
  assert (D : descending snd S) by apply sorted_desc_descending.
  assert (N : NoDup (map fst S)).
  { apply (Permutation_NoDup (Permutation_map fst (Permutation_sym P))).
    apply count_by_NoDup. exact _. }
  assert (Entry : forall h n, In (h, n) S ->
            n = len (filed_at utc_to_pacific hour h data) /\ 1 <= n).
  { intros h n Ih. apply (Permutation_in _ P) in Ih.
    exact (@count_by_entry utc_to_pacific Z _ _ hour data h n Ih). }
  assert (Busy : forall h, 0 < len (filed_at utc_to_pacific hour h data) ->
            In (h, len (filed_at utc_to_pacific hour h data)) S).
  { intros h Ph. apply (Permutation_in _ (Permutation_sym P)).
    apply busy_entry. exact Ph. }
  assert (NonNeg : forall h, 0 <= len (filed_at utc_to_pacific hour h data))
    by (intros h; unfold len; lia).
  assert (Top : forall h, In h (map fst (firstn 5 S)) ->
            In (h, len (filed_at utc_to_pacific hour h data)) (firstn 5 S)
            /\ 1 <= len (filed_at utc_to_pacific hour h data)).
  { intros h Ih. apply in_map_iff in Ih. destruct Ih as ([h1 n1] & <- & I1).
    simpl. assert (I1' : In (h1, n1) S).
    { rewrite <- (firstn_skipn 5 S). apply in_or_app. left. exact I1. }
    destruct (Entry h1 n1 I1') as [<- Pn]. split; assumption. }
  assert (NE : S <> []).
  { unfold has_timestamp in T.
    assert (Pd : exists dt, pacific_of utc_to_pacific item = Some dt).
    { unfold pacific_of. destruct (truthy (get (ts item))); [| discriminate].
      eexists. reflexivity. }
    destruct Pd as [dt Pd].
    destruct (@count_by_complete utc_to_pacific Z _ _ hour data item dt I Pd)
      as [n In_].
    apply (Permutation_in _ (Permutation_sym P)) in In_.
    intros E. rewrite E in In_. exact In_. }
  unfold find_peak_hours. fold hours. fold S.
  assert (TopPerm : Permutation (sorted_asc (fun h => h) (map fst (firstn 5 S)))
                      (map fst (firstn 5 S))) by apply sorted_asc_perm.
  destruct S as [| [h0 n0] rest] eqn:ES; [contradiction |].
  change (map fst (firstn 5 ((h0, n0) :: rest)))
    with (h0 :: map fst (firstn 4 rest)) in *.
  unfold min_list, max_list, bind.
  eexists. split; [reflexivity |]. cbn [peak_hour top_hours fst].
  assert (E0 : n0 = len (filed_at utc_to_pacific hour h0 data) /\ 1 <= n0)
    by (apply Entry; left; reflexivity).
  destruct E0 as [E0 P0].
  split; [| split; [| split; [| split; [| split]]]].
  - apply (Permutation_in _ (Permutation_sym TopPerm)). left. reflexivity.
  - apply ascending_NoDup_strict.
    + apply (sorted_asc_ascending (fun h : Z => h)).
    + apply (Permutation_NoDup (Permutation_sym TopPerm)).
      change (h0 :: map fst (firstn 4 rest))
        with (map fst (firstn 5 ((h0, n0) :: rest))).
      rewrite <- firstn_map. apply NoDup_firstn, N.
  - rewrite (Permutation_length TopPerm).
    change (h0 :: map fst (firstn 4 rest))
      with (map fst (firstn 5 ((h0, n0) :: rest))).
    rewrite length_map. apply firstn_le_length.
  - intros h. rewrite <- E0.
    destruct (Z.eq_dec (len (filed_at utc_to_pacific hour h data)) 0) as [Z0 | Nz].
    + lia.
    + assert (Ph : 0 < len (filed_at utc_to_pacific hour h data))
        by (specialize (NonNeg h); lia).
      pose proof (descending_head D) as Hd.
      exact (Hd _ (Busy h Ph)).
  - intros h h' Ih Nh'.
    apply (Permutation_in _ TopPerm) in Ih.
    destruct (Top h Ih) as [If Ph].
    destruct (Z.eq_dec (len (filed_at utc_to_pacific hour h' data)) 0)
      as [Z0 | Nz]; [lia |].
    assert (Ph' : 0 < len (filed_at utc_to_pacific hour h' data))
      by (specialize (NonNeg h'); lia).
    pose proof (Busy h' Ph') as Ih'.
    rewrite <- (firstn_skipn 5 ((h0, n0) :: rest)) in Ih'.
    apply in_app_or in Ih'. destruct Ih' as [F | Sk].
    + exfalso. apply Nh'.
      apply (Permutation_in _ (Permutation_sym TopPerm)).
      change (h0 :: map fst (firstn 4 rest))
        with (map fst (firstn 5 ((h0, n0) :: rest))).
      apply (in_map fst) in F. exact F.
    + pose proof (descending_split 5 D) as Hs.
      exact (Hs _ _ If Sk).
  - intros h Ih. apply (Permutation_in _ TopPerm) in Ih.
    apply (Top h Ih).
Qed.

End PeakHoursResult.

Lemma find_peak_hours_busiest_witness :
  exists p,
    find_peak_hours Pacific.pacific_time Sample.three_months = Ok p
    /\ In (peak_hour p) (top_hours p).
Proof.
  destruct (find_peak_hours_busiest Pacific.pacific_time Sample.three_months)
    as (p & E & I & _).
  - eexists. split; [left; reflexivity | reflexivity].
  - exists p. split; assumption.
Defined.

(** ** Hourly distribution *)

Section Distribution.

Variable utc_to_pacific : string -> datetime.

(** An entry of a dict of play statistics holds the number and the summed
    milliseconds of the events under its key, of which there is at least
    one. *)
Lemma stats_by_entry {K : Type} `{KeyOk K} (by_ : datetime -> K)
    (data : list event) (k : K) (s : time_stats) :
  In (k, s) (stats_by utc_to_pacific by_ data) ->
  plays s = len (filed_at utc_to_pacific by_ k data)
  /\ ms s = listened (filed_at utc_to_pacific by_ k data)
  /\ 1 <= plays s.
Proof.
  intros I. unfold stats_by in I.
  apply (group_In time_default (local_key utc_to_pacific by_) time_step _
           (stats_by_step utc_to_pacific by_)) in I.
  fold (filed_at utc_to_pacific by_ k data) in I.
  pose proof (@grow_measure event time_stats time_default time_step plays
                (fun _ => 1) (filed_at utc_to_pacific by_ k data)
                (proj2 (Forall_forall _ _) (fun _ _ _ => eq_refl)) None) as Mp.
  pose proof (@grow_measure event time_stats time_default time_step ms
                ms_of (filed_at utc_to_pacific by_ k data)
                (proj2 (Forall_forall _ _) (fun _ _ _ => eq_refl)) None) as Mm.
  rewrite I, sum_ones in Mp. rewrite I in Mm. simpl in Mp, Mm.
  split; [exact Mp | split; [exact Mm |]].
  rewrite Mp.
  destruct (filed_at utc_to_pacific by_ k data) as [| x l].
  - discriminate.
  - unfold len. simpl List.length. lia.
Qed.

Lemma stats_by_complete {K : Type} `{KeyOk K} (by_ : datetime -> K)
    (data : list event) (item : event) (dt : datetime) :
  In item data ->
  pacific_of utc_to_pacific item = Some dt ->
  exists s, In (by_ dt, s) (stats_by utc_to_pacific by_ data).
Proof.
  intros I P.
  destruct (@grow_nonempty event time_stats time_default time_step
              (filed_at utc_to_pacific by_ (by_ dt) data)) as [s G].
  - intros E. assert (F : In item (filed_at utc_to_pacific by_ (by_ dt) data)).
    { apply filter_In. split; [exact I |].
      unfold has_key, local_key. rewrite P. simpl. apply keyb_refl. }
    rewrite E in F. exact F.
  - exists s. unfold stats_by.
    apply (group_In time_default (local_key utc_to_pacific by_) time_step _
             (stats_by_step utc_to_pacific by_)). exact G.
Qed.

(** X3: the hourly distribution has one row per local hour that occurs, in
    ascending order of the hour; a row holds the number of the events of its
    hour, at least one, and their summed milliseconds in rounded minutes;
    every event with a timestamp falls in a row, and the plays of the rows
    add up to the number of events with a timestamp. *)
Theorem hourly_distribution_rows (data : list event) :
  StronglySorted Z.lt
    (map hr_hour (calculate_hourly_distribution utc_to_pacific data))
  /\ (forall r, In r (calculate_hourly_distribution utc_to_pacific data) ->
        hr_plays r = len (filed_at utc_to_pacific hour (hr_hour r) data)
        /\ 1 <= hr_plays r
        /\ hr_minutes r
           = round (inject_Z (listened (filed_at utc_to_pacific hour
                                                 (hr_hour r) data))
                    / 60000))
  /\ (forall item dt,
        In item data -> pacific_of utc_to_pacific item = Some dt ->
        In (hour dt)
           (map hr_hour (calculate_hourly_distribution utc_to_pacific data)))
  /\ sum (map hr_plays (calculate_hourly_distribution utc_to_pacific data))
     = len (filter has_timestamp data).
Proof.
  unfold calculate_hourly_distribution.
  pose proof (sorted_asc_perm fst (stats_by utc_to_pacific hour data)) as P.
  split; [| split; [| split]].
  - rewrite map_map. simpl. apply ascending_NoDup_strict.
    + apply StronglySorted_map, sorted_asc_ascending.
    + apply (Permutation_NoDup (Permutation_map fst (Permutation_sym P))).
      apply stats_by_NoDup. exact _.
  - intros r I. apply in_map_iff in I. destruct I as ([h s] & <- & I).
    apply (Permutation_in _ P) in I. simpl.
    destruct (@stats_by_entry Z _ _ hour data h s I) as (Ep & Em & Pp).
    rewrite <- Em. auto.
  - intros item dt I Pd.
    destruct (@stats_by_complete Z _ _ hour data item dt I Pd) as [s Is].
    apply (Permutation_in _ (Permutation_sym P)) in Is.
    rewrite map_map. simpl.
    apply in_map_iff. exists (hour dt, s). split; [reflexivity | exact Is].
  - rewrite map_map. simpl.
    rewrite (sum_perm (Permutation_map (fun kv => plays (snd kv)) P)).
    apply stats_by_plays. exact _.
Qed.

End Distribution.

Lemma hourly_distribution_rows_witness :
  exists r,
    In r (calculate_hourly_distribution Pacific.pacific_time
            Sample.three_months)
    /\ 1 <= hr_plays r.
Proof.
  pose proof (hourly_distribution_rows Pacific.pacific_time
                Sample.three_months) as (_ & H & _).
  remember (calculate_hourly_distribution Pacific.pacific_time
              Sample.three_months) as rows eqn:E in *.
  vm_compute in E. subst rows.
  eexists. split; [left; reflexivity |].
  apply H. left. reflexivity.
Defined.

(** ** Weekday against weekend *)

Lemma key_dec {K : Type} `{KeyOk K} (a b : K) : {a = b} + {a <> b}.
Proof.
  destruct (keyb a b) eqn:E.
  - left. apply keyb_spec. exact E.
  - right. intros ->. rewrite keyb_refl in E. discriminate.
Defined.

Lemma set_fold_nodup {K : Type} `{KeyOk K} (l : list K) :
  len (fold_left (fun s x => set_add x s) l []) = len (nodup key_dec l).
Proof.
  unfold len. f_equal.
  destruct (set_fold l (NoDup_nil K)) as [N I].
  apply Permutation_length, NoDup_Permutation.
  - exact N.
  - apply NoDup_nodup.
  - intros x. rewrite I, nodup_In. simpl. intuition.
Qed.

Section WeekBuckets.

Variable utc_to_pacific : string -> datetime.

Lemma week_step_weekday (st : week_state) (item : event) :
  ws_weekday (week_step utc_to_pacific st item)
  = if in_week utc_to_pacific item
    then fill_bucket utc_to_pacific (ws_weekday st) item
    else ws_weekday st.
Proof.
  unfold week_step, in_week, fill_bucket, artist_of.
  destruct (pacific_of utc_to_pacific item) as [dt |]; [| reflexivity].
  destruct (5 <=? weekday dt); reflexivity.
Qed.

Lemma week_step_weekend (st : week_state) (item : event) :
  ws_weekend (week_step utc_to_pacific st item)
  = if in_weekend utc_to_pacific item
    then fill_bucket utc_to_pacific (ws_weekend st) item
    else ws_weekend st.
Proof.
  unfold week_step, in_weekend, fill_bucket, artist_of.
  destruct (pacific_of utc_to_pacific item) as [dt |]; [| reflexivity].
  destruct (5 <=? weekday dt); reflexivity.
Qed.

Lemma week_loop_weekday (data : list event) (st : week_state) :
  ws_weekday (fold_left (week_step utc_to_pacific) data st)
  = fold_left (fill_bucket utc_to_pacific)
      (filter (in_week utc_to_pacific) data) (ws_weekday st).
Proof.
  revert st. induction data as [| x data IH]; intros st; simpl.
  - reflexivity.
  - rewrite IH, week_step_weekday.
    destruct (in_week utc_to_pacific x); reflexivity.
Qed.

Lemma week_loop_weekend (data : list event) (st : week_state) :
  ws_weekend (fold_left (week_step utc_to_pacific) data st)
  = fold_left (fill_bucket utc_to_pacific)
      (filter (in_weekend utc_to_pacific) data) (ws_weekend st).
Proof.
  revert st. induction data as [| x data IH]; intros st; simpl.
  - reflexivity.
  - rewrite IH, week_step_weekend.
    destruct (in_weekend utc_to_pacific x); reflexivity.
Qed.

(** What a bucket holds once the events [l], all with a timestamp, have
    been put in. *)
Lemma fill_bucket_fold (l : list event) (b : bucket) :
  Forall (fun item => has_timestamp item = true) l ->
  b_plays (fold_left (fill_bucket utc_to_pacific) l b) = b_plays b + len l
  /\ b_ms (fold_left (fill_bucket utc_to_pacific) l b) = b_ms b + listened l
  /\ b_artists (fold_left (fill_bucket utc_to_pacific) l b)
     = fold_left (fun s x => set_add x s)
         (truthy_values (map master_metadata_album_artist_name l))
         (b_artists b)
  /\ b_days (fold_left (fill_bucket utc_to_pacific) l b)
     = fold_left (fun s x => set_add x s) (local_dates utc_to_pacific l)
         (b_days b).
Proof.
  intros F. revert b. induction F as [| x l Tx F IH]; intros b.
  - unfold len, listened, sum. simpl. repeat split; lia.
  - simpl fold_left. destruct (IH (fill_bucket utc_to_pacific b x))
      as (Ep & Em & Ea & Ed).
    rewrite Ep, Em, Ea, Ed. clear IH Ep Em Ea Ed.
    unfold fill_bucket, has_timestamp, pacific_of, local_dates,
      truthy_values, artist_of in *.
    unfold listened. simpl map. rewrite sum_cons.
    unfold len. simpl List.length. simpl flat_map.
    destruct (truthy (get (ts x))) as [s |]; [| discriminate].
    simpl. rewrite !fold_left_app.
    destruct (truthy (get (master_metadata_album_artist_name x)));
      simpl; repeat split; lia.
Qed.

Lemma in_week_has_timestamp (data : list event) :
  Forall (fun item => has_timestamp item = true)
         (filter (in_week utc_to_pacific) data).
Proof.
  apply Forall_forall. intros item I. apply filter_In in I.
  destruct I as [_ W]. unfold in_week, pacific_of, has_timestamp in *.
  destruct (truthy (get (ts item))); [reflexivity | discriminate].
Qed.

Lemma in_weekend_has_timestamp (data : list event) :
  Forall (fun item => has_timestamp item = true)
         (filter (in_weekend utc_to_pacific) data).
Proof.
  apply Forall_forall. intros item I. apply filter_In in I.
  destruct I as [_ W]. unfold in_weekend, pacific_of, has_timestamp in *.
  destruct (truthy (get (ts item))); [reflexivity | discriminate].
Qed.

Lemma or_int_max (n : Z) : 0 <= n -> or_int n 1 = Z.max 1 n.
Proof.
  intros P. unfold or_int. destruct (n =? 0) eqn:E.
  - apply Z.eqb_eq in E. lia.
  - apply Z.eqb_neq in E. lia.
Qed.

Lemma week_step_weekday_artists (st : week_state) (item : event) :
  ws_weekday_artists (week_step utc_to_pacific st item)
  = match (if in_week utc_to_pacific item then artist_of item else None) with
    | Some a => dict_update a 0 (fun n => n + ms_of item) (ws_weekday_artists st)
    | None => ws_weekday_artists st
    end.
Proof.
  unfold week_step, in_week, artist_of.
  destruct (pacific_of utc_to_pacific item) as [dt |]; [| reflexivity].
  destruct (5 <=? weekday dt); simpl;
    destruct (truthy (get (master_metadata_album_artist_name item)));
    reflexivity.
Qed.

Lemma week_step_weekend_artists (st : week_state) (item : event) :
  ws_weekend_artists (week_step utc_to_pacific st item)
  = match (if in_weekend utc_to_pacific item then artist_of item else None)
    with
    | Some a => dict_update a 0 (fun n => n + ms_of item) (ws_weekend_artists st)
    | None => ws_weekend_artists st
    end.
Proof.
  unfold week_step, in_weekend, artist_of.
  destruct (pacific_of utc_to_pacific item) as [dt |]; [| reflexivity].
  destruct (5 <=? weekday dt); simpl;
    destruct (truthy (get (master_metadata_album_artist_name item)));
    reflexivity.
Qed.

Lemma week_loop_weekday_artists (data : list event) (st : week_state) :
  ws_weekday_artists (fold_left (week_step utc_to_pacific) data st)
  = fold_left
      (fun d item =>
         match (if in_week utc_to_pacific item then artist_of item else None)
         with
         | Some a => dict_update a 0 (fun n => n + ms_of item) d
         | None => d
         end)
      data (ws_weekday_artists st).
Proof.
  revert st. induction data as [| x data IH]; intros st; simpl.
  - reflexivity.
  - rewrite IH, week_step_weekday_artists. reflexivity.
Qed.

Lemma week_loop_weekend_artists (data : list event) (st : week_state) :
  ws_weekend_artists (fold_left (week_step utc_to_pacific) data st)
  = fold_left
      (fun d item =>
         match (if in_weekend utc_to_pacific item then artist_of item else None)
         with
         | Some a => dict_update a 0 (fun n => n + ms_of item) d
         | None => d
         end)
      data (ws_weekend_artists st).
Proof.
  revert st. induction data as [| x data IH]; intros st; simpl.
  - reflexivity.
  - rewrite IH, week_step_weekend_artists. reflexivity.
Qed.

(** The tally of a bucket: one entry per artist of its events, with the
    milliseconds of those events. *)
Lemma bucket_tally (pick : event -> bool) (data : list event) :
  let tallies :=
    fold_left
      (fun d item =>
         match (if pick item then artist_of item else None) with
         | Some a => dict_update a 0 (fun n => n + ms_of item) d
         | None => d
         end)
      data [] in
  NoDup (map fst tallies)
  /\ forall a n, In (a, n) tallies ->
                 n = listened (plays_by a (filter pick data)).
Proof.
  cbv zeta. split.
  - apply (group_NoDup 0 (fun item => if pick item then artist_of item else None)
             (fun item n => n + ms_of item) _ (fun _ _ => eq_refl)).
  - intros a n I.
    apply (group_In 0 (fun item => if pick item then artist_of item else None)
             (fun item n => n + ms_of item) _ (fun _ _ => eq_refl)) in I.
    pose proof (@grow_measure event Z 0 (fun item n => n + ms_of item)
                  (fun z => z) ms_of
                  (filter (has_key (fun item => if pick item
                                                then artist_of item else None)
                                   a) data)
                  (proj2 (Forall_forall _ _) (fun _ _ _ => eq_refl)) None) as M.
    rewrite I in M. simpl in M. rewrite M.
    unfold listened, plays_by. f_equal. f_equal.
    rewrite filter_filter. apply filter_ext. intros item.
    unfold has_key. destruct (pick item); reflexivity.
Qed.

End WeekBuckets.

Lemma minutes_descending {A : Type} (key : A -> Z) (l : list A) :
  descending key l ->
  descending (fun x => round (inject_Z (key x) / 60000)) l.
Proof.
  unfold descending. induction 1 as [| x l S IH F]; constructor.
  - exact IH.
  - eapply Forall_impl; [| exact F]. simpl. intros y L.
    apply round_mono. apply Qmult_le_compat_r; [| discriminate].
    rewrite <- Zle_Qle. exact L.
Qed.

Lemma descending_map {A B : Type} (f : A -> B) (key : B -> Z) (l : list A) :
  descending (fun x => key (f x)) l -> descending key (map f l).
Proof.
  unfold descending. intros S.
  apply (StronglySorted_map (fun a b => key b <= key a) f). exact S.
Qed.

Section WeekReport.

Variable utc_to_pacific : string -> datetime.

(** The report of a bucket that holds the events [events] and their
    tally. *)
Lemma report_bucket_spec (events : list event) (b : bucket)
    (tallies : list (string * Z)) :
  Forall (fun item => has_timestamp item = true) events ->
  b = fold_left (fill_bucket utc_to_pacific) events empty_bucket ->
  NoDup (map fst tallies) ->
  (forall a n, In (a, n) tallies -> n = listened (plays_by a events)) ->
  br_total_plays (report_bucket b tallies) = len events
  /\ br_unique_artists (report_bucket b tallies)
     = distinct (truthy_values (map master_metadata_album_artist_name events))
  /\ br_days_count (report_bucket b tallies)
     = Z.max 1 (len (nodup key_dec (local_dates utc_to_pacific events)))
  /\ (List.length (br_top_artists (report_bucket b tallies)) <= 3)%nat
  /\ descending am_minutes (br_top_artists (report_bucket b tallies))
  /\ NoDup (map am_artist (br_top_artists (report_bucket b tallies)))
  /\ (forall e, In e (br_top_artists (report_bucket b tallies)) ->
        am_minutes e
        = round (inject_Z (listened (plays_by (am_artist e) events)) / 60000)).
Proof.
  intros T -> N L.
  destruct (fill_bucket_fold utc_to_pacific empty_bucket T)
    as (Ep & Em & Ea & Ed).
  unfold report_bucket. cbn [br_total_plays br_unique_artists
                             br_days_count br_top_artists].
  rewrite Ep, Ea, Ed. simpl b_plays. simpl b_artists.
  simpl b_days. rewrite set_fold_distinct, set_fold_nodup.
  split; [lia |]. split; [reflexivity |].
  split; [apply or_int_max; unfold len; lia |].
  split; [rewrite length_map; apply firstn_le_length |].
  split; [| split].
  - apply (descending_map (fun am : string * Z =>
                             {| am_artist := fst am;
                                am_minutes := round (inject_Z (snd am) / 60000) |})
             am_minutes).
    apply minutes_descending, descending_firstn, sorted_desc_descending.
  - rewrite map_map. cbn [am_artist].
    change (NoDup (map fst (firstn 3 (sorted_desc snd tallies)))).
    rewrite <- firstn_map. apply NoDup_firstn.
    apply (Permutation_NoDup
             (Permutation_map fst (Permutation_sym (sorted_desc_perm snd _)))).
    exact N.
  - intros e I. apply in_map_iff in I. destruct I as ([a n] & <- & I).
    simpl. apply ranked_In in I. rewrite (L a n I). reflexivity.
Qed.

(** X4: the weekday bucket holds the events whose local weekday is Monday to
    Friday and the weekend bucket those of Saturday and Sunday.  For each
    bucket [total_plays] is the number of its events, [unique_artists] the
    number of their distinct non-empty artist names, [days_count] the
    number of their distinct local dates, or 1 when there is none;
    [top_artists]
    names at most three distinct artists, in descending order of their
    minutes, each with the rounded minutes of its events of the bucket. *)
Theorem weekday_vs_weekend_buckets (data : list event) :
  let report := calculate_weekday_vs_weekend utc_to_pacific data in
  let spec (events : list event) (r : bucket_report) : Prop :=
    br_total_plays r = len events
    /\ br_unique_artists r
       = distinct (truthy_values
                     (map master_metadata_album_artist_name events))
    /\ br_days_count r
       = Z.max 1 (len (nodup key_dec (local_dates utc_to_pacific events)))
    /\ (List.length (br_top_artists r) <= 3)%nat
    /\ descending am_minutes (br_top_artists r)
    /\ NoDup (map am_artist (br_top_artists r))
    /\ (forall e, In e (br_top_artists r) ->
          am_minutes e
          = round (inject_Z (listened (plays_by (am_artist e) events))
                   / 60000)) in
  spec (filter (in_week utc_to_pacific) data) (wr_weekday report)
  /\ spec (filter (in_weekend utc_to_pacific) data) (wr_weekend report).
Proof.
  cbv zeta. unfold calculate_weekday_vs_weekend, week_loop.
  cbn [wr_weekday wr_weekend]. split.
  - apply report_bucket_spec.
    + apply in_week_has_timestamp.
    + apply week_loop_weekday.
    + rewrite week_loop_weekday_artists.
      apply (bucket_tally (in_week utc_to_pacific) data).
    + rewrite week_loop_weekday_artists.
      apply (bucket_tally (in_week utc_to_pacific) data).
  - apply report_bucket_spec.
    + apply in_weekend_has_timestamp.
    + apply week_loop_weekend.
    + rewrite week_loop_weekend_artists.
      apply (bucket_tally (in_weekend utc_to_pacific) data).
    + rewrite week_loop_weekend_artists.
      apply (bucket_tally (in_weekend utc_to_pacific) data).
Qed.

End WeekReport.

Lemma weekday_vs_weekend_buckets_witness :
  br_total_plays
    (wr_weekday (calculate_weekday_vs_weekend Pacific.pacific_time
                   Sample.three_months))
  = len (filter (in_week Pacific.pacific_time) Sample.three_months).
Proof.
  apply (weekday_vs_weekend_buckets Pacific.pacific_time Sample.three_months).
Defined.

(** ** Skipped tracks, continued *)




(** ** The metrics job, continued *)

Section JobOutcome.

Variable utc_to_pacific : string -> datetime.







End JobOutcome.


(** ** Special days *)

Section SpecialDays.

Variable utc_to_pacific : string -> datetime.

(** What a dict of play statistics holds under a key: nothing when no event
    falls on it, else the number and the summed milliseconds of the events
    that do. *)
Lemma stats_by_get {K : Type} `{KeyOk K} (by_ : datetime -> K)
    (data : list event) (k : K) :
  dict_get k (stats_by utc_to_pacific by_ data)
  = match filed_at utc_to_pacific by_ k data with
    | [] => None
    | _ :: _ =>
        Some {| ms := listened (filed_at utc_to_pacific by_ k data);
                plays := len (filed_at utc_to_pacific by_ k data) |}
    end.
Proof.
  unfold stats_by.
  rewrite (group_get time_default (local_key utc_to_pacific by_) time_step _
             (stats_by_step utc_to_pacific by_)).
  fold (filed_at utc_to_pacific by_ k data).
  destruct (filed_at utc_to_pacific by_ k data) as [| x l] eqn:E;
    [reflexivity |].
  rewrite <- E.
  destruct (@grow_nonempty _ _ time_default time_step
              (filed_at utc_to_pacific by_ k data)) as [s G];
    [rewrite E; discriminate |].
  rewrite G. f_equal.
  change s with (value time_default (Some s)). rewrite <- G.
  set (v := value time_default _).
  assert (M : ms v = listened (filed_at utc_to_pacific by_ k data)).
  { unfold v, listened.
    rewrite grow_measure with (w := ms_of); [reflexivity |].
    apply Forall_forall. reflexivity. }
  assert (P : plays v = len (filed_at utc_to_pacific by_ k data)).
  { unfold v. rewrite grow_measure with (w := fun _ => 1); [apply sum_ones |].
    apply Forall_forall. reflexivity. }
  destruct v as [m p]. simpl in M, P. rewrite M, P. reflexivity.
Qed.

Lemma fold_left_pointwise {A B : Type} (f g : A -> B -> A) (l : list B)
    (a : A) :
  (forall x y, f x y = g x y) -> fold_left f l a = fold_left g l a.
Proof.
  intros E. revert a. induction l as [| y l IH]; intros a; simpl.
  - reflexivity.
  - rewrite E. apply IH.
Qed.

(** Entries made from a list of distinct keys, at most one per key, have
    distinct keys. *)
Lemma NoDup_keys_made {A K V : Type} (key : A -> K) (g : A -> list (K * V))
    (l : list A) :
  (forall x, map fst (g x) = [] \/ map fst (g x) = [key x]) ->
  NoDup (map key l) -> NoDup (map fst (flat_map g l)).
Proof.
  intros G.
  assert (Sub : forall l' k, In k (map fst (flat_map g l')) ->
                             In k (map key l')).
  { induction l' as [| x l' IH]; simpl; intros k; [trivial |].
    rewrite map_app, in_app_iff. intros [I | I].
    - destruct (G x) as [E | E]; rewrite E in I; [contradiction |].
      destruct I as [<- | []]. left. reflexivity.
    - right. apply IH, I. }
  induction l as [| x l IH]; simpl; intros N; [constructor |].
  inversion N as [| ? ? Nx N']. subst. rewrite map_app.
  destruct (G x) as [E | E]; rewrite E; simpl; [apply IH, N' |].
  constructor; [| apply IH, N'].
  intros I. apply Nx, Sub, I.
Qed.

Lemma fold_append {A B : Type} (g : A -> option B) (l : list A)
    (acc : list B) :
  fold_left (fun special h => match g h with
                              | Some e => special ++ [e]
                              | None => special
                              end) l acc
  = acc ++ flat_map (fun h => match g h with
                              | Some e => [e]
                              | None => []
                              end) l.
Proof.
  revert acc. induction l as [| h l IH]; intros acc; simpl.
  - rewrite app_nil_r. reflexivity.
  - rewrite IH. destruct (g h); [rewrite <- app_assoc |]; reflexivity.
Qed.

(** X7: the special days are the birthday, under the key [birthday], and
    then the holidays in the order of their table, under the keys
    [mx_<month>_<day>], each listed when and only when some event falls on
    its local month and day; an entry holds the number of those events and
    their summed milliseconds in rounded minutes.  The keys listed are
    distinct. *)
Theorem special_days_entries (data : list event) :
  let on (date : Z * Z) : list event :=
    filed_at utc_to_pacific (fun dt => (month dt, day dt)) date data in
  let entry (key name : string) (date : Z * Z)
      : list (string * special_entry) :=
    match on date with
    | [] => []
    | _ :: _ =>
        [(key, {| sp_date := name;
                  sp_plays := len (on date);
                  sp_minutes := round (inject_Z (listened (on date)) / 60000) |})]
    end in
  calculate_special_days utc_to_pacific data
  = entry "birthday"%string "6 de abril"%string BIRTHDAY
    ++ flat_map (fun h : Z * Z * string =>
                   entry ("mx_" ++ str (fst (fst h)) ++ "_"
                          ++ str (snd (fst h)))%string
                         (snd h) (fst h))
                MEXICAN_HOLIDAYS
  /\ NoDup (map fst (calculate_special_days utc_to_pacific data)).
Proof.
  cbv zeta.
  set (on := fun date : Z * Z =>
         filed_at utc_to_pacific (fun dt => (month dt, day dt)) date data).
  set (entry := fun (key name : string) (date : Z * Z) =>
         match on date with
         | [] => []
         | _ :: _ =>
             [(key, {| sp_date := name;
                       sp_plays := len (on date);
                       sp_minutes :=
                         round (inject_Z (listened (on date)) / 60000) |})]
         end).
  assert (E : calculate_special_days utc_to_pacific data
              = entry "birthday"%string "6 de abril"%string BIRTHDAY
                ++ flat_map (fun h : Z * Z * string =>
                               entry ("mx_" ++ str (fst (fst h)) ++ "_"
                                      ++ str (snd (fst h)))%string
                                     (snd h) (fst h))
                            MEXICAN_HOLIDAYS).
  { unfold calculate_special_days. cbv zeta.
    set (daily := stats_by utc_to_pacific (fun dt => (month dt, day dt)) data).
    set (g := fun h : Z * Z * string =>
           match dict_get (fst h) daily with
           | Some stats =>
               Some (("mx_" ++ str (fst (fst h)) ++ "_"
                      ++ str (snd (fst h)))%string,
                     special_of (snd h) stats)
           | None => None
           end).
    transitivity
      (fold_left (fun special h => match g h with
                                   | Some e => special ++ [e]
                                   | None => special
                                   end)
                 MEXICAN_HOLIDAYS
                 (match dict_get BIRTHDAY daily with
                  | Some stats =>
                      [("birthday"%string, special_of "6 de abril" stats)]
                  | None => []
                  end)).
    { apply fold_left_pointwise. intros special [date name]. unfold g. simpl.
      destruct (dict_get date daily); reflexivity. }
    rewrite fold_append. f_equal.
    - unfold daily. rewrite stats_by_get. unfold entry, on.
      destruct (filed_at _ _ BIRTHDAY data); reflexivity.
    - apply flat_map_ext. intros [date name]. unfold g, daily. simpl.
      rewrite stats_by_get. unfold entry, on.
      destruct (filed_at _ _ date data); reflexivity. }
  split; [exact E |].
  rewrite E.
  change (entry "birthday"%string "6 de abril"%string BIRTHDAY
          ++ flat_map (fun h : Z * Z * string =>
                         entry ("mx_" ++ str (fst (fst h)) ++ "_"
                                ++ str (snd (fst h)))%string
                               (snd h) (fst h))
                      MEXICAN_HOLIDAYS)
    with (flat_map (fun c : string * (Z * Z * string) =>
                      entry (fst c) (snd (snd c)) (fst (snd c)))
            (("birthday"%string, (BIRTHDAY, "6 de abril"%string))
             :: map (fun h : Z * Z * string =>
                       (("mx_" ++ str (fst (fst h)) ++ "_"
                         ++ str (snd (fst h)))%string, h))
                    MEXICAN_HOLIDAYS)).
  apply (NoDup_keys_made fst).
  - intros [key [date name]]. unfold entry. simpl.
    destruct (on date); [left | right]; reflexivity.
  - match goal with
    | |- NoDup ?l =>
        assert (Hl : nodup string_dec l = l) by (vm_compute; reflexivity);
        rewrite <- Hl; apply NoDup_nodup
    end.
Qed.

End SpecialDays.

(** ** Monthly trend, continued *)

Lemma ltb_ge (a b : Q) : ltb a b = false -> (b <= a)%Q.
Proof.
  unfold ltb. destruct (Qcompare_spec a b) as [E | L | G]; try discriminate.
  - intros _. rewrite E. apply Qle_refl.
  - intros _. apply Qlt_le_weak. exact G.
Qed.

(** [max(l, key=key)] is a member of the list with the greatest key. *)
Lemma max_by_spec {A : Type} (key : A -> Q) (x : A) (l : list A) :
  In (max_by key x l) (x :: l)
  /\ forall y, In y (x :: l) -> (key y <= key (max_by key x l))%Q.
Proof.
  unfold max_by. revert x. induction l as [| z l IH]; intros x; simpl.
  - split; [left; reflexivity |].
    intros y [<- | []]. apply Qle_refl.
  - destruct (ltb (key x) (key z)) eqn:L.
    + destruct (IH z) as [I M]. split; [right; exact I |].
      intros y [<- | Iy]; [| apply M, Iy].
      apply ltb_lt in L. apply Qlt_le_weak.
      apply (Qlt_le_trans _ _ _ L). apply M. left. reflexivity.
    + destruct (IH x) as [I M]. split.
      * destruct I as [<- | I]; [left; reflexivity | right; right; exact I].
      * intros y [<- | [<- | Iy]].
        -- apply M. left. reflexivity.
        -- apply ltb_ge in L. apply (Qle_trans _ _ _ L). apply M.
           left. reflexivity.
        -- apply M. right. exact Iy.
Qed.

Lemma filter_none {A : Type} (key : A -> Z) (k : Z) (l : list A) :
  ~ In k (map key l) -> filter (fun y => key y =? k) l = [].
Proof.
  induction l as [| z l IH]; simpl; intros N; [reflexivity |].
  rewrite (proj2 (Z.eqb_neq (key z) k)); [apply IH |]; intuition.
Qed.

(** Among items with distinct keys, one key selects one item. *)
Lemma filter_one {A : Type} (key : A -> Z) (x : A) (l : list A) :
  NoDup (map key l) -> In x l ->
  filter (fun y => key y =? key x) l = [x].
Proof.
  induction l as [| z l IH]; simpl; intros N I; [contradiction |].
  inversion N as [| ? ? Nz N']. subst.
  destruct I as [-> | I].
  - rewrite Z.eqb_refl. f_equal.
    apply filter_none. exact Nz.
  - rewrite (proj2 (Z.eqb_neq (key z) (key x))); [apply IH; assumption |].
    intros E. apply Nz. rewrite E. apply in_map. exact I.
Qed.

Lemma filter_map_swap {A B : Type} (f : A -> B) (p : B -> bool) (l : list A) :
  filter p (map f l) = map f (filter (fun x => p (f x)) l).
Proof.
  induction l as [| x l IH]; simpl; [reflexivity |].
  destruct (p (f x)); simpl; rewrite IH; reflexivity.
Qed.

Section MonthlyMarks.

Variable utc_to_pacific : string -> datetime.

Lemma month_rows_NoDup (data : list event) :
  NoDup (map mr_month (month_rows utc_to_pacific data)).
Proof.
  unfold month_rows. rewrite map_map. simpl.
  apply (Permutation_NoDup
           (Permutation_map fst (Permutation_sym (sorted_asc_perm fst _)))).
  apply (@stats_by_NoDup utc_to_pacific Z _ _ month data).
Qed.

Lemma month_rows_entry (data : list event) (r : month_row) :
  In r (month_rows utc_to_pacific data) ->
  mr_plays r = len (filed_at utc_to_pacific month (mr_month r) data)
  /\ 1 <= mr_plays r
  /\ mr_month_name r = nth (Z.to_nat (mr_month r)) month_names ""%string.
Proof.
  unfold month_rows. intros I. apply in_map_iff in I.
  destruct I as ([m s] & <- & I). simpl.
  apply (Permutation_in _ (sorted_asc_perm fst _)) in I.
  destruct (@stats_by_entry utc_to_pacific Z _ _ month data m s I)
    as (P & _ & One).
  rewrite <- P. repeat split; trivial.
Qed.

(** X8: the monthly trend has a row for every local month in which an event
    falls; a row holds the number of the events of its month, at least one,
    and the name of the month.  When there is a row, exactly one row is marked [is_peak] and
    no row has more hours than it, and exactly one row is marked
    [is_inflection] and no row has a greater [delta]. *)
Theorem monthly_trend_marks (data : list event) :
  let trend := calculate_monthly_trend utc_to_pacific data in
  (forall e, In e trend ->
     mt_plays e = len (filed_at utc_to_pacific month (mt_month e) data)
     /\ 1 <= mt_plays e
     /\ mt_month_name e = nth (Z.to_nat (mt_month e)) month_names ""%string)
  /\ (forall item dt,
        In item data -> pacific_of utc_to_pacific item = Some dt ->
        In (month dt) (map mt_month trend))
  /\ (trend <> [] ->
      (exists e, filter mt_is_peak trend = [e]
                 /\ forall e', In e' trend -> (mt_hours e' <= mt_hours e)%Q)
      /\ (exists e, filter mt_is_inflection trend = [e]
                    /\ forall e', In e' trend ->
                                  (mt_delta e' <= mt_delta e)%Q)).
Proof.
  cbv zeta. split; [| split].
  - intros e I.
    destruct (mark_months_map
                (with_deltas None (month_rows utc_to_pacific data)))
      as (peak & inflection & E).
    unfold calculate_monthly_trend in I. rewrite E in I.
    apply in_map_iff in I. destruct I as (r & <- & I). simpl.
    apply month_rows_entry.
    rewrite <- (with_deltas_rows None (month_rows utc_to_pacific data)).
    apply in_map. exact I.
  - intros item dt I P. rewrite monthly_trend_months.
    destruct (@stats_by_complete utc_to_pacific Z _ _ month data item dt I P)
      as [s Is].
    apply (Permutation_in _ (Permutation_sym (sorted_asc_perm fst _))) in Is.
    apply (in_map fst) in Is. exact Is.
  - unfold calculate_monthly_trend.
    pose proof (month_rows_NoDup data) as N.
    rewrite <- (with_deltas_rows None (month_rows utc_to_pacific data)) in N.
    rewrite map_map in N.
    destruct (with_deltas None (month_rows utc_to_pacific data))
      as [| r0 rest]; [intros C; contradiction C; reflexivity |].
    intros _. unfold mark_months.
    set (rows := r0 :: rest) in *.
    set (max_month := max_by (fun r => mr_hours (dr_row r)) r0 rest).
    set (max_delta_month := max_by dr_delta r0 rest).
    set (mk := fun r => {| mt_month := mr_month (dr_row r);
                           mt_month_name := mr_month_name (dr_row r);
                           mt_plays := mr_plays (dr_row r);
                           mt_hours := mr_hours (dr_row r);
                           mt_delta := dr_delta r;
                           mt_delta_pct := dr_delta_pct r;
                           mt_is_peak :=
                             mr_month (dr_row r)
                             =? mr_month (dr_row max_month);
                           mt_is_inflection :=
                             mr_month (dr_row r)
                             =? mr_month (dr_row max_delta_month) |}).
    destruct (max_by_spec (fun r => mr_hours (dr_row r)) r0 rest) as [Ih Mh].
    destruct (max_by_spec dr_delta r0 rest) as [Id Md].
    fold max_month in Ih, Mh. fold max_delta_month in Id, Md.
    fold rows in Ih, Mh, Id, Md.
    split.
    + exists (mk max_month). split.
      * rewrite filter_map_swap.
        rewrite (filter_ext (fun r => mt_is_peak (mk r))
                   (fun r => mr_month (dr_row r)
                             =? mr_month (dr_row max_month))
                   (fun _ => eq_refl)).
        rewrite (@filter_one _ (fun r => mr_month (dr_row r)) max_month rows
                   N Ih).
        reflexivity.
      * intros e' I. apply in_map_iff in I. destruct I as (r & <- & I).
        simpl. apply Mh, I.
    + exists (mk max_delta_month). split.
      * rewrite filter_map_swap.
        rewrite (filter_ext (fun r => mt_is_inflection (mk r))
                   (fun r => mr_month (dr_row r)
                             =? mr_month (dr_row max_delta_month))
                   (fun _ => eq_refl)).
        rewrite (@filter_one _ (fun r => mr_month (dr_row r)) max_delta_month
                   rows N Id).
        reflexivity.
      * intros e' I. apply in_map_iff in I. destruct I as (r & <- & I).
        simpl. apply Md, I.
Qed.

End MonthlyMarks.

Lemma monthly_trend_marks_witness :
  exists e,
    filter mt_is_peak
      (calculate_monthly_trend Pacific.pacific_time Sample.three_months)
    = [e].
Proof.
  destruct (monthly_trend_marks Pacific.pacific_time Sample.three_months)
    as (_ & _ & H).
  destruct H as [(e & E & _) _].
  - remember (calculate_monthly_trend Pacific.pacific_time
                Sample.three_months) as t eqn:Et.
    vm_compute in Et. rewrite Et. discriminate.
  - exists e. exact E.
Defined.

(** * Further properties of the metadata enricher *)

(** X9: the aggregation lists the track identifiers in the order in which
    the history first shows them, and the entry of an identifier holds the
    number and the summed milliseconds of its events together with the
    track, artist and album names of the last of them. *)
Theorem unique_tracks_entries (history : list event) :
  map fst (Fetch.extract_unique_tracks history)
  = first_seen (filed_keys Fetch.track_id_of history)
  /\ forall tid s,
       In (tid, s) (Fetch.extract_unique_tracks history) ->
       exists earlier latest,
         filter (has_key Fetch.track_id_of tid) history = earlier ++ [latest]
         /\ Fetch.st_play_count s = len (earlier ++ [latest])
         /\ Fetch.st_ms_played s = listened (earlier ++ [latest])
         /\ Fetch.st_track_name s
            = get_default (master_metadata_track_name latest) ""%string
         /\ Fetch.st_artist_name s
            = get_default (master_metadata_album_artist_name latest) ""%string
         /\ Fetch.st_album_name s
            = get_default (master_metadata_album_album_name latest) ""%string.
Proof.
  split.
  - apply (group_keys Fetch.stat_default Fetch.track_id_of Fetch.stat_step _
             (fun _ _ => eq_refl)).
  - intros tid s I.
    apply (group_In Fetch.stat_default Fetch.track_id_of Fetch.stat_step _
             (fun _ _ => eq_refl)) in I.
    pose proof (tally_group (filter (has_key Fetch.track_id_of tid) history))
      as T.
    rewrite I in T.
    destruct (grow_last _ _ _ I) as (earlier & latest & E & S).
    exists earlier, latest. rewrite <- E.
    split; [reflexivity |].
    destruct (filter (has_key Fetch.track_id_of tid) history) as [| x l];
      [destruct earlier; discriminate |].
    simpl in T. injection T as Tm Tp.
    split; [exact Tp |]. split; [exact Tm |].
    rewrite S. repeat split; reflexivity.
Qed.

(** ** The track identifier of a URI *)

Lemma string_app_assoc (a b c : string) :
  ((a ++ b) ++ c = a ++ b ++ c)%string.
Proof.
  induction a as [| x a IH]; simpl; [| rewrite IH]; reflexivity.
Qed.

Section Split.

Variable sep : ascii.

(** A string without the separator. *)
Let plain (w : string) : Prop := ~ In sep (list_ascii_of_string w).

Lemma split_nonempty (s : string) : Fetch.split sep s <> [].
Proof.
  destruct s as [| c s]; simpl; [discriminate |].
  destruct (Ascii.eqb c sep); [discriminate |].
  destruct (Fetch.split sep s); discriminate.
Qed.

Lemma split_plain (w : string) : plain w -> Fetch.split sep w = [w].
Proof.
  unfold plain. induction w as [| c w IH]; simpl; intros P; [reflexivity |].
  destruct (Ascii.eqb_spec c sep) as [-> | N]; [exfalso; apply P; auto |].
  rewrite IH; [reflexivity |]. intros I. apply P. right. exact I.
Qed.

(** Splitting at a separator splits both sides of it. *)
Lemma split_app (a b : string) :
  Fetch.split sep (a ++ String sep b)
  = Fetch.split sep a ++ Fetch.split sep b.
Proof.
  induction a as [| c a IH]; simpl.
  - rewrite Ascii.eqb_refl. reflexivity.
  - destruct (Ascii.eqb c sep); rewrite IH; [reflexivity |].
    pose proof (split_nonempty a) as N.
    destruct (Fetch.split sep a); [contradiction | reflexivity].
Qed.

Lemma split_segments (s : string) : Forall plain (Fetch.split sep s).
Proof.
  unfold plain. induction s as [| c s IH]; simpl.
  - constructor; [intros [] | constructor].
  - destruct (Ascii.eqb_spec c sep) as [-> | N].
    + constructor; [intros [] | exact IH].
    + pose proof (split_nonempty s) as Ne.
      destruct (Fetch.split sep s) as [| w ws]; [contradiction |].
      inversion IH as [| ? ? Pw Pws]. subst.
      constructor; [| exact Pws].
      simpl. intros [E | I]; [apply N; exact E | apply Pw, I].
Qed.

(** Joining the segments with the separator gives the string back. *)
Lemma join_split (s : string) :
  Fetch.join (String sep EmptyString) (Fetch.split sep s) = s.
Proof.
  induction s as [| c s IH]; simpl; [reflexivity |].
  pose proof (split_nonempty s) as Ne.
  destruct (Ascii.eqb_spec c sep) as [-> | N].
  - destruct (Fetch.split sep s) as [| w ws]; [contradiction |].
    simpl in IH |- *. rewrite IH. reflexivity.
  - destruct (Fetch.split sep s) as [| w ws]; [contradiction |].
    destruct ws as [| w' ws]; simpl in IH |- *; rewrite <- IH; reflexivity.
Qed.

Lemma join_snoc (l : list string) (w : string) :
  l <> [] ->
  Fetch.join (String sep EmptyString) (l ++ [w])
  = (Fetch.join (String sep EmptyString) l ++ String sep w)%string.
Proof.
  induction l as [| x l IH]; [contradiction |]. intros _.
  destruct l as [| y l].
  - reflexivity.
  - change (Fetch.join (String sep EmptyString) ((x :: y :: l) ++ [w]))
      with (x ++ String sep EmptyString
              ++ Fetch.join (String sep EmptyString) ((y :: l) ++ [w]))%string.
    rewrite IH by discriminate.
    change (Fetch.join (String sep EmptyString) (x :: y :: l))
      with (x ++ String sep EmptyString
              ++ Fetch.join (String sep EmptyString) (y :: l))%string.
    rewrite !string_app_assoc. reflexivity.
Qed.

(** The last segment is what follows the last separator. *)
Lemma split_last (s : string) :
  In sep (list_ascii_of_string s) ->
  exists pre,
    s = (pre ++ String sep (last (Fetch.split sep s) EmptyString))%string
    /\ plain (last (Fetch.split sep s) EmptyString).
Proof.
  intros I.
  pose proof (split_segments s) as P.
  pose proof (join_split s) as J.
  destruct (exists_last (split_nonempty s)) as (init & w & E).
  rewrite E in P, J |- *. rewrite last_last.
  apply Forall_app in P. destruct P as [_ Pw].
  apply Forall_inv in Pw. rename Pw into Pw'.
  destruct init as [| x init].
  - simpl in J. subst w. contradiction.
  - exists (Fetch.join (String sep EmptyString) (x :: init)).
    rewrite join_snoc in J by discriminate.
    split; [symmetry; exact J | exact Pw'].
Qed.

End Split.

Lemma prefix_append (p s : string) :
  prefix p s = true -> exists t, s = (p ++ t)%string.
Proof.
  revert s. induction p as [| a p IH]; intros s.
  - exists s. reflexivity.
  - destruct s as [| b s]; simpl; [discriminate |].
    destruct (ascii_dec a b) as [<- | N]; [| discriminate].
    intros P. destruct (IH s P) as [t ->]. exists t. reflexivity.
Qed.

Lemma append_prefix (p t : string) : prefix p (p ++ t) = true.
Proof.
  induction p as [| a p IH]; simpl.
  - destruct t; reflexivity.
  - destruct (ascii_dec a a) as [_ | N]; [exact IH | contradiction].
Qed.

(** X10: the identifier under which an event is tallied is the part of its
    track URI after the last colon, and holds no colon; a URI
    [spotify:track:<id>] whose [<id>] holds no colon is tallied under
    [<id>]. *)
Theorem track_id_is_last_segment (item : event) :
  (forall tid,
     Fetch.track_id_of item = Some tid ->
     exists uri pre,
       get (spotify_track_uri item) = Some uri
       /\ prefix "spotify:track:" uri = true
       /\ uri = (pre ++ ":" ++ tid)%string
       /\ ~ In ":"%char (list_ascii_of_string tid))
  /\ (forall id,
        ~ In ":"%char (list_ascii_of_string id) ->
        get (spotify_track_uri item) = Some ("spotify:track:" ++ id)%string ->
        Fetch.track_id_of item = Some id).
Proof.
  unfold Fetch.track_id_of. split.
  - intros tid.
    destruct (get (spotify_track_uri item)) as [uri |]; [| discriminate].
    simpl. destruct (uri =? "")%string; [discriminate |].
    destruct (prefix "spotify:track:" uri) eqn:P; [| discriminate].
    intros [= <-].
    destruct (@split_last ":"%char uri) as (pre & E & Pl).
    { destruct (prefix_append _ _ P) as [t ->]. simpl. tauto. }
    exists uri, pre. repeat split; assumption.
  - intros id Pl ->.
    change (truthy (Some ("spotify:track:" ++ id)%string))
      with (Some ("spotify:track:" ++ id)%string).
    cbv beta iota.
    rewrite append_prefix.
    change ("spotify:track:" ++ id)%string
      with ("spotify:track" ++ String ":" id)%string.
    rewrite split_app, (@split_plain ":"%char id Pl), last_last.
    reflexivity.
Qed.

(** ** The batches of a run *)

(** Slices of 50 from the starts 0, 50, 100, ... put the list together
    again. *)
Lemma batches_concat {A : Type} (k : nat) (l : list A) :
  (List.length l <= 50 * k)%nat ->
  List.concat (map (fun j => Fetch.batch_at l (50 * j)) (seq 0 k)) = l.
Proof.
  revert l. induction k as [| k IH]; intros l L.
  - destruct l; [reflexivity | simpl in L; lia].
  - rewrite <- cons_seq, <- seq_shift, map_cons, map_map, concat_cons.
    transitivity (firstn 50 l ++ skipn 50 l); [| apply firstn_skipn].
    apply f_equal2; [reflexivity |].
    etransitivity; [| apply (IH (skipn 50 l)); rewrite length_skipn; lia].
    f_equal. apply map_ext. intros j. unfold Fetch.batch_at.
    rewrite skipn_skipn. do 2 f_equal. lia.
Qed.

Lemma batch_starts_cover {A : Type} (l : list A) :
  List.concat (map (Fetch.batch_at l) (Fetch.batch_starts (List.length l))) = l.
Proof.
  unfold Fetch.batch_starts. rewrite map_map. apply batches_concat.
  pose proof (Nat.div_mod_eq (List.length l + 49) 50) as D.
  pose proof (Nat.mod_upper_bound (List.length l + 49) 50) as M.
  lia.
Qed.

Section EveryTrack.

Variable record : Type.
Variable service : list Fetch.request -> Fetch.request -> Fetch.response record.

(** X11: when every answer with the status 200 has a body that decodes, the
    loop over the batches of [main] runs to its end whatever the statuses
    are, and the requests it sends ask for every track identifier exactly
    once and in order: each request goes to the tracks endpoint with the
    headers of the run and between 1 and 50 identifiers, there is one
    request per started 50 identifiers, and the identifiers of the requests
    put together are the list [track_ids]. *)
Theorem every_track_requested_once (track_ids : list string)
    (headers_ : list (string * string)) (w : Fetch.world) :
  (forall hist r, Fetch.status_code (service hist r) = 200 ->
                  exists b, Fetch.json (service hist r) = Ok b) ->
  exists out w' sent,
    Fetch.fetch_all_tracks service track_ids headers_ w = (Ok out, w')
    /\ Fetch.requests w' = Fetch.requests w ++ sent
    /\ List.concat (map (@Fetch.ids) sent) = track_ids
    /\ Forall (fun r => Fetch.url r = "https://api.spotify.com/v1/tracks"%string
                        /\ Fetch.headers r = headers_
                        /\ (1 <= List.length (Fetch.ids r) <= 50)%nat)
              sent
    /\ List.length sent = ((List.length track_ids + 49) / 50)%nat.
Proof.
  intros D. unfold Fetch.fetch_all_tracks.
  destruct (@track_batches_run record service track_ids headers_
              (Fetch.batch_starts (List.length track_ids)) D
              (@batch_start_in_range (List.length track_ids)) [] w)
    as (out & w' & E & Q & _).
  exists out, w'.
  exists (map (fun i => Fetch.tracks_request (Fetch.batch_at track_ids i)
                          headers_)
              (Fetch.batch_starts (List.length track_ids))).
  split; [exact E |]. split; [exact Q |]. split; [| split].
  - rewrite map_map. unfold Fetch.tracks_request. cbn [Fetch.ids].
    rewrite (map_ext _ (Fetch.batch_at track_ids)
               (fun i => firstn_batch_at track_ids i)).
    apply batch_starts_cover.
  - apply Forall_forall. intros r I. apply in_map_iff in I.
    destruct I as (i & <- & I). unfold Fetch.tracks_request.
    cbn [Fetch.url Fetch.headers Fetch.ids].
    split; [reflexivity |]. split; [reflexivity |].
    rewrite firstn_batch_at. split.
    + apply batch_start_in_range in I.
      pose proof (@batch_at_nonempty _ track_ids i I) as N.
      destruct (Fetch.batch_at track_ids i); [contradiction | simpl; lia].
    + unfold Fetch.batch_at. apply firstn_50_length.
  - rewrite length_map. unfold Fetch.batch_starts.
    rewrite length_map, length_seq. reflexivity.
Qed.

End EveryTrack.

Lemma every_track_requested_once_witness :
  exists sent,
    Fetch.requests
      (snd (Fetch.fetch_all_tracks Sample.every_other Sample.many_ids []
              {| Fetch.requests := []; Fetch.stdout := [] |}))
    = sent
    /\ List.concat (map (@Fetch.ids) sent) = Sample.many_ids.
Proof.
  destruct (@every_track_requested_once string Sample.every_other
              Sample.many_ids []
              {| Fetch.requests := []; Fetch.stdout := [] |})
    as (out & w' & sent & E & Q & C & _).
  - intros hist r. unfold Sample.every_other.
    destruct (Nat.even (List.length hist)); simpl; [| discriminate].
    intros _. eexists. reflexivity.
  - exists sent. rewrite E. simpl. rewrite Q. split; [reflexivity | exact C].
Defined.

Section Answered.

Variable record : Type.
Variable service : list Fetch.request -> Fetch.request -> Fetch.response record.

(** What the catalog holds for an identifier: a record, or [null]. *)
Variable catalog : string -> option record.

Hypothesis answers : forall hist r,
  Fetch.status_code (service hist r) = 200
  /\ exists b, Fetch.json (service hist r) = Ok b
               /\ Fetch.body_tracks b = Some (map catalog (Fetch.ids r)).

Lemma track_batches_answered (track_ids : list string)
    (headers_ : list (string * string)) (starts : list nat) :
  (forall i, In i starts -> (i < List.length track_ids)%nat) ->
  forall (acc : list (option record)) (w : Fetch.world),
    fst (Fetch.track_batches service starts track_ids headers_ acc w)
    = Ok (acc ++ List.concat
                   (map (fun i => map catalog (Fetch.batch_at track_ids i))
                        starts)).
Proof.
  induction starts as [| i starts IH]; intros R acc w.
  - simpl. rewrite app_nil_r. reflexivity.
  - assert (N : Fetch.batch_at track_ids i <> [])
      by (apply batch_at_nonempty, R; left; reflexivity).
    assert (R' : forall j, In j starts -> (j < List.length track_ids)%nat)
      by (intros j Ij; apply R; right; exact Ij).
    simpl Fetch.track_batches. unfold Fetch.io_bind at 1.
    unfold Fetch.print at 1. unfold Fetch.io_bind at 1.
    rewrite (fetch_tracks_batch_eq service headers_ _ N). cbv zeta.
    match goal with
    | |- context [service ?h ?r] =>
        destruct (answers h r) as (S & b & J & B); rewrite S, J, B
    end.
    simpl negb. cbv iota.
    rewrite IH by exact R'.
    rewrite map_cons, concat_cons, app_assoc.
    unfold Fetch.tracks_request. cbn [Fetch.ids].
    rewrite firstn_batch_at. reflexivity.
Qed.

(** X12: batching is transparent.  When the catalog service answers every
    request with the status 200 and, for each identifier asked for, what
    the catalog holds for it, the loop over the batches returns what the
    catalog holds for each identifier of [track_ids], in their order. *)
Theorem fetch_all_tracks_answered (track_ids : list string)
    (headers_ : list (string * string)) (w : Fetch.world) :
  fst (Fetch.fetch_all_tracks service track_ids headers_ w)
  = Ok (map catalog track_ids).
Proof.
  unfold Fetch.fetch_all_tracks.
  rewrite track_batches_answered by apply batch_start_in_range.
  simpl app. f_equal.
  rewrite <- (map_map (Fetch.batch_at track_ids) (map catalog)).
  rewrite <- concat_map, batch_starts_cover. reflexivity.
Qed.

End Answered.

Lemma fetch_all_tracks_answered_witness :
  fst (Fetch.fetch_all_tracks
         (fun _ r =>
            {| Fetch.status_code := 200;
               Fetch.json :=
                 Ok {| Fetch.body_tracks := Some (map Some (Fetch.ids r));
                       Fetch.body_artists := None |} |})
         Sample.many_ids []
         {| Fetch.requests := []; Fetch.stdout := [] |})
  = Ok (map Some Sample.many_ids).
Proof.
  apply (@fetch_all_tracks_answered string _ Some).
  intros hist r. split; [reflexivity |].
  eexists. split; reflexivity.
Defined.
